(** * ZeroGo: a shallow embedding of the agent's data plane

    The development follows the Go packages of the repository:

    - [Wire]       byte-level helpers of [encoding/binary] used by the code;
    - [Primitives] the interfaces of the external cryptographic libraries
                   ([golang.org/x/crypto/blake2s], [chacha20poly1305]),
                   followed by [BLAKE2s] and [ChaCha20Poly1305], the two
                   primitives after their RFCs;
    - [Identity]   [internal/identity]: node addresses;
    - [VL1]        [internal/vl1]: the transport cipher, the PSK key
                   derivation, the packet codec and the peer table;
    - [Node]       the agent's hello handler;
    - [VL2], [ARP] [internal/vl2]: Ethernet frames, the learning switch and
                   the ARP proxy;
    - [Dataplane]  the agent as the sender of its switch, its UDP handlers
                   and the body of its tap loop.

    Go maps are [gmap]s; the order in which a [range] loop visits a map is
    not fixed by the language, so every loop over a map takes the visiting
    order as an argument.  Readings of the wall clock are arguments too.
    Unsigned 64-bit counters are integers with the wrap-around written
    out.  A Go array [[n]byte] is a vector of [n] bytes, a slice a list. *)

From Stdlib Require Import ZArith Lia List.
From stdpp Require Import gmap list vector strings.
From Stdlib Require Import Btauto.
From coqutil Require Import Byte Word.LittleEndianList Z.bitblast.

Local Open Scope Z_scope.

(** Values returned next to a Go [error]. *)
Inductive error : Type :=
  | ErrCiphertextTooShort   (* errors.New("ciphertext too short") *)
  | ErrDecryptFailed        (* vl1.ErrDecryptFailed *)
  | ErrBadKeyLength         (* chacha20poly1305: bad key length *)
  | ErrFrameTooShort.       (* errors.New("frame too short") *)

Inductive result (A : Type) : Type :=
  | Ok (a : A)
  | Err (e : error).
Arguments Ok {A} a.
Arguments Err {A} e.

(** ** Byte-level helpers *)
Module Wire.

(** A Go array [[n]byte] is a vector of [n] bytes. *)
Abbreviation array n := (vec byte n).

(** [var a [n]byte; copy(a[:], src)]: the array starts zeroed and
    receives the first [min n (len src)] bytes of [src]. *)
Fixpoint copy_into (n : nat) (src : list byte) : array n :=
  match n with
  | O => [#]
  | S n' =>
      match src with
      | [] => Byte.x00 ::: copy_into n' []
      | b :: rest => b ::: copy_into n' rest
      end
  end.

(** [s[lo:hi]] on a slice that is long enough. *)
Definition slice (lo hi : nat) (s : list byte) : list byte :=
  take (hi - lo) (drop lo s).

(** [binary.LittleEndian.PutUint64] and [Uint64]. *)
Definition PutUint64LE (v : Z) : list byte := le_split 8 v.
Definition Uint64LE (b : list byte) : Z := le_combine (take 8 b).

(** [binary.BigEndian.Uint16] and [PutUint16]. *)
Definition Uint16BE (b : list byte) : Z :=
  match b with
  | hi :: lo :: _ => Z.lor (Z.shiftl (byte.unsigned hi) 8) (byte.unsigned lo)
  | _ => 0
  end.
Definition PutUint16BE (v : Z) : list byte :=
  [byte.of_Z (Z.shiftr v 8); byte.of_Z v].

(** [binary.BigEndian.Uint32] and [PutUint32]. *)
Definition Uint32BE (b : list byte) : Z :=
  match b with
  | b0 :: b1 :: b2 :: b3 :: _ =>
      Z.lor (Z.lor (Z.lor (Z.shiftl (byte.unsigned b0) 24)
                          (Z.shiftl (byte.unsigned b1) 16))
                   (Z.shiftl (byte.unsigned b2) 8))
            (byte.unsigned b3)
  | _ => 0
  end.
Definition PutUint32BE (v : Z) : list byte :=
  [byte.of_Z (Z.shiftr v 24); byte.of_Z (Z.shiftr v 16);
   byte.of_Z (Z.shiftr v 8); byte.of_Z v].

(** [binary.BigEndian.Uint64]: the first byte is the most significant. *)
Definition Uint64BE (b : list byte) : Z := le_combine (rev (take 8 b)).

(** [a | b] on [byte]. *)
Definition or_byte (a b : byte) : byte :=
  byte.of_Z (Z.lor (byte.unsigned a) (byte.unsigned b)).

(** Arithmetic on [uint64]. *)
Definition wrap64 (z : Z) : Z := z mod 2 ^ 64.

Definition byte_ltb (a b : byte) : bool := byte.unsigned a <? byte.unsigned b.

Definition zeros (n : nat) : list byte := replicate n Byte.x00.

End Wire.

#[global] Instance byte_eq_dec : EqDecision byte := Stdlib.Strings.Byte.byte_eq_dec.

#[global] Instance byte_countable : Countable byte :=
inj_countable' byte.unsigned byte.of_Z byte.of_Z_unsigned.

Lemma copy_into_vec_to_list (n : nat) (v : Wire.array n) :
  Wire.copy_into n (vec_to_list v) = v.
Proof.
  induction v as [|b n v IH]; [reflexivity|].
  cbn [vec_to_list Wire.copy_into]. f_equal. exact IH.
Qed.

(** Arrays of bytes as map keys, by their contents. *)
#[global] Instance array_countable (n : nat) : Countable (Wire.array n) | 0 :=
inj_countable' vec_to_list (Wire.copy_into n) (copy_into_vec_to_list n).

(** ** External cryptographic libraries, as interfaces *)
Module Primitives.

Definition KeySize : nat := 32.     (* chacha20poly1305.KeySize *)
Definition NonceSize : nat := 12.   (* chacha20poly1305.NonceSize *)
Definition Overhead : nat := 16.    (* chacha20poly1305.Overhead *)

(** [cipher.AEAD] as implemented by [chacha20poly1305]: [Seal] with an
    empty destination and [Open].  The laws are those every AEAD of
    that package satisfies for a 32-byte key and a 12-byte nonce. *)
Class AEAD : Type := {
  Seal : list byte -> list byte -> list byte -> list byte -> list byte;
  Open : list byte -> list byte -> list byte -> list byte -> option (list byte);
  Open_Seal : forall key nonce plaintext ad,
    length key = KeySize -> length nonce = NonceSize ->
    Open key nonce (Seal key nonce plaintext ad) ad = Some plaintext;
  Seal_length : forall key nonce plaintext ad,
    length key = KeySize -> length nonce = NonceSize ->
    length (Seal key nonce plaintext ad) = (length plaintext + Overhead)%nat;
  Open_short : forall key nonce ciphertext ad,
    (length ciphertext < Overhead)%nat ->
    Open key nonce ciphertext ad = None
}.

(** [blake2s.New256(key)] followed by [Write]s and [Sum]: the digest of
    the concatenated input under an optional key of at most 32 bytes
    ([nil] for the unkeyed hash, as in [blake2s.Sum256]). *)
Class Blake2s : Type := {
  blake2s_256 : list byte -> list byte -> Wire.array 32
}.

End Primitives.

(** ** The external primitives, after their specifications

    The code calls [golang.org/x/crypto]; the functions below follow
    RFC 7693 (BLAKE2s) and RFC 8439 (ChaCha20-Poly1305) and provide the
    instances of the interfaces above on which the agent is run. *)

(** 32-bit words and their little-endian encoding. *)
Module Word32.
Definition wrap (z : Z) : Z := z mod 2 ^ 32.
Definition add (a b : Z) : Z := wrap (a + b).
Definition rotl (n a : Z) : Z := wrap (Z.lor (Z.shiftl a n) (Z.shiftr a (32 - n))).
Definition rotr (n a : Z) : Z := wrap (Z.lor (Z.shiftr a n) (Z.shiftl a (32 - n))).
Definition get (v : list Z) (i : nat) : Z := nth i v 0.
Definition of_bytes (b : list byte) : list Z :=
  (fix go (n : nat) (b : list byte) : list Z :=
     match n with
     | O => []
     | S n' => match b with
               | [] => []
               | _ => le_combine (take 4 b) :: go n' (drop 4 b)
               end
     end) (length b) b.
Definition to_bytes (w : list Z) : list byte := flat_map (le_split 4) w.
End Word32.

(** BLAKE2s-256 with an optional key (RFC 7693). *)
Module BLAKE2s.
Import Word32.

Definition IV : list Z :=
  [0x6A09E667; 0xBB67AE85; 0x3C6EF372; 0xA54FF53A;
   0x510E527F; 0x9B05688C; 0x1F83D9AB; 0x5BE0CD19].

Definition SIGMA : list (list nat) :=
  [[0; 1; 2; 3; 4; 5; 6; 7; 8; 9; 10; 11; 12; 13; 14; 15];
   [14; 10; 4; 8; 9; 15; 13; 6; 1; 12; 0; 2; 11; 7; 5; 3];
   [11; 8; 12; 0; 5; 2; 15; 13; 10; 14; 3; 6; 7; 1; 9; 4];
   [7; 9; 3; 1; 13; 12; 11; 14; 2; 6; 5; 10; 4; 0; 15; 8];
   [9; 0; 5; 7; 2; 4; 10; 15; 14; 1; 11; 12; 6; 8; 3; 13];
   [2; 12; 6; 10; 0; 11; 8; 3; 4; 13; 7; 5; 15; 14; 1; 9];
   [12; 5; 1; 15; 14; 13; 4; 10; 0; 7; 6; 3; 9; 2; 8; 11];
   [13; 11; 7; 14; 12; 1; 3; 9; 5; 0; 15; 4; 8; 6; 2; 10];
   [6; 15; 14; 9; 11; 3; 0; 8; 12; 2; 13; 7; 1; 4; 10; 5];
   [10; 2; 8; 4; 7; 6; 1; 5; 15; 11; 9; 14; 3; 12; 13; 0]]%nat.

Definition G (a b c d : nat) (x y : Z) (v : list Z) : list Z :=
  let v := <[a := add (add (get v a) (get v b)) x]> v in
  let v := <[d := rotr 16 (Z.lxor (get v d) (get v a))]> v in
  let v := <[c := add (get v c) (get v d)]> v in
  let v := <[b := rotr 12 (Z.lxor (get v b) (get v c))]> v in
  let v := <[a := add (add (get v a) (get v b)) y]> v in
  let v := <[d := rotr 8 (Z.lxor (get v d) (get v a))]> v in
  let v := <[c := add (get v c) (get v d)]> v in
  <[b := rotr 7 (Z.lxor (get v b) (get v c))]> v.

Definition round (m : list Z) (v : list Z) (s : list nat) : list Z :=
  let mx i := get m (nth i s 0%nat) in
  let v := G 0 4 8 12 (mx 0%nat) (mx 1%nat) v in
  let v := G 1 5 9 13 (mx 2%nat) (mx 3%nat) v in
  let v := G 2 6 10 14 (mx 4%nat) (mx 5%nat) v in
  let v := G 3 7 11 15 (mx 6%nat) (mx 7%nat) v in
  let v := G 0 5 10 15 (mx 8%nat) (mx 9%nat) v in
  let v := G 1 6 11 12 (mx 10%nat) (mx 11%nat) v in
  let v := G 2 7 8 13 (mx 12%nat) (mx 13%nat) v in
  G 3 4 9 14 (mx 14%nat) (mx 15%nat) v.

(** Compression of one 64-byte block. *)
Definition F (h : list Z) (block : list byte) (t : Z) (last : bool) : list Z :=
  let m := of_bytes block in
  let v := h ++ IV in
  let v := <[12%nat := Z.lxor (get v 12) (wrap t)]> v in
  let v := <[13%nat := Z.lxor (get v 13) (wrap (Z.shiftr t 32))]> v in
  let v := if last then <[14%nat := Z.lxor (get v 14) 0xFFFFFFFF]> v else v in
  let v := foldl (round m) v SIGMA in
  imap (fun i hi => Z.lxor (Z.lxor hi (get v i)) (get v (i + 8))) h.

Definition pad_block (b : list byte) : list byte :=
  b ++ replicate (64 - length b) Byte.x00.

(** All blocks but the last, then the last one with the final flag. *)
Fixpoint absorb (n : nat) (h : list Z) (t : Z) (data : list byte) : list Z :=
  match n with
  | O => F h (pad_block data) (t + Z.of_nat (length data)) true
  | S n' =>
      if (length data <=? 64)%nat
      then F h (pad_block data) (t + Z.of_nat (length data)) true
      else absorb n' (F h (take 64 data) (t + 64) false) (t + 64) (drop 64 data)
  end.

Definition sum256 (key data : list byte) : list byte :=
  let kk := Z.of_nat (length key) in
  let h := <[0%nat := Z.lxor (get IV 0) (Z.lxor 0x01010000 (Z.lxor (Z.shiftl kk 8) 32))]> IV in
  let input := match key with [] => data | _ => pad_block key ++ data end in
  to_bytes (absorb (length input) h 0 input).
End BLAKE2s.

(** The AEAD of RFC 8439. *)
Module ChaCha20Poly1305.
Import Word32.

Definition quarter_round (a b c d : nat) (v : list Z) : list Z :=
  let v := <[a := add (get v a) (get v b)]> v in
  let v := <[d := rotl 16 (Z.lxor (get v d) (get v a))]> v in
  let v := <[c := add (get v c) (get v d)]> v in
  let v := <[b := rotl 12 (Z.lxor (get v b) (get v c))]> v in
  let v := <[a := add (get v a) (get v b)]> v in
  let v := <[d := rotl 8 (Z.lxor (get v d) (get v a))]> v in
  let v := <[c := add (get v c) (get v d)]> v in
  <[b := rotl 7 (Z.lxor (get v b) (get v c))]> v.

Definition double_round (v : list Z) : list Z :=
  let v := quarter_round 0 4 8 12 v in
  let v := quarter_round 1 5 9 13 v in
  let v := quarter_round 2 6 10 14 v in
  let v := quarter_round 3 7 11 15 v in
  let v := quarter_round 0 5 10 15 v in
  let v := quarter_round 1 6 11 12 v in
  let v := quarter_round 2 7 8 13 v in
  quarter_round 3 4 9 14 v.

Definition constants : list Z :=
  [0x61707865; 0x3320646e; 0x79622d32; 0x6b206574].

(** The 64-byte ChaCha20 block for a key, a block counter and a nonce. *)
Definition block (key : list byte) (counter : Z) (nonce : list byte) : list byte :=
  let init := constants ++ of_bytes key ++ [wrap counter] ++ of_bytes nonce in
  let v := Nat.iter 10 double_round init in
  to_bytes (zip_with add v init).

Definition xor_byte (a b : byte) : byte :=
  byte.of_Z (Z.lxor (byte.unsigned a) (byte.unsigned b)).

(** XOR of [data] with the start of [pad]. *)
Definition xor_pad (pad data : list byte) : list byte :=
  imap (fun i b => xor_byte b (nth i pad Byte.x00)) data.

Definition keystream (key : list byte) (counter : Z) (nonce : list byte)
  (len : nat) : list byte :=
  flat_map (fun j => block key (counter + Z.of_nat j) nonce)
           (seq 0 ((len + 63) / 64)).

Definition chacha20_xor (key : list byte) (counter : Z) (nonce data : list byte)
  : list byte :=
  xor_pad (keystream key counter nonce (length data)) data.

Definition P1305 : Z := 2 ^ 130 - 5.

Fixpoint poly_blocks (n : nat) (r acc : Z) (msg : list byte) : Z :=
  match n with
  | O => acc
  | S n' =>
      match msg with
      | [] => acc
      | _ =>
          let chunk := take 16 msg in
          let v := le_combine (chunk ++ [Byte.x01]) in
          poly_blocks n' r (((acc + v) * r) mod P1305) (drop 16 msg)
      end
  end.

Definition poly1305 (key msg : list byte) : list byte :=
  let r := Z.land (le_combine (take 16 key)) 0x0ffffffc0ffffffc0ffffffc0fffffff in
  let s := le_combine (take 16 (drop 16 key)) in
  let acc := poly_blocks (length msg) r 0 msg in
  le_split 16 (acc + s).

Definition pad16 (x : list byte) : list byte :=
  replicate ((16 - length x mod 16) mod 16) Byte.x00.

Definition tag (key nonce ciphertext ad : list byte) : list byte :=
  let otk := take 32 (block key 0 nonce) in
  poly1305 otk (ad ++ pad16 ad ++ ciphertext ++ pad16 ciphertext ++
                le_split 8 (Z.of_nat (length ad)) ++
                le_split 8 (Z.of_nat (length ciphertext))).

Definition seal (key nonce plaintext ad : list byte) : list byte :=
  let ciphertext := chacha20_xor key 1 nonce plaintext in
  ciphertext ++ tag key nonce ciphertext ad.

Definition open (key nonce sealed ad : list byte) : option (list byte) :=
  if (length sealed <? 16)%nat then None
  else
    let n := (length sealed - 16)%nat in
    let ciphertext := take n sealed in
    if decide (drop n sealed = tag key nonce ciphertext ad)
    then Some (chacha20_xor key 1 nonce ciphertext)
    else None.
End ChaCha20Poly1305.

(** ** internal/identity: node addresses *)
Module Identity.
Import Wire Primitives.

Definition AddressSize : nat := 5.

(** [type Address [AddressSize]byte] *)
Abbreviation Address := (array 5).

Definition zeroAddress : Address := copy_into 5 [].

Section Derivation.
Context `{!Blake2s}.

(** [AddressFromPublicKey]: the first five bytes of the digest, the first
    one forced away from zero. *)
Definition AddressFromPublicKey (pubKey : list byte) : Address :=
  let hash := blake2s_256 [] pubKey in
  let addr := copy_into 5 (slice 0 AddressSize (vec_to_list hash)) in
  if decide (addr !!! 0%fin = Byte.x00)
  then vinsert 0%fin Byte.x01 addr
  else addr.

End Derivation.

(** [Address.IsZero] *)
Definition IsZero (a : Address) : bool := bool_decide (a = zeroAddress).

(** [Address.Uint64]: [var buf [8]byte; copy(buf[3:], a[:])], read
    big-endian. *)
Definition Uint64 (a : Address) : Z :=
  let buf := zeros 3 ++ vec_to_list a in
  Uint64BE buf.

End Identity.

(** ** internal/vl1: transport cipher and PSK key derivation *)
Module VL1.
Import Wire Primitives.

Definition NoiseNonceSize : nat := NonceSize.
Definition NoiseTagSize : nat := Overhead.

(** [chacha20poly1305.New]: the only failure is a key of the wrong size. *)
Definition chacha20poly1305_New (key : list byte) : result (list byte) :=
  if decide (length key = KeySize) then Ok key else Err ErrBadKeyLength.

(** [NoiseCipher]: two keys, the atomic send counter and the receive
    high-water-mark, both [uint64]. *)
Record NoiseCipher : Type := mkNoiseCipher {
  sendKey : array 32;
  recvKey : array 32;
  sendNonce : Z;
  recvNonce : Z
}.

Definition NewNoiseCipher (sk rk : array 32) : NoiseCipher :=
  {| sendKey := sk; recvKey := rk; sendNonce := 0; recvNonce := 0 |}.

(** The counters of a cipher are machine words. *)
Definition cipher_wf (c : NoiseCipher) : Prop :=
  0 <= sendNonce c < 2 ^ 64 /\ 0 <= recvNonce c < 2 ^ 64.

(** [var nonce [12]byte; binary.LittleEndian.PutUint64(nonce[4:], counter)] *)
Definition nonce_of (counter : Z) : list byte :=
  zeros 4 ++ PutUint64LE counter.

Section Cipher.
Context `{!AEAD}.

(** [NoiseCipher.Encrypt]: returns the updated cipher and the result. *)
Definition Encrypt (c : NoiseCipher) (plaintext : list byte)
  : NoiseCipher * result (list byte) :=
  match chacha20poly1305_New (vec_to_list (sendKey c)) with
  | Err e => (c, Err e)
  | Ok aead =>
      (* counter := c.sendNonce.Add(1) - 1 *)
      let added := wrap64 (sendNonce c + 1) in
      let counter := wrap64 (added - 1) in
      let nonce := nonce_of counter in
      let out := PutUint64LE counter in
      let out := out ++ Seal aead nonce plaintext [] in
      ({| sendKey := sendKey c; recvKey := recvKey c;
          sendNonce := added; recvNonce := recvNonce c |}, Ok out)
  end.

(** [NoiseCipher.Decrypt]. *)
Definition Decrypt (c : NoiseCipher) (data : list byte)
  : NoiseCipher * result (list byte) :=
  if (length data <? 8 + NoiseTagSize)%nat then (c, Err ErrCiphertextTooShort)
  else
    match chacha20poly1305_New (vec_to_list (recvKey c)) with
    | Err e => (c, Err e)
    | Ok aead =>
        let counter := Uint64LE data in
        let nonce := nonce_of counter in
        match Open aead nonce (drop 8 data) [] with
        | None => (c, Err ErrDecryptFailed)
        | Some plaintext =>
            let h := if recvNonce c <=? counter
                     then wrap64 (counter + 1) else recvNonce c in
            ({| sendKey := sendKey c; recvKey := recvKey c;
                sendNonce := sendNonce c; recvNonce := h |}, Ok plaintext)
        end
    end.

(** A run of [Encrypt] calls on one cipher, oldest call first. *)
Fixpoint encrypt_all (c : NoiseCipher) (msgs : list (list byte))
  : NoiseCipher * list (result (list byte)) :=
  match msgs with
  | [] => (c, [])
  | m :: rest =>
      let '(c1, r) := Encrypt c m in
      let '(c2, rs) := encrypt_all c1 rest in
      (c2, r :: rs)
  end.

(** The counter embedded at the front of an [Encrypt] output. *)
Definition embedded_counter (r : result (list byte)) : option Z :=
  match r with
  | Ok out => Some (Uint64LE out)
  | Err _ => None
  end.

(** A run of [Decrypt] calls on one cipher, oldest call first: the
    cipher they leave behind. *)
Definition decrypt_all (c : NoiseCipher) (seen : list (list byte)) : NoiseCipher :=
  foldl (fun c data => (Decrypt c data).1) c seen.

End Cipher.

Section KeyDerivation.
Context `{!Blake2s}.

(** [hmacBlake2s]: a keyed BLAKE2s when the key fits, otherwise the key is
    hashed first (the digest is 32 bytes, so the recursive call takes the
    first branch). *)
Definition hmacBlake2s (key data : list byte) : array 32 :=
  if (length key <=? 32)%nat then blake2s_256 key data
  else
    let keyHash := blake2s_256 [] key in
    blake2s_256 (vec_to_list keyHash) data.

(** The loop of [DeriveKeysFromPSK] that compares the two public keys
    from index 0 upwards. *)
Fixpoint localIsSmaller (localPub remotePub : list byte) : bool :=
  match localPub, remotePub with
  | l :: ls, r :: rs =>
      if byte_ltb l r then true
      else if byte_ltb r l then false
      else localIsSmaller ls rs
  | _, _ => false
  end.

Definition label1 : list byte := String.list_byte_of_string "zerogo-psk-key-1"%string.
Definition label2 : list byte := String.list_byte_of_string "zerogo-psk-key-2"%string.

(** [DeriveKeysFromPSK]: returns [(sendKey, recvKey)]. *)
Definition DeriveKeysFromPSK (psk localPub remotePub : array 32)
  : array 32 * array 32 :=
  let smaller := localIsSmaller (vec_to_list localPub) (vec_to_list remotePub) in
  let input :=
    if smaller
    then vec_to_list psk ++ vec_to_list localPub ++ vec_to_list remotePub
    else vec_to_list psk ++ vec_to_list remotePub ++ vec_to_list localPub in
  let master := vec_to_list (blake2s_256 [] input) in
  let k1 := hmacBlake2s master label1 in
  let k2 := hmacBlake2s master label2 in
  if smaller then (k1, k2) else (k2, k1).

(** [sendKey, recvKey := DeriveKeysFromPSK(psk, local, remote)] followed by
    [NewNoiseCipher(sendKey, recvKey)], as the agent builds every cipher. *)
Definition derive_cipher (psk localPub remotePub : array 32) : NoiseCipher :=
  let '(sk, rk) := DeriveKeysFromPSK psk localPub remotePub in
  NewNoiseCipher sk rk.

End KeyDerivation.

(** [constantTimeEqual]: the loop ors the byte-wise differences into [v]. *)
Definition constantTimeEqual (a b : list byte) : bool :=
  if negb (length a =? length b)%nat then false
  else
    let v := foldl (fun v (xy : byte * byte) => or_byte v (byte.xor xy.1 xy.2))
               Byte.x00 (zip a b) in
    bool_decide (v = Byte.x00).

(** *** Packets *)

Definition HeaderSize : nat := 8.
Definition MaxPacketSize : Z := 65535.
Definition MaxPayloadSize : Z := MaxPacketSize - Z.of_nat HeaderSize.
Definition Version : byte := Byte.x01.

(** [type PacketType uint8] *)
Definition PacketTypeData : byte := Byte.x01.
Definition PacketTypeControl : byte := Byte.x02.
Definition PacketTypeKeepalive : byte := Byte.x03.
Definition PacketTypeHandshake : byte := Byte.x04.

(** [Header]: two [uint8], a [uint32] and a [uint16]. *)
Record Header : Type := mkHeader {
  hdr_Version : byte;
  hdr_Type : byte;
  hdr_NetworkID : Z;
  hdr_Reserved : Z
}.

(** The fields of a header are machine words. *)
Definition header_wf (h : Header) : Prop :=
  0 <= hdr_NetworkID h < 2 ^ 32 /\ 0 <= hdr_Reserved h < 2 ^ 16.

(** [Header.Encode]: the eight bytes written into the buffer. *)
Definition Header_Encode (h : Header) : list byte :=
  [hdr_Version h] ++ [hdr_Type h] ++
  PutUint32BE (hdr_NetworkID h) ++ PutUint16BE (hdr_Reserved h).

Inductive packet_error : Type :=
  | ErrPacketTooShort                    (* "packet too short for header" *)
  | ErrUnsupportedVersion (v : byte).    (* "unsupported version: %d" *)

Definition zeroHeader : Header :=
  {| hdr_Version := Byte.x00; hdr_Type := Byte.x00;
     hdr_NetworkID := 0; hdr_Reserved := 0 |}.

(** [DecodeHeader]: the header and the error, [None] for nil. *)
Definition DecodeHeader (buf : list byte) : Header * option packet_error :=
  if (length buf <? HeaderSize)%nat then (zeroHeader, Some ErrPacketTooShort)
  else
    let h := {| hdr_Version := nth 0 buf Byte.x00;
                hdr_Type := nth 1 buf Byte.x00;
                hdr_NetworkID := Uint32BE (slice 2 6 buf);
                hdr_Reserved := Uint16BE (slice 6 8 buf) |} in
    if decide (hdr_Version h = Version) then (h, None)
    else (h, Some (ErrUnsupportedVersion (hdr_Version h))).

Record Packet : Type := mkPacket {
  pkt_Header : Header;
  pkt_Payload : list byte
}.

(** [Packet.Encode] *)
Definition Packet_Encode (p : Packet) : list byte :=
  Header_Encode (pkt_Header p) ++ pkt_Payload p.

(** [DecodePacket]: the packet, or the error with a nil packet. *)
Definition DecodePacket (data : list byte) : Packet + packet_error :=
  match DecodeHeader data with
  | (_, Some err) => inr err
  | (hdr, None) =>
      inl {| pkt_Header := hdr; pkt_Payload := drop HeaderSize data |}
  end.

Definition NewDataPacket (networkID : Z) (payload : list byte) : Packet :=
  {| pkt_Header := {| hdr_Version := Version; hdr_Type := PacketTypeData;
                      hdr_NetworkID := networkID; hdr_Reserved := 0 |};
     pkt_Payload := payload |}.

Definition NewKeepalivePacket : Packet :=
  {| pkt_Header := {| hdr_Version := Version; hdr_Type := PacketTypeKeepalive;
                      hdr_NetworkID := 0; hdr_Reserved := 0 |};
     pkt_Payload := [] |}.

Definition NewHandshakePacket (payload : list byte) : Packet :=
  {| pkt_Header := {| hdr_Version := Version; hdr_Type := PacketTypeHandshake;
                      hdr_NetworkID := 0; hdr_Reserved := 0 |};
     pkt_Payload := payload |}.

(** *** Peers *)

Inductive PeerState : Type :=
  | PeerStateNew
  | PeerStateHandshake
  | PeerStateConnected
  | PeerStateDead.

#[global] Instance PeerState_eq_dec : EqDecision PeerState.
Proof. solve_decision. Defined.

(** [net.UDPAddr] *)
Record UDPAddr : Type := mkUDPAddr {
  IP : list byte;
  Port : Z
}.

(** [Peer]; a nil [Endpoint] or [cipher] is [None], a zero [time.Time]
    is [0]. *)
Record Peer : Type := mkPeer {
  Address : Identity.Address;
  PublicKey : array 32;
  State : PeerState;
  Endpoint : option UDPAddr;
  cipher : option NoiseCipher;
  LastSeen : Z;
  LastSend : Z;
  LatencyMs : Z;
  HandshakeAt : Z
}.

Definition NewPeer (addr : Identity.Address) (pubKey : array 32)
  (endpoint : option UDPAddr) : Peer :=
  {| Address := addr; PublicKey := pubKey; State := PeerStateNew;
     Endpoint := endpoint; cipher := None;
     LastSeen := 0; LastSend := 0; LatencyMs := 0; HandshakeAt := 0 |}.

Definition set_Endpoint (p : Peer) (e : option UDPAddr) : Peer :=
  {| Address := Address p; PublicKey := PublicKey p; State := State p;
     Endpoint := e; cipher := cipher p;
     LastSeen := LastSeen p; LastSend := LastSend p;
     LatencyMs := LatencyMs p; HandshakeAt := HandshakeAt p |}.

Definition set_LastSend (p : Peer) (t : Z) : Peer :=
  {| Address := Address p; PublicKey := PublicKey p; State := State p;
     Endpoint := Endpoint p; cipher := cipher p;
     LastSeen := LastSeen p; LastSend := t;
     LatencyMs := LatencyMs p; HandshakeAt := HandshakeAt p |}.

(** [Peer.SetCipher], with the reading of [time.Now()]. *)
Definition SetCipher (p : Peer) (c : NoiseCipher) (now : Z) : Peer :=
  {| Address := Address p; PublicKey := PublicKey p;
     State := PeerStateConnected;
     Endpoint := Endpoint p; cipher := Some c;
     LastSeen := now; LastSend := LastSend p;
     LatencyMs := LatencyMs p; HandshakeAt := HandshakeAt p |}.

(** [Peer.Touch] *)
Definition Touch (p : Peer) (now : Z) : Peer :=
  {| Address := Address p; PublicKey := PublicKey p; State := State p;
     Endpoint := Endpoint p; cipher := cipher p;
     LastSeen := now; LastSend := LastSend p;
     LatencyMs := LatencyMs p; HandshakeAt := HandshakeAt p |}.

(** [Peer.IsConnected] *)
Definition IsConnected (p : Peer) : bool :=
  bool_decide (State p = PeerStateConnected) &&
  match cipher p with Some _ => true | None => false end.

(** [PeerManager]: the table of peers by address.  A [*Peer] handed out
    by the manager aliases the table entry, so a write through it is a
    write to the entry. *)
Record PeerManager : Type := mkPeerManager {
  peers : gmap Identity.Address Peer
}.

Definition NewPeerManager : PeerManager := {| peers := ∅ |}.

(** [PeerManager.AddPeer]: returns the table and the peer it hands out. *)
Definition AddPeer (pm : PeerManager) (addr : Identity.Address)
  (pubKey : array 32) (endpoint : option UDPAddr) : PeerManager * Peer :=
  match peers pm !! addr with
  | Some p =>
      match endpoint with
      | Some e =>
          let p' := set_Endpoint p (Some e) in
          ({| peers := <[addr := p']> (peers pm) |}, p')
      | None => (pm, p)
      end
  | None =>
      let p := NewPeer addr pubKey endpoint in
      ({| peers := <[addr := p]> (peers pm) |}, p)
  end.

(** A run of [AddPeer] calls on one table, oldest call first. *)
Fixpoint AddPeer_all (pm : PeerManager)
  (calls : list (Identity.Address * array 32 * option UDPAddr)) : PeerManager :=
  match calls with
  | [] => pm
  | (addr, pubKey, endpoint) :: rest =>
      AddPeer_all (AddPeer pm addr pubKey endpoint).1 rest
  end.

(** [PeerManager.GetPeer] *)
Definition GetPeer (pm : PeerManager) (addr : Identity.Address) : option Peer :=
  peers pm !! addr.

(** [PeerManager.RemovePeer] *)
Definition RemovePeer (pm : PeerManager) (addr : Identity.Address) : PeerManager :=
  {| peers := delete addr (peers pm) |}.

(** Durations in nanoseconds, as [time.Duration]. *)
Definition Second : Z := 1000000000.
Definition KeepaliveInterval : Z := 15 * Second.
Definition PeerTimeout : Z := 60 * Second.

(** [Peer.IsAlive], with the reading of the clock. *)
Definition IsAlive (p : Peer) (now : Z) : bool := now - LastSeen p <? PeerTimeout.

(** [Peer.NeedsKeepalive], with the reading of the clock. *)
Definition NeedsKeepalive (p : Peer) (now : Z) : bool :=
  bool_decide (State p = PeerStateConnected) && (KeepaliveInterval <? now - LastSend p).

(** What [Peer.Encrypt] and [Peer.Decrypt] return next to nil. *)
Inductive peer_error : Type :=
  | ErrNoCipher (addr : Identity.Address)   (* "peer %s: no cipher (not connected)" *)
  | ErrCipher (e : error).

Definition set_cipher (p : Peer) (c : NoiseCipher) : Peer :=
  {| Address := Address p; PublicKey := PublicKey p; State := State p;
     Endpoint := Endpoint p; cipher := Some c;
     LastSeen := LastSeen p; LastSend := LastSend p;
     LatencyMs := LatencyMs p; HandshakeAt := HandshakeAt p |}.

Section PeerCipher.
Context `{!AEAD}.

(** [Peer.Encrypt]: the cipher behind the pointer advances its counter. *)
Definition Peer_Encrypt (p : Peer) (plaintext : list byte)
  : Peer * (list byte + peer_error) :=
  match cipher p with
  | None => (p, inr (ErrNoCipher (Address p)))
  | Some c =>
      match Encrypt c plaintext with
      | (c', Ok out) => (set_cipher p c', inl out)
      | (c', Err e) => (set_cipher p c', inr (ErrCipher e))
      end
  end.

(** [Peer.Decrypt] *)
Definition Peer_Decrypt (p : Peer) (ciphertext : list byte)
  : Peer * (list byte + peer_error) :=
  match cipher p with
  | None => (p, inr (ErrNoCipher (Address p)))
  | Some c =>
      match Decrypt c ciphertext with
      | (c', Ok out) => (set_cipher p c', inl out)
      | (c', Err e) => (set_cipher p c', inr (ErrCipher e))
      end
  end.

End PeerCipher.

(** [net.IP.Equal] of the Go standard library: an equivalence on
    addresses that holds between equal byte strings. *)
Class NetIP : Type := {
  IP_Equal : list byte -> list byte -> bool;
  IP_Equal_refl : forall ip, IP_Equal ip ip = true
}.

Section Lookup.
Context `{!NetIP}.

(** The test of the loop of [GetPeerByEndpoint]. *)
Definition at_endpoint (p : Peer) (addr : UDPAddr) : bool :=
  match Endpoint p with
  | Some e => IP_Equal (IP e) (IP addr) && (Port e =? Port addr)
  | None => false
  end.

(** [PeerManager.GetPeerByEndpoint]: the loop visits the table in
    [order] and returns the first match, here with the key of the entry
    the returned pointer refers to. *)
Fixpoint GetPeerByEndpoint (order : list (Identity.Address * Peer)) (addr : UDPAddr)
  : option (Identity.Address * Peer) :=
  match order with
  | [] => None
  | kp :: rest =>
      if at_endpoint kp.2 addr then Some kp else GetPeerByEndpoint rest addr
  end.

End Lookup.

Definition peers_visits (order : list (Identity.Address * Peer)) (pm : PeerManager)
  : Prop :=
  order ≡ₚ map_to_list (peers pm).

(** [PeerManager.ConnectedPeers]: the loop visits the table in [order];
    every pointer is kept with the key of its entry. *)
Definition ConnectedPeers (order : list (Identity.Address * Peer))
  : list (Identity.Address * Peer) :=
  filter (fun kp => IsConnected kp.2 = true) order.

(** [PeerManager.AllPeers] *)
Definition AllPeers (order : list (Identity.Address * Peer))
  : list (Identity.Address * Peer) := order.

(** [PeerManager.CleanDead]: the loop visits the table in [order];
    [now k] is the reading of the clock when it tests the entry of [k]. *)
Definition CleanDead (order : list (Identity.Address * Peer)) (pm : PeerManager)
  (now : Identity.Address -> Z) : PeerManager * nat :=
  let step (acc : gmap Identity.Address Peer * nat) (kp : Identity.Address * Peer) :=
    if negb (IsAlive kp.2 (now kp.1)) && bool_decide (State kp.2 = PeerStateDead)
    then (delete kp.1 acc.1, S acc.2)
    else acc in
  let swept := foldl step (peers pm, 0%nat) order in
  ({| peers := swept.1 |}, swept.2).

End VL1.

(** ** The agent's hello handler *)
Module Node.
Import Wire Primitives VL1.

(** The fields of [Agent] the handler reads and writes. *)
Record Agent : Type := mkAgent {
  identity_PublicKey : array 32;
  config_PSK : array 32;
  agent_peers : PeerManager
}.

(** A datagram handed to the transport. *)
Inductive datagram : Type :=
  | Hello (to : option UDPAddr) (payload : list byte).

Definition store_peer (a : Agent) (addr : Identity.Address) (p : Peer) : Agent :=
  {| identity_PublicKey := identity_PublicKey a;
     config_PSK := config_PSK a;
     agent_peers := {| peers := <[addr := p]> (peers (agent_peers a)) |} |}.

Definition with_peers (a : Agent) (pm : PeerManager) : Agent :=
  {| identity_PublicKey := identity_PublicKey a;
     config_PSK := config_PSK a;
     agent_peers := pm |}.

(** [Agent.sendHello]: [sent] tells whether [transport.SendPacket]
    succeeded; [now] is the reading of [time.Now()]. *)
Definition sendHello (a : Agent) (peer : Peer) (sent : bool) (now : Z)
  : Peer * list datagram :=
  let pkt := Hello (Endpoint peer) (vec_to_list (identity_PublicKey a)) in
  if sent then (set_LastSend peer now, [pkt]) else (peer, [pkt]).

Section Handshake.
Context `{!Blake2s}.

(** [Agent.handleHandshake]: [t1] and [t2] are the successive readings
    of the clock, [sent] the outcome of the transport send. *)
Definition handleHandshake (a : Agent) (payload : list byte) (from : UDPAddr)
  (t1 t2 : Z) (sent : bool) : Agent * list datagram :=
  if (length payload <? 32)%nat then (a, [])
  else
    let remotePubKey := copy_into 32 (slice 0 32 payload) in
    let remoteAddr := Identity.AddressFromPublicKey (vec_to_list remotePubKey) in
    match GetPeer (agent_peers a) remoteAddr with
    | Some peer =>
        let peer := set_Endpoint peer (Some from) in
        let peer := Touch peer t1 in
        let peer :=
          if negb (IsConnected peer) then
            let cipher :=
              derive_cipher (config_PSK a) (identity_PublicKey a) remotePubKey in
            SetCipher peer cipher t2
          else peer in
        (store_peer a remoteAddr peer, [])
    | None =>
        let '(pm, peer) := AddPeer (agent_peers a) remoteAddr remotePubKey (Some from) in
        let a := with_peers a pm in
        let cipher :=
          derive_cipher (config_PSK a) (identity_PublicKey a) remotePubKey in
        let peer := SetCipher peer cipher t1 in
        let '(peer, out) := sendHello a peer sent t2 in
        (store_peer a remoteAddr peer, out)
    end.

End Handshake.

End Node.

(** ** internal/vl2: Ethernet frames, learning switch, ARP proxy *)
Module VL2.
Import Wire.

Definition EthernetHeaderSize : nat := 14.
Definition MinFrameSize : nat := EthernetHeaderSize.
Definition EtherTypeARP : Z := 0x0806.

(** [time.Duration] values, in nanoseconds. *)
Definition Minute : Z := 60 * 1000000000.
Definition MACTableExpiry : Z := 5 * Minute.
Definition MACTableMaxSize : nat := 4096.

Record EthernetFrame : Type := mkFrame {
  DstMAC : list byte;
  SrcMAC : list byte;
  EtherType : Z;
  Payload : list byte;
  Raw : list byte
}.

(** [ParseEthernetFrame] *)
Definition ParseEthernetFrame (data : list byte) : result EthernetFrame :=
  if (length data <? MinFrameSize)%nat then Err ErrFrameTooShort
  else Ok {| DstMAC := slice 0 6 data;
             SrcMAC := slice 6 12 data;
             EtherType := Uint16BE (slice 12 14 data);
             Payload := drop EthernetHeaderSize data;
             Raw := data |}.

(** [mac[i]] *)
Definition at_index (mac : list byte) (i : nat) : byte := nth i mac Byte.x00.

Definition IsBroadcast (f : EthernetFrame) : bool :=
  forallb (fun i => bool_decide (at_index (DstMAC f) i = Byte.xff)) (seq 0 6).

Definition IsMulticast (f : EthernetFrame) : bool :=
  negb (Z.land (byte.unsigned (at_index (DstMAC f) 0)) 1 =? 0).

Definition IsARP (f : EthernetFrame) : bool := EtherType f =? EtherTypeARP.

(** [EthernetFrame.IsUnicast] *)
Definition IsUnicast (f : EthernetFrame) : bool := negb (IsMulticast f).

(** [GenerateMAC]: 0x02, the two low bytes of the network id, the first
    three bytes of the node address. *)
Definition GenerateMAC (networkID : Z) (nodeAddr : Identity.Address) : list byte :=
  let netIDBytes := PutUint32BE networkID in
  [Byte.x02;
   at_index netIDBytes 2;
   at_index netIDBytes 3;
   nodeAddr !!! 0%fin;
   nodeAddr !!! 1%fin;
   nodeAddr !!! 2%fin].

(** [type MACKey [6]byte] and [MACToKey] *)
Abbreviation MACKey := (array 6).
Definition MACToKey (mac : list byte) : MACKey := copy_into 6 mac.

(** *** The learning switch *)

Record MACEntry : Type := mkMACEntry {
  PeerAddr : Identity.Address;
  LastSeen : Z;
  IsLocal : bool
}.

(** Calls on the [PeerSender] of the switch. *)
Inductive send : Type :=
  | SendToPeer (peerAddr : Identity.Address) (networkID : Z) (frame : list byte)
  | BroadcastToPeers (networkID : Z) (frame : list byte) (excludePeer : Identity.Address).

Record Switch : Type := mkSwitch {
  networkID : Z;
  macTable : gmap MACKey MACEntry
}.

Definition NewSwitch (id : Z) : Switch := {| networkID := id; macTable := ∅ |}.

(** The visiting order of [for k, v := range sw.macTable] is some
    enumeration of the table. *)
Definition visits (order : list (MACKey * MACEntry)) (tbl : gmap MACKey MACEntry) : Prop :=
  order ≡ₚ map_to_list tbl.

(** The loop variables of [evictOldest]. *)
Record scan : Type := mkScan {
  oldestKey : MACKey;
  oldestTime : Z;
  first : bool
}.

Definition scan_init : scan :=
  {| oldestKey := copy_into 6 []; oldestTime := 0; first := true |}.

Definition scan_step (s : scan) (kv : MACKey * MACEntry) : scan :=
  if first s || (LastSeen kv.2 <? oldestTime s)
  then {| oldestKey := kv.1; oldestTime := LastSeen kv.2; first := false |}
  else s.

(** [Switch.evictOldest] on the table, the loop visiting it in [order]. *)
Definition evictOldest (order : list (MACKey * MACEntry))
  (tbl : gmap MACKey MACEntry) : gmap MACKey MACEntry :=
  let s := foldl scan_step scan_init order in
  if negb (first s) then delete (oldestKey s) tbl else tbl.

(** [Switch.learn], with the reading of [time.Now()]. *)
Definition learn (order : list (MACKey * MACEntry)) (sw : Switch)
  (mac : list byte) (peerAddr : Identity.Address) (isLocal : bool) (now : Z)
  : Switch :=
  let key := MACToKey mac in
  let tbl :=
    if (MACTableMaxSize <=? size (macTable sw))%nat
    then evictOldest order (macTable sw)
    else macTable sw in
  {| networkID := networkID sw;
     macTable := <[key := {| PeerAddr := peerAddr; LastSeen := now;
                             IsLocal := isLocal |}]> tbl |}.

(** [Switch.HandleLocalFrame]: the new switch, the calls made on the
    sender and the returned error; [sent] is what the sender returns. *)
Definition HandleLocalFrame (order : list (MACKey * MACEntry)) (sw : Switch)
  (frame : list byte) (now : Z) (sent : result unit)
  : Switch * list send * result unit :=
  match ParseEthernetFrame frame with
  | Err e => (sw, [], Err e)
  | Ok parsed =>
      let sw := learn order sw (SrcMAC parsed) Identity.zeroAddress true now in
      if IsBroadcast parsed || IsMulticast parsed
      then (sw, [BroadcastToPeers (networkID sw) frame Identity.zeroAddress], sent)
      else
        match macTable sw !! MACToKey (DstMAC parsed) with
        | Some entry =>
            if negb (IsLocal entry)
            then (sw, [SendToPeer (PeerAddr entry) (networkID sw) frame], sent)
            else (sw, [], Ok tt)
        | None =>
            (sw, [BroadcastToPeers (networkID sw) frame Identity.zeroAddress], sent)
        end
  end.

(** [Switch.HandleRemoteFrame]: the new switch, the calls made on the
    sender, and the frame to inject into the tap ([None] for nil). *)
Definition HandleRemoteFrame (order : list (MACKey * MACEntry)) (sw : Switch)
  (peerAddr : Identity.Address) (frame : list byte) (now : Z)
  : Switch * list send * result (option (list byte)) :=
  match ParseEthernetFrame frame with
  | Err e => (sw, [], Err e)
  | Ok parsed =>
      let sw := learn order sw (SrcMAC parsed) peerAddr false now in
      if IsBroadcast parsed || IsMulticast parsed
      then (sw, [BroadcastToPeers (networkID sw) frame peerAddr], Ok (Some frame))
      else
        match macTable sw !! MACToKey (DstMAC parsed) with
        | Some entry =>
            if IsLocal entry
            then (sw, [], Ok (Some frame))
            else (sw, [SendToPeer (PeerAddr entry) (networkID sw) frame], Ok None)
        | None =>
            (sw, [BroadcastToPeers (networkID sw) frame peerAddr], Ok (Some frame))
        end
  end.

(** [Switch.CleanExpired]: the loop visits the table in [order] and
    deletes as it goes; the new switch and the number removed. *)
Definition CleanExpired (order : list (MACKey * MACEntry)) (sw : Switch)
  (now : Z) : Switch * nat :=
  let cutoff := now - MACTableExpiry in
  let step (acc : gmap MACKey MACEntry * nat) (kv : MACKey * MACEntry) :=
    if (LastSeen kv.2 <? cutoff) && negb (IsLocal kv.2)
    then (delete kv.1 acc.1, S acc.2)
    else acc in
  let swept := foldl step (macTable sw, 0%nat) order in
  ({| networkID := networkID sw; macTable := swept.1 |}, swept.2).

(** [Switch.MACTableSize] *)
Definition MACTableSize (sw : Switch) : nat := size (macTable sw).

End VL2.

(** ** internal/vl2: the ARP proxy *)
Module ARP.
Import Wire VL2.

Definition ARPHeaderSize : nat := 28.
Definition ARPRequest : Z := 1.
Definition ARPReply : Z := 2.
Definition ARPCacheExpiry : Z := 5 * Minute.
Definition ARPCacheMaxSize : nat := 1024.

Abbreviation IPv4 := (array 4).

Record ARPEntry : Type := mkARPEntry {
  MAC : list byte;
  LastSeen : Z
}.

Record ARPProxy : Type := mkARPProxy {
  cache : gmap IPv4 ARPEntry
}.

Definition NewARPProxy : ARPProxy := {| cache := ∅ |}.

Definition visits (order : list (IPv4 * ARPEntry)) (tbl : gmap IPv4 ARPEntry) : Prop :=
  order ≡ₚ map_to_list tbl.

(** The loop variables of [evictOldest]. *)
Record scan : Type := mkScan {
  oldestKey : IPv4;
  oldestTime : Z;
  first : bool
}.

Definition scan_init : scan :=
  {| oldestKey := copy_into 4 []; oldestTime := 0; first := true |}.

Definition scan_step (s : scan) (kv : IPv4 * ARPEntry) : scan :=
  if first s || (LastSeen kv.2 <? oldestTime s)
  then {| oldestKey := kv.1; oldestTime := LastSeen kv.2; first := false |}
  else s.

(** [ARPProxy.evictOldest], the loop visiting the cache in [order]. *)
Definition evictOldest (order : list (IPv4 * ARPEntry))
  (tbl : gmap IPv4 ARPEntry) : gmap IPv4 ARPEntry :=
  let s := foldl scan_step scan_init order in
  if negb (first s) then delete (oldestKey s) tbl else tbl.

(** [ARPProxy.learn], with the reading of [time.Now()]. *)
Definition learn (order : list (IPv4 * ARPEntry)) (a : ARPProxy)
  (ip : IPv4) (mac : list byte) (now : Z) : ARPProxy :=
  let tbl :=
    if (ARPCacheMaxSize <=? size (cache a))%nat
    then evictOldest order (cache a)
    else cache a in
  let macCopy := vec_to_list (copy_into 6 mac) in
  {| cache := <[ip := {| MAC := macCopy; LastSeen := now |}]> tbl |}.

(** [copy(dst[lo:lo+n], src)] into a zeroed buffer leaves these [n] bytes. *)
Definition copied (n : nat) (src : list byte) : list byte :=
  vec_to_list (copy_into n src).

(** [ARPProxy.buildARPReply]: the 42 bytes of the frame, in order. *)
Definition buildARPReply (originalFrame : EthernetFrame)
  (targetMAC senderMAC : list byte) (senderIP targetIP : IPv4) : list byte :=
  (* Ethernet header *)
  copied 6 senderMAC ++
  copied 6 targetMAC ++
  PutUint16BE EtherTypeARP ++
  (* ARP reply *)
  PutUint16BE 1 ++
  PutUint16BE 0x0800 ++
  [byte.of_Z 6] ++
  [byte.of_Z 4] ++
  PutUint16BE ARPReply ++
  copied 6 targetMAC ++
  copied 4 (vec_to_list targetIP) ++
  copied 6 senderMAC ++
  copied 4 (vec_to_list senderIP).

(** The readings [HandleARP] takes from its environment: the visiting
    orders of the two possible evictions and the clock readings of the
    first [learn], of [time.Since] and of the second [learn]. *)
Record env : Type := mkEnv {
  order1 : list (IPv4 * ARPEntry);
  now1 : Z;
  now_since : Z;
  order2 : list (IPv4 * ARPEntry);
  now2 : Z
}.

(** [ARPProxy.HandleARP]: the new proxy and the reply ([None] for nil). *)
Definition HandleARP (e : env) (a : ARPProxy) (frame : EthernetFrame)
  : ARPProxy * option (list byte) :=
  if (length (Payload frame) <? ARPHeaderSize)%nat then (a, None)
  else
    let payload := Payload frame in
    let htype := Uint16BE (slice 0 2 payload) in
    let ptype := Uint16BE (slice 2 4 payload) in
    let hlen := byte.unsigned (at_index payload 4) in
    let plen := byte.unsigned (at_index payload 5) in
    let oper := Uint16BE (slice 6 8 payload) in
    if negb (htype =? 1) || negb (ptype =? 0x0800) ||
       negb (hlen =? 6) || negb (plen =? 4)
    then (a, None)
    else
      let senderMAC := slice 8 14 payload in
      let senderIP : IPv4 := copy_into 4 (slice 14 18 payload) in
      let targetIP : IPv4 := copy_into 4 (slice 24 28 payload) in
      let a := learn (order1 e) a senderIP senderMAC (now1 e) in
      if oper =? ARPRequest then
        match cache a !! targetIP with
        | Some entry =>
            if now_since e - LastSeen entry <? ARPCacheExpiry
            then (a, Some (buildARPReply frame (MAC entry) senderMAC senderIP targetIP))
            else (a, None)
        | None => (a, None)
        end
      else if oper =? ARPReply then
        (learn (order2 e) a senderIP senderMAC (now2 e), None)
      else (a, None).

(** [ARPProxy.CleanExpired]: the loop visits the cache in [order] and
    deletes as it goes; the new proxy and the number removed. *)
Definition CleanExpired (order : list (IPv4 * ARPEntry)) (a : ARPProxy)
  (now : Z) : ARPProxy * nat :=
  let cutoff := now - ARPCacheExpiry in
  let step (acc : gmap IPv4 ARPEntry * nat) (kv : IPv4 * ARPEntry) :=
    if LastSeen kv.2 <? cutoff
    then (delete kv.1 acc.1, S acc.2)
    else acc in
  let swept := foldl step (cache a, 0%nat) order in
  ({| cache := swept.1 |}, swept.2).

End ARP.

(** ** The agent's packet paths: [PeerSender], the UDP handlers *)
Module Dataplane.
Import Wire Primitives VL1 Node.

(** A call of [Transport.SendTo]. *)
Record sendto : Type := mkSendto {
  dst : option UDPAddr;
  bytes : list byte
}.

(** [Transport.SendPacket] *)
Definition SendPacket (pkt : Packet) (addr : option UDPAddr) : sendto :=
  {| dst := addr; bytes := Packet_Encode pkt |}.

(** The call of [Transport.SendTo] behind a hello of [sendHello]. *)
Definition on_wire (d : datagram) : sendto :=
  match d with
  | Hello to payload => SendPacket (NewHandshakePacket payload) to
  end.

(** What [Agent.SendToPeer] returns next to nil. *)
Inductive send_error : Type :=
  | ErrUnknownPeer (addr : Identity.Address)        (* "unknown peer: %s" *)
  | ErrPeerNotConnected (addr : Identity.Address)   (* "peer not connected: %s" *)
  | ErrPeer (e : peer_error)
  | ErrTransport.                                   (* the error of the socket *)

(** The readings of the environment during one call of a handler: the
    iteration orders of the maps, the clock, the outcome of a send on
    the socket, and whether a tap device is attached. *)
Record env : Type := mkEnv {
  peers_order : list (Identity.Address * Peer);
  now1 : Z;
  now2 : Z;
  sent : bool;
  mac_order : list (VL2.MACKey * VL2.MACEntry);
  now_learn : Z;
  flood_order : list (Identity.Address * Peer);
  tap : bool
}.

Section Paths.
Context `{!AEAD} `{!Blake2s} `{!NetIP}.

(** [Agent.SendToPeer]: the agent, the calls on the transport and the
    returned error ([None] for nil). *)
Definition SendToPeer (a : Agent) (peerAddr : Identity.Address) (networkID : Z)
  (frame : list byte) (sent : bool) : Agent * list sendto * option send_error :=
  match GetPeer (agent_peers a) peerAddr with
  | None => (a, [], Some (ErrUnknownPeer peerAddr))
  | Some peer =>
      if negb (IsConnected peer) then (a, [], Some (ErrPeerNotConnected peerAddr))
      else
        let '(peer, r) := Peer_Encrypt peer frame in
        let a := store_peer a peerAddr peer in
        match r with
        | inr e => (a, [], Some (ErrPeer e))
        | inl encrypted =>
            let pkt := NewDataPacket networkID encrypted in
            (a, [SendPacket pkt (Endpoint peer)],
             if sent then None else Some ErrTransport)
        end
  end.

(** The body of the loop of [Agent.BroadcastToPeers]. *)
Definition broadcast_step (networkID : Z) (frame : list byte)
  (excludePeer : Identity.Address) (acc : Agent * list sendto)
  (kp : Identity.Address * Peer) : Agent * list sendto :=
  if decide (Address kp.2 = excludePeer) then acc
  else
    let '(peer, r) := Peer_Encrypt kp.2 frame in
    let a := store_peer acc.1 kp.1 peer in
    match r with
    | inr _ => (a, acc.2)
    | inl encrypted =>
        let pkt := NewDataPacket networkID encrypted in
        (a, acc.2 ++ [SendPacket pkt (Endpoint peer)])
    end.

(** [Agent.BroadcastToPeers]: [order] is the order in which
    [ConnectedPeers] visits the table; the result is always nil. *)
Definition BroadcastToPeers (order : list (Identity.Address * Peer)) (a : Agent)
  (networkID : Z) (frame : list byte) (excludePeer : Identity.Address)
  : Agent * list sendto :=
  foldl (broadcast_step networkID frame excludePeer) (a, []) (ConnectedPeers order).

(** The agent as the [PeerSender] of its switch. *)
Definition run_send (e : env) (acc : Agent * list sendto) (s : VL2.send)
  : Agent * list sendto :=
  match s with
  | VL2.SendToPeer peerAddr networkID frame =>
      let '(a, out, _) := SendToPeer acc.1 peerAddr networkID frame (sent e) in
      (a, acc.2 ++ out)
  | VL2.BroadcastToPeers networkID frame excludePeer =>
      let '(a, out) :=
        BroadcastToPeers (flood_order e) acc.1 networkID frame excludePeer in
      (a, acc.2 ++ out)
  end.

(** The second half of [Agent.handleDataPacket], from the test of
    [a.network] on: the decrypted frame goes through the switch, whose
    sender is the agent, and what the switch returns is written to the
    tap. *)
Definition injectRemote (e : env) (a : Agent) (network : option VL2.Switch)
  (peerAddr : Identity.Address) (plaintext : list byte)
  : Agent * option VL2.Switch * list sendto * option (list byte) :=
  match network with
  | None => (a, None, [], None)
  | Some sw =>
      let '(sw, calls, res) :=
        VL2.HandleRemoteFrame (mac_order e) sw peerAddr plaintext (now_learn e) in
      let '(a, out) := foldl (run_send e) (a, []) calls in
      match res with
      | Err _ => (a, Some sw, out, None)
      | Ok frameToInject =>
          (a, Some sw, out, if tap e then frameToInject else None)
      end
  end.

(** [Agent.handleDataPacket]: the agent, the switch of [a.network]
    ([None] for a nil network), the calls on the transport and the frame
    written to the tap. *)
Definition handleDataPacket (e : env) (a : Agent) (network : option VL2.Switch)
  (pkt : Packet) (from : UDPAddr)
  : Agent * option VL2.Switch * list sendto * option (list byte) :=
  match GetPeerByEndpoint (peers_order e) from with
  | None => (a, network, [], None)
  | Some (k, peer) =>
      let peer := Touch peer (now1 e) in
      let '(peer, r) := Peer_Decrypt peer (pkt_Payload pkt) in
      let a := store_peer a k peer in
      match r with
      | inr _ => (a, network, [], None)
      | inl plaintext => injectRemote e a network (Address peer) plaintext
      end
  end.

(** [Agent.handleUDPPacket] *)
Definition handleUDPPacket (e : env) (a : Agent) (network : option VL2.Switch)
  (data : list byte) (from : UDPAddr)
  : Agent * option VL2.Switch * list sendto * option (list byte) :=
  match DecodePacket data with
  | inr _ => (a, network, [], None)
  | inl pkt =>
      let type := hdr_Type (pkt_Header pkt) in
      if decide (type = PacketTypeHandshake) then
        let '(a, out) :=
          handleHandshake a (pkt_Payload pkt) from (now1 e) (now2 e) (sent e) in
        (a, network, on_wire <$> out, None)
      else if decide (type = PacketTypeData) then
        handleDataPacket e a network pkt from
      else if decide (type = PacketTypeKeepalive) then
        match GetPeerByEndpoint (peers_order e) from with
        | Some (k, peer) => (store_peer a k (Touch peer (now1 e)), network, [], None)
        | None => (a, network, [], None)
        end
      else (a, network, [], None)
  end.

(** [Agent.initiateHandshake] on the peer stored under [k]. *)
Definition initiateHandshake (a : Agent) (k : Identity.Address) (peer : Peer)
  (t1 t2 : Z) (sent : bool) : Agent * list datagram :=
  let cipher :=
    derive_cipher (config_PSK a) (identity_PublicKey a) (PublicKey peer) in
  let peer := SetCipher peer cipher t1 in
  let '(peer, out) := sendHello a peer sent t2 in
  (store_peer a k peer, out).

(** The body of the loop of [Agent.Start] over the static peers, once
    the endpoint is resolved and the key decoded. *)
Definition addStaticPeer (a : Agent) (pubKey : array 32) (endpoint : UDPAddr)
  (t1 t2 : Z) (sent : bool) : Agent * list datagram :=
  let peerAddr := Identity.AddressFromPublicKey (vec_to_list pubKey) in
  let '(pm, peer) := AddPeer (agent_peers a) peerAddr pubKey (Some endpoint) in
  initiateHandshake (with_peers a pm) peerAddr peer t1 t2 sent.

(** The body of the loop of [Agent.tapReadLoop] for the bytes [buf] read
    from the tap: the agent, the switch and the ARP proxy of the network,
    the calls on the transport and the frame written back to the tap.
    The error of [HandleLocalFrame] is only logged. *)
Definition tapFrame (e : env) (ae : ARP.env) (a : Agent) (sw : VL2.Switch)
  (arp : ARP.ARPProxy) (buf : list byte)
  : Agent * VL2.Switch * ARP.ARPProxy * list sendto * option (list byte) :=
  if (length buf <? VL2.MinFrameSize)%nat then (a, sw, arp, [], None)
  else
    match VL2.ParseEthernetFrame buf with
    | Err _ => (a, sw, arp, [], None)
    | Ok frame =>
        let '(arp, reply) :=
          if VL2.IsARP frame then ARP.HandleARP ae arp frame else (arp, None) in
        match reply with
        | Some reply => (a, sw, arp, [], Some reply)
        | None =>
            let '(sw, calls, _) :=
              VL2.HandleLocalFrame (mac_order e) sw buf (now_learn e) (Ok tt) in
            let '(a, out) := foldl (run_send e) (a, []) calls in
            (a, sw, arp, out, None)
        end
    end.

End Paths.

End Dataplane.

(** ** Test data: keys, endpoints, frames and states of concrete runs *)

(** The hash the runs use: [blake2s] with a 32-byte digest. *)
#[global] Instance blake2s_Blake2s : Primitives.Blake2s := {|
  Primitives.blake2s_256 := fun key data => Wire.copy_into 32 (BLAKE2s.sum256 key data)
|}.

(** The all-zero PSK and two public keys, the first the smaller. *)
Definition psk0 : Wire.array 32 := Wire.copy_into 32 [].
Definition pubA0 : Wire.array 32 := Wire.copy_into 32 [Byte.x01].
Definition pubB0 : Wire.array 32 := Wire.copy_into 32 [Byte.x02].

(** Two distinct public keys whose BLAKE2s digests share the first five
    bytes, and two endpoints. *)
Definition pubK1 : Wire.array 32 := Wire.copy_into 32 (le_split 8 64660).
Definition pubK2 : Wire.array 32 := Wire.copy_into 32 (le_split 8 713162).
Definition endpoint1 : VL1.UDPAddr :=
  {| VL1.IP := map byte.of_Z [1; 2; 3; 4]; VL1.Port := 9993 |}.
Definition endpoint2 : VL1.UDPAddr :=
  {| VL1.IP := map byte.of_Z [5; 6; 7; 8]; VL1.Port := 9993 |}.
Definition addrK : Identity.Address :=
  Wire.copy_into 5 (map byte.of_Z [0x8b; 0x8b; 0x68; 0xf5; 0x13]).

(** An agent with an empty peer table, then the same agent after a hello
    carrying [pubK1] from [endpoint1], then after a hello carrying
    [pubK2] from [endpoint2]. *)
Definition agent0 : Node.Agent :=
  {| Node.identity_PublicKey := pubA0; Node.config_PSK := psk0;
     Node.agent_peers := VL1.NewPeerManager |}.
Definition agent1 : Node.Agent :=
  (Node.handleHandshake agent0 (vec_to_list pubK1) endpoint1 100 101 true).1.
Definition agent2 : Node.Agent :=
  (Node.handleHandshake agent1 (vec_to_list pubK2) endpoint2 200 201 true).1.

Definition peer1 : VL1.Peer :=
  VL1.set_LastSend
    (VL1.SetCipher (VL1.NewPeer addrK pubK1 (Some endpoint1))
                   (VL1.derive_cipher psk0 pubA0 pubK1) 100) 101.

(** The MAC of the local host, the MAC of the [i]-th remote host, and
    Ethernet frames sent by them. *)
Definition mac_local : list byte := map byte.of_Z [0x02; 0x00; 0x00; 0x0a; 0x0b; 0x0c].
Definition mac_host (i : nat) : list byte :=
  map byte.of_Z [0x02; 0x00; 0x01; 0x00; Z.of_nat i / 256; Z.of_nat i].
Definition mac_broadcast : list byte := replicate 6 Byte.xff.
Definition frame_from (src : list byte) : list byte :=
  mac_broadcast ++ src ++ map byte.of_Z [0x08; 0x00; 0xde; 0xad; 0xbe; 0xef].

(** The switch after one frame from the tap at time 1000, then after a
    frame with the same source MAC from the remote peer [addrK]. *)
Definition switch0 : VL2.Switch := VL2.NewSwitch 1.
Definition switch1 : VL2.Switch :=
  (VL2.HandleLocalFrame (map_to_list (VL2.macTable switch0)) switch0
     (frame_from mac_local) 1000 (Ok tt)).1.1.
Definition switch2 : VL2.Switch :=
  (VL2.HandleRemoteFrame (map_to_list (VL2.macTable switch1)) switch1 addrK
     (frame_from mac_local) 2000).1.1.

(** A table at capacity: the entry of the local host, last seen at time
    1000, and the entries of 4095 remote hosts behind the peer [addrK],
    host [i] last seen at time [1000 + i]. *)
Definition full_table : gmap VL2.MACKey VL2.MACEntry :=
  list_to_map
    ((VL2.MACToKey mac_local,
      {| VL2.PeerAddr := Identity.zeroAddress; VL2.LastSeen := 1000;
         VL2.IsLocal := true |}) ::
     map (fun i => (VL2.MACToKey (mac_host i),
                    {| VL2.PeerAddr := addrK; VL2.LastSeen := 1000 + Z.of_nat i;
                       VL2.IsLocal := false |}))
         (seq 1 4095)).
Definition switch_full : VL2.Switch :=
  {| VL2.networkID := 1; VL2.macTable := full_table |}.

Definition mac_B : list byte := map byte.of_Z [0x02; 0x00; 0x00; 0x0d; 0x0e; 0x0f].
Definition ip_1 : list byte := map byte.of_Z [10; 147; 17; 1].
Definition ip_2 : list byte := map byte.of_Z [10; 147; 17; 2].

(** An ARP request from the tap: who has [tpa], tell [spa] at [sha]. *)
Definition arp_request (sha spa tpa : list byte) : VL2.EthernetFrame :=
  let payload :=
    map byte.of_Z [0; 1; 0x08; 0x00; 6; 4; 0; 1] ++ sha ++ spa ++
    replicate 6 Byte.x00 ++ tpa in
  {| VL2.DstMAC := mac_broadcast; VL2.SrcMAC := sha; VL2.EtherType := 0x0806;
     VL2.Payload := payload;
     VL2.Raw := mac_broadcast ++ sha ++ map byte.of_Z [0x08; 0x06] ++ payload |}.

(** A proxy that saw 10.147.17.2 at [mac_B] at time 5000, and the
    readings of a call at time 6000. *)
Definition proxy0 : ARP.ARPProxy :=
  {| ARP.cache := {[ Wire.copy_into 4 ip_2 := {| ARP.MAC := mac_B; ARP.LastSeen := 5000 |} ]} |}.
Definition env0 : ARP.env :=
  {| ARP.order1 := map_to_list (ARP.cache proxy0); ARP.now1 := 6000;
     ARP.now_since := 6001; ARP.order2 := []; ARP.now2 := 6002 |}.

(** A second agent with the same PSK, and the addresses of the two. *)
Definition agentB0 : Node.Agent :=
  {| Node.identity_PublicKey := pubB0; Node.config_PSK := psk0;
     Node.agent_peers := VL1.NewPeerManager |}.
Definition addrA0 : Identity.Address := Identity.AddressFromPublicKey (vec_to_list pubA0).
Definition addrB0 : Identity.Address := Identity.AddressFromPublicKey (vec_to_list pubB0).

(** [agent0] with [pubB0] as static peer at [endpoint1], [agentB0] after
    the hello of [agent0] from [endpoint2], and the peers the two hold
    for each other. *)
Definition agentA1 : Node.Agent :=
  (Dataplane.addStaticPeer agent0 pubB0 endpoint1 100 101 true).1.
Definition agentB1 : Node.Agent :=
  (Node.handleHandshake agentB0 (vec_to_list pubA0) endpoint2 110 111 true).1.
Definition peerB_at_A : VL1.Peer :=
  {| VL1.Address := addrB0; VL1.PublicKey := pubB0;
     VL1.State := VL1.PeerStateConnected; VL1.Endpoint := Some endpoint1;
     VL1.cipher := Some (VL1.derive_cipher psk0 pubA0 pubB0);
     VL1.LastSeen := 100; VL1.LastSend := 101;
     VL1.LatencyMs := 0; VL1.HandshakeAt := 0 |}.
Definition peerA_at_B : VL1.Peer :=
  {| VL1.Address := addrA0; VL1.PublicKey := pubA0;
     VL1.State := VL1.PeerStateConnected; VL1.Endpoint := Some endpoint2;
     VL1.cipher := Some (VL1.derive_cipher psk0 pubB0 pubA0);
     VL1.LastSeen := 110; VL1.LastSend := 111;
     VL1.LatencyMs := 0; VL1.HandshakeAt := 0 |}.

(** A frame from [mac_local] for the unicast address [mac_B], as parsed;
    the switch of the sender, which has seen [mac_B] behind [addrB0], and
    the switch of the receiver, which has seen it on its own tap. *)
Definition unicast_frame : list byte :=
  mac_B ++ mac_local ++ map byte.of_Z [0x08; 0x00; 0xde; 0xad; 0xbe; 0xef].
Definition unicast_parsed : VL2.EthernetFrame :=
  {| VL2.DstMAC := mac_B; VL2.SrcMAC := mac_local; VL2.EtherType := 0x0800;
     VL2.Payload := map byte.of_Z [0xde; 0xad; 0xbe; 0xef];
     VL2.Raw := unicast_frame |}.
Definition broadcast_parsed (src : list byte) : VL2.EthernetFrame :=
  {| VL2.DstMAC := mac_broadcast; VL2.SrcMAC := src; VL2.EtherType := 0x0800;
     VL2.Payload := map byte.of_Z [0xde; 0xad; 0xbe; 0xef];
     VL2.Raw := frame_from src |}.
Definition switchA : VL2.Switch :=
  (VL2.HandleRemoteFrame [] switch0 addrB0 (frame_from mac_B) 1000).1.1.
Definition switchB : VL2.Switch :=
  (VL2.HandleLocalFrame [] switch0 (frame_from mac_B) 1000 (Ok tt)).1.1.

(** The readings of one call at each of the two agents. *)
Definition denvA : Dataplane.env :=
  {| Dataplane.peers_order := map_to_list (VL1.peers (Node.agent_peers agentA1));
     Dataplane.now1 := 300; Dataplane.now2 := 301; Dataplane.sent := true;
     Dataplane.mac_order := map_to_list (VL2.macTable switchA);
     Dataplane.now_learn := 302;
     Dataplane.flood_order := map_to_list (VL1.peers (Node.agent_peers agentA1));
     Dataplane.tap := true |}.
Definition denvB : Dataplane.env :=
  {| Dataplane.peers_order := map_to_list (VL1.peers (Node.agent_peers agentB1));
     Dataplane.now1 := 400; Dataplane.now2 := 401; Dataplane.sent := true;
     Dataplane.mac_order := map_to_list (VL2.macTable switchB);
     Dataplane.now_learn := 402;
     Dataplane.flood_order := map_to_list (VL1.peers (Node.agent_peers agentB1));
     Dataplane.tap := true |}.

(** [net.IP.Equal] as the Go standard library has it: the same bytes,
    or an IPv4 address and its IPv4-in-IPv6 form. *)
Definition v4InV6Prefix : list byte := replicate 10 Byte.x00 ++ [Byte.xff; Byte.xff].
Definition go_IP_Equal (ip x : list byte) : bool :=
  if (length ip =? length x)%nat then bool_decide (ip = x)
  else if (length ip =? 4)%nat && (length x =? 16)%nat
  then bool_decide (take 12 x = v4InV6Prefix) && bool_decide (ip = drop 12 x)
  else if (length ip =? 16)%nat && (length x =? 4)%nat
  then bool_decide (take 12 ip = v4InV6Prefix) && bool_decide (drop 12 ip = x)
  else false.

(** * Properties *)

(** ** The reference primitives satisfy the interfaces *)
Section PrimitiveLaws.
Import Word32 ChaCha20Poly1305.

Lemma lxor_byte_range (a b : byte) :
  0 <= Z.lxor (byte.unsigned a) (byte.unsigned b) < 2 ^ 8.
Proof.
  pose proof (byte.unsigned_range a) as Ha.
  pose proof (byte.unsigned_range b) as Hb.
  split; [apply Z.lxor_nonneg; lia|].
  destruct (Z.eq_dec (Z.lxor (byte.unsigned a) (byte.unsigned b)) 0) as [->|Hne]; [lia|].
  assert (0 < Z.lxor (byte.unsigned a) (byte.unsigned b)) as Hpos.
  { assert (0 <= Z.lxor (byte.unsigned a) (byte.unsigned b)) by (apply Z.lxor_nonneg; lia). lia. }
  apply Z.log2_lt_pow2; [exact Hpos|].
  pose proof (Z.log2_lxor (byte.unsigned a) (byte.unsigned b) ltac:(lia) ltac:(lia)) as Hl.
  assert (Z.log2 (byte.unsigned a) < 8) as Hla.
  { destruct (Z.eq_dec (byte.unsigned a) 0) as [->|]; [cbn; lia|].
    apply Z.log2_lt_pow2; lia. }
  assert (Z.log2 (byte.unsigned b) < 8) as Hlb.
  { destruct (Z.eq_dec (byte.unsigned b) 0) as [->|]; [cbn; lia|].
    apply Z.log2_lt_pow2; lia. }
  lia.
Qed.

Lemma xor_byte_involutive (a b : byte) : xor_byte (xor_byte a b) b = a.
Proof.
  unfold xor_byte. rewrite byte.unsigned_of_Z. unfold byte.wrap.
  rewrite (Z.mod_small _ _ (lxor_byte_range a b)).
  rewrite Z.lxor_assoc, Z.lxor_nilpotent, Z.lxor_0_r.
  apply byte.of_Z_unsigned.
Qed.

Lemma xor_pad_length pad data : length (xor_pad pad data) = length data.
Proof. unfold xor_pad. apply length_imap. Qed.

Lemma xor_pad_involutive pad data : xor_pad pad (xor_pad pad data) = data.
Proof.
  unfold xor_pad. apply list_eq. intros i.
  rewrite !list_lookup_imap.
  destruct (data !! i) as [b|]; simpl; [|reflexivity].
  f_equal. apply xor_byte_involutive.
Qed.

Lemma chacha20_xor_length key counter nonce data :
  length (chacha20_xor key counter nonce data) = length data.
Proof. apply xor_pad_length. Qed.

Lemma chacha20_xor_involutive key counter nonce data :
  chacha20_xor key counter nonce (chacha20_xor key counter nonce data) = data.
Proof.
  unfold chacha20_xor. rewrite xor_pad_length. apply xor_pad_involutive.
Qed.

Lemma tag_length key nonce ciphertext ad :
  length (tag key nonce ciphertext ad) = 16%nat.
Proof. unfold tag, poly1305. apply length_le_split. Qed.

Lemma seal_length key nonce plaintext ad :
  length (seal key nonce plaintext ad) = (length plaintext + 16)%nat.
Proof.
  unfold seal. rewrite length_app, chacha20_xor_length, tag_length. reflexivity.
Qed.

Lemma open_seal key nonce plaintext ad :
  open key nonce (seal key nonce plaintext ad) ad = Some plaintext.
Proof.
  unfold open. rewrite seal_length.
  destruct (Nat.ltb_spec (length plaintext + 16) 16) as [Hlt|_]; [lia|].
  replace (length plaintext + 16 - 16)%nat
    with (length (chacha20_xor key 1 nonce plaintext))
    by (rewrite chacha20_xor_length; lia).
  unfold seal. rewrite take_app_length, drop_app_length.
  rewrite decide_True by reflexivity.
  f_equal. apply chacha20_xor_involutive.
Qed.

Lemma open_short key nonce sealed ad :
  (length sealed < 16)%nat -> open key nonce sealed ad = None.
Proof.
  intros Hlt. unfold open.
  destruct (Nat.ltb_spec (length sealed) 16) as [_|Hge]; [reflexivity|lia].
Qed.

End PrimitiveLaws.

(** [chacha20poly1305] as a [cipher.AEAD]. *)
#[global] Instance chacha20poly1305_AEAD : Primitives.AEAD := {|
  Primitives.Seal := ChaCha20Poly1305.seal;
  Primitives.Open := ChaCha20Poly1305.open;
  Primitives.Open_Seal := fun key nonce plaintext ad _ _ => open_seal key nonce plaintext ad;
  Primitives.Seal_length := fun key nonce plaintext ad _ _ => seal_length key nonce plaintext ad;
  Primitives.Open_short := open_short
|}.

(** RFC 7693, appendix B: BLAKE2s-256 of "abc". *)
Example blake2s_abc :
  map byte.unsigned (BLAKE2s.sum256 [] (String.list_byte_of_string "abc"%string)) =
  [0x50; 0x8C; 0x5E; 0x8C; 0x32; 0x7C; 0x14; 0xE2; 0xE1; 0xA7; 0x2B; 0xA3; 0x4E; 0xEB; 0x45; 0x2F;
   0x37; 0x45; 0x8B; 0x20; 0x9E; 0xD6; 0x3A; 0x29; 0x4D; 0x99; 0x9B; 0x4C; 0x86; 0x67; 0x59; 0x82].
Proof. vm_compute. reflexivity. Qed.

(** RFC 8439, section 2.8.2: the tag of the sealed example message. *)
Example chacha20poly1305_rfc8439 :
  let key := map (fun i => byte.of_Z (128 + Z.of_nat i)) (seq 0 32) in
  let nonce := map byte.of_Z [0x07; 0; 0; 0; 0x40; 0x41; 0x42; 0x43; 0x44; 0x45; 0x46; 0x47] in
  let ad := map byte.of_Z [0x50; 0x51; 0x52; 0x53; 0xc0; 0xc1; 0xc2; 0xc3; 0xc4; 0xc5; 0xc6; 0xc7] in
  let plaintext := String.list_byte_of_string
    "Ladies and Gentlemen of the class of '99: If I could offer you only one tip for the future, sunscreen would be it."%string in
  map byte.unsigned (drop 114 (ChaCha20Poly1305.seal key nonce plaintext ad)) =
  [0x1a; 0xe1; 0x0b; 0x59; 0x4f; 0x09; 0xe2; 0x6a; 0x7e; 0x90; 0x2e; 0xcb; 0xd0; 0x60; 0x06; 0x91].
Proof. vm_compute. reflexivity. Qed.

(** ** The transport cipher *)
Section CipherFacts.
Import Wire Primitives VL1.
Context `{!AEAD}.

Lemma New_array32 (k : array 32) :
  chacha20poly1305_New (vec_to_list k) = Ok (vec_to_list k).
Proof.
  unfold chacha20poly1305_New. rewrite decide_True; [reflexivity|].
  apply length_vec_to_list.
Qed.

Lemma nonce_of_length counter : length (nonce_of counter) = NonceSize.
Proof.
  unfold nonce_of, zeros, PutUint64LE.
  rewrite length_app, length_replicate, length_le_split. reflexivity.
Qed.

Lemma Uint64LE_Put (v : Z) (rest : list byte) :
  Uint64LE (PutUint64LE v ++ rest) = wrap64 v.
Proof.
  unfold Uint64LE, PutUint64LE, wrap64.
  rewrite take_app_length' by (symmetry; apply length_le_split).
  rewrite le_combine_split. reflexivity.
Qed.

Lemma wrap64_small z : 0 <= z < 2 ^ 64 -> wrap64 z = z.
Proof. intros Hz. unfold wrap64. apply Z.mod_small. exact Hz. Qed.

Lemma wrap64_range z : 0 <= wrap64 z < 2 ^ 64.
Proof. unfold wrap64. apply Z.mod_pos_bound. lia. Qed.

(** [c.sendNonce.Add(1) - 1] is the value the counter had before. *)
Lemma fetch_counter s : 0 <= s < 2 ^ 64 -> wrap64 (wrap64 (s + 1) - 1) = s.
Proof.
  intros Hs. unfold wrap64.
  destruct (Z.eq_dec s (2 ^ 64 - 1)) as [->|Hne].
  - reflexivity.
  - rewrite (Z.mod_small (s + 1)) by lia.
    replace (s + 1 - 1) with s by lia. apply Z.mod_small. exact Hs.
Qed.

(** What [Encrypt] returns, spelled out. *)
Lemma Encrypt_eq (c : NoiseCipher) (plaintext : list byte) :
  Encrypt c plaintext =
  let counter := wrap64 (wrap64 (sendNonce c + 1) - 1) in
  ({| sendKey := sendKey c; recvKey := recvKey c;
      sendNonce := wrap64 (sendNonce c + 1); recvNonce := recvNonce c |},
   Ok (PutUint64LE counter ++
       Seal (vec_to_list (sendKey c)) (nonce_of counter) plaintext [])).
Proof. unfold Encrypt. rewrite New_array32. reflexivity. Qed.

Lemma Encrypt_wf c plaintext : cipher_wf c -> cipher_wf (Encrypt c plaintext).1.
Proof.
  intros [Hs Hr]. rewrite Encrypt_eq. simpl. split; [apply wrap64_range|exact Hr].
Qed.

Lemma NewNoiseCipher_wf sk rk : cipher_wf (NewNoiseCipher sk rk).
Proof. unfold cipher_wf. simpl. lia. Qed.

(** The counter [Encrypt] takes is the send counter, as a 64-bit word. *)
Lemma fetch_counter_wrap s : wrap64 (wrap64 (s + 1) - 1) = wrap64 s.
Proof.
  unfold wrap64. rewrite Zminus_mod_idemp_l. f_equal. lia.
Qed.

Lemma PutUint64LE_wrap s : PutUint64LE (wrap64 s) = PutUint64LE s.
Proof. unfold PutUint64LE, wrap64. symmetry. apply (le_split_mod s 8). Qed.

(** C10: for a plaintext of [n] bytes [Encrypt] never fails and returns
    exactly [n + 24] bytes: the 8-byte counter, then the ciphertext with
    its 16-byte tag.  The first eight bytes are the send counter in
    little-endian order; the bytes after them are what the AEAD seals
    from the plaintext under the send key and the nonce made of four
    zero bytes and those eight bytes, so that they open to the plaintext
    again. *)
Theorem Encrypt_adds_24_bytes (c : NoiseCipher) (plaintext : list byte) :
  exists out,
    (Encrypt c plaintext).2 = Ok out /\
    length out = (length plaintext + 24)%nat /\
    length (take 8 out) = 8%nat /\
    length (drop 8 out) = (length plaintext + NoiseTagSize)%nat /\
    take 8 out = PutUint64LE (sendNonce c) /\
    Uint64LE out = wrap64 (sendNonce c) /\
    drop 8 out =
      Seal (vec_to_list (sendKey c)) (zeros 4 ++ take 8 out) plaintext [] /\
    Open (vec_to_list (sendKey c)) (zeros 4 ++ take 8 out) (drop 8 out) []
      = Some plaintext.
Proof.
  rewrite Encrypt_eq. cbv zeta. rewrite fetch_counter_wrap.
  eexists. split; [reflexivity|].
  assert (length (Seal (vec_to_list (sendKey c)) (nonce_of (wrap64 (sendNonce c)))
                       plaintext []) = (length plaintext + 16)%nat) as Hseal.
  { apply Seal_length; [apply length_vec_to_list|apply nonce_of_length]. }
  assert (length (PutUint64LE (wrap64 (sendNonce c))) = 8%nat) as Hlen
    by apply length_le_split.
  assert (take 8 (PutUint64LE (wrap64 (sendNonce c)) ++
                  Seal (vec_to_list (sendKey c)) (nonce_of (wrap64 (sendNonce c)))
                    plaintext [])
          = PutUint64LE (wrap64 (sendNonce c))) as Htake.
  { rewrite take_app_length' by exact Hlen. reflexivity. }
  assert (drop 8 (PutUint64LE (wrap64 (sendNonce c)) ++
                  Seal (vec_to_list (sendKey c)) (nonce_of (wrap64 (sendNonce c)))
                    plaintext [])
          = Seal (vec_to_list (sendKey c)) (nonce_of (wrap64 (sendNonce c)))
              plaintext []) as Hdrop.
  { rewrite drop_app_length' by exact Hlen. reflexivity. }
  rewrite Htake, Hdrop, Hseal, length_app, Hlen, Hseal.
  change (zeros 4 ++ PutUint64LE (wrap64 (sendNonce c)))
    with (nonce_of (wrap64 (sendNonce c))).
  split; [lia|]. split; [reflexivity|].
  split; [unfold NoiseTagSize, Overhead; lia|].
  split; [apply PutUint64LE_wrap|].
  split.
  { rewrite Uint64LE_Put. unfold wrap64. apply Z.mod_mod. lia. }
  split; [reflexivity|].
  apply Open_Seal; [apply length_vec_to_list|apply nonce_of_length].
Qed.

(** [Decrypt] on the output of [Encrypt] under the matching key. *)
Lemma Decrypt_Encrypt (a b : NoiseCipher) (m : list byte) :
  cipher_wf a -> sendKey a = recvKey b ->
  exists out, (Encrypt a m).2 = Ok out /\ (Decrypt b out).2 = Ok m.
Proof.
  intros [Hs _] Hkey. rewrite Encrypt_eq. cbv zeta.
  rewrite (fetch_counter _ Hs). eexists. split; [reflexivity|].
  unfold Decrypt.
  assert (length (Seal (vec_to_list (sendKey a)) (nonce_of (sendNonce a)) m [])
          = (length m + 16)%nat) as Hseal.
  { apply Seal_length; [apply length_vec_to_list|apply nonce_of_length]. }
  destruct (Nat.ltb_spec
    (length (PutUint64LE (sendNonce a) ++
             Seal (vec_to_list (sendKey a)) (nonce_of (sendNonce a)) m []))
    (8 + NoiseTagSize)) as [Hlt|_].
  { rewrite length_app, Hseal in Hlt. unfold PutUint64LE in Hlt.
    rewrite length_le_split in Hlt. unfold NoiseTagSize, Overhead in Hlt. lia. }
  rewrite New_array32, Uint64LE_Put, (wrap64_small _ Hs).
  replace (drop 8 (PutUint64LE (sendNonce a) ++
             Seal (vec_to_list (sendKey a)) (nonce_of (sendNonce a)) m []))
    with (Seal (vec_to_list (sendKey a)) (nonce_of (sendNonce a)) m []).
  2:{ symmetry. apply drop_app_length'. symmetry. apply length_le_split. }
  rewrite <- Hkey.
  rewrite Open_Seal by (apply length_vec_to_list || apply nonce_of_length).
  reflexivity.
Qed.

(** [Decrypt] succeeds exactly when the AEAD opens the bytes after the
    counter under the nonce rebuilt from it: the counter value and the
    high-water-mark play no part. *)
Lemma Decrypt_succeeds_iff (c : NoiseCipher) (data plaintext : list byte) :
  (Decrypt c data).2 = Ok plaintext <->
  Open (vec_to_list (recvKey c)) (nonce_of (Uint64LE data)) (drop 8 data) []
    = Some plaintext.
Proof.
  unfold Decrypt.
  destruct (Nat.ltb_spec (length data) (8 + NoiseTagSize)) as [Hlt|Hge].
  - rewrite Open_short.
    + simpl. split; discriminate.
    + rewrite length_drop. unfold NoiseTagSize, Overhead in *. lia.
  - rewrite New_array32.
    destruct (Open _ _ _ _) as [p|]; simpl; split; congruence.
Qed.

(** The high-water-mark after a successful [Decrypt] of a counter below
    the largest 64-bit value. *)
Lemma Decrypt_mark (c : NoiseCipher) (data plaintext : list byte) :
  cipher_wf c ->
  (Decrypt c data).2 = Ok plaintext ->
  Uint64LE data < 2 ^ 64 - 1 ->
  recvNonce (Decrypt c data).1 = Z.max (recvNonce c) (Uint64LE data + 1).
Proof.
  intros [_ Hr] Hok Hc. revert Hok. unfold Decrypt.
  destruct (Nat.ltb_spec (length data) (8 + NoiseTagSize)) as [Hlt|Hge];
    [simpl; discriminate|].
  rewrite New_array32.
  destruct (Open _ _ _ _) as [p|]; simpl; [intros _|discriminate].
  assert (0 <= Uint64LE data) as Hc0.
  { unfold Uint64LE.
    rewrite <- (split_le_combine (take 8 data)), le_combine_split.
    apply Z.mod_pos_bound. apply Z.pow_pos_nonneg; lia. }
  destruct (Z.leb_spec (recvNonce c) (Uint64LE data)).
  - rewrite wrap64_small by lia. lia.
  - lia.
Qed.

(** The counters embedded by a run of [Encrypt] calls: call number [i]
    carries the start value plus [i], reduced modulo [2 ^ 64]. *)
Lemma encrypt_all_counters (msgs : list (list byte)) : forall c : NoiseCipher,
  cipher_wf c ->
  map embedded_counter (encrypt_all c msgs).2 =
  map (fun i => Some (wrap64 (sendNonce c + Z.of_nat i))) (seq 0 (length msgs)).
Proof.
  induction msgs as [|m rest IH]; intros c Hwf; [reflexivity|].
  pose proof (Encrypt_wf c m Hwf) as Hwf1.
  specialize (IH (Encrypt c m).1 Hwf1). revert IH.
  cbn [encrypt_all]. rewrite Encrypt_eq. cbv zeta. cbv beta iota.
  destruct (encrypt_all _ rest) as [c2 rs]. cbn [fst snd]. intros IH.
  cbn [map length seq embedded_counter]. f_equal.
  - destruct Hwf as [Hs _].
    rewrite Uint64LE_Put, (fetch_counter _ Hs), Z.add_0_r.
    rewrite !wrap64_small by lia. reflexivity.
  - rewrite IH, <- seq_shift, map_map.
    apply map_ext. intros i. f_equal. cbn [sendNonce]. unfold wrap64.
    rewrite Zplus_mod_idemp_l. f_equal. lia.
Qed.

(** C6, as the code has it: on a freshly created cipher, a run of at most
    [2 ^ 64] calls of [Encrypt] embeds the counters 0, 1, 2, ... in this
    order, so they are strictly increasing and none is used twice. *)
Theorem Encrypt_counters_count_up (sk rk : array 32) (msgs : list (list byte)) :
  Z.of_nat (length msgs) <= 2 ^ 64 ->
  map embedded_counter (encrypt_all (NewNoiseCipher sk rk) msgs).2 =
  map (fun i => Some (Z.of_nat i)) (seq 0 (length msgs)).
Proof.
  intros Hlen.
  rewrite (encrypt_all_counters msgs _ (NewNoiseCipher_wf sk rk)).
  apply map_ext_in. intros i Hi. apply in_seq in Hi.
  cbn [NewNoiseCipher sendNonce]. rewrite Z.add_0_l.
  rewrite wrap64_small by lia. reflexivity.
Qed.

(** A run of [S n] calls on a fresh cipher: the counter of the first one. *)
Lemma encrypt_all_first_counter (sk rk : array 32) (n : nat) :
  map embedded_counter
      (encrypt_all (NewNoiseCipher sk rk) (replicate (S n) [])).2 !! 0%nat
  = Some (Some 0).
Proof.
  rewrite (encrypt_all_counters _ _ (NewNoiseCipher_wf sk rk)).
  rewrite length_replicate. reflexivity.
Qed.

(** A run of [S n] calls on a fresh cipher: the counter of the last one. *)
Lemma encrypt_all_last_counter (sk rk : array 32) (n : nat) :
  map embedded_counter
      (encrypt_all (NewNoiseCipher sk rk) (replicate (S n) [])).2 !! n
  = Some (Some (wrap64 (Z.of_nat n))).
Proof.
  rewrite (encrypt_all_counters _ _ (NewNoiseCipher_wf sk rk)).
  rewrite length_replicate, list_lookup_fmap.
  rewrite lookup_seq_lt by lia. reflexivity.
Qed.

End CipherFacts.

(** ** Key derivation *)
Section KeyFacts.
Import Wire Primitives VL1.
Context `{!Blake2s}.

Lemma byte_ltb_irrefl a : byte_ltb a a = false.
Proof. unfold byte_ltb. apply Z.ltb_irrefl. Qed.

Lemma byte_ltb_total a b : byte_ltb a b = false -> byte_ltb b a = false -> a = b.
Proof.
  unfold byte_ltb. intros H1 H2.
  apply Z.ltb_ge in H1. apply Z.ltb_ge in H2.
  apply byte.unsigned_inj. lia.
Qed.

Lemma byte_ltb_asym a b : byte_ltb a b = true -> byte_ltb b a = false.
Proof.
  unfold byte_ltb. intros H1. apply Z.ltb_lt in H1. apply Z.ltb_ge. lia.
Qed.

(** Of two distinct keys of the same length exactly one is the smaller. *)
Lemma localIsSmaller_swap (l : list byte) : forall r : list byte,
  length l = length r -> l <> r ->
  localIsSmaller r l = negb (localIsSmaller l r).
Proof.
  induction l as [|a l IH]; intros [|b r] Hlen Hne; try discriminate.
  - congruence.
  - cbn [localIsSmaller].
    destruct (byte_ltb a b) eqn:Hab.
    + rewrite (byte_ltb_asym _ _ Hab). reflexivity.
    + destruct (byte_ltb b a) eqn:Hba; [reflexivity|].
      pose proof (byte_ltb_total _ _ Hab Hba) as ->.
      apply IH; [simpl in Hlen; lia|congruence].
Qed.

Lemma DeriveKeysFromPSK_swap (psk pubA pubB : array 32) :
  pubA <> pubB ->
  DeriveKeysFromPSK psk pubB pubA =
  ((DeriveKeysFromPSK psk pubA pubB).2, (DeriveKeysFromPSK psk pubA pubB).1).
Proof.
  intros Hne. unfold DeriveKeysFromPSK.
  rewrite (localIsSmaller_swap (vec_to_list pubA) (vec_to_list pubB)).
  - destruct (localIsSmaller (vec_to_list pubA) (vec_to_list pubB));
      reflexivity.
  - rewrite !length_vec_to_list. reflexivity.
  - intros Heq. apply Hne. apply vec_to_list_inj2. exact Heq.
Qed.

(** C4: the two sides of a link, each deriving its keys from the shared
    PSK with its own public key first, obtain mirrored keys: what one
    sends with the other receives with. *)
Theorem DeriveKeysFromPSK_mirrored (psk pubA pubB : array 32) :
  pubA <> pubB ->
  (DeriveKeysFromPSK psk pubA pubB).1 = (DeriveKeysFromPSK psk pubB pubA).2 /\
  (DeriveKeysFromPSK psk pubA pubB).2 = (DeriveKeysFromPSK psk pubB pubA).1.
Proof.
  intros Hne. rewrite (DeriveKeysFromPSK_swap psk pubA pubB Hne).
  split; reflexivity.
Qed.

Lemma derive_cipher_keys (psk l r : array 32) :
  sendKey (derive_cipher psk l r) = (DeriveKeysFromPSK psk l r).1 /\
  recvKey (derive_cipher psk l r) = (DeriveKeysFromPSK psk l r).2 /\
  sendNonce (derive_cipher psk l r) = 0 /\
  recvNonce (derive_cipher psk l r) = 0.
Proof.
  unfold derive_cipher. destruct (DeriveKeysFromPSK psk l r) as [sk rk].
  repeat split.
Qed.

Context `{!AEAD}.

(** C5: what peer A encrypts with the cipher it derived, peer B decrypts
    to the same plaintext with the cipher it derived on its own. *)
Theorem Decrypt_Encrypt_derived (psk pubA pubB : array 32) (m : list byte) :
  pubA <> pubB ->
  exists out,
    (Encrypt (derive_cipher psk pubA pubB) m).2 = Ok out /\
    (Decrypt (derive_cipher psk pubB pubA) out).2 = Ok m.
Proof.
  intros Hne. apply Decrypt_Encrypt.
  - destruct (derive_cipher_keys psk pubA pubB) as (_ & _ & Hs & Hr).
    unfold cipher_wf. rewrite Hs, Hr. lia.
  - destruct (derive_cipher_keys psk pubA pubB) as (Hs & _).
    destruct (derive_cipher_keys psk pubB pubA) as (_ & Hr & _).
    rewrite Hs, Hr, (DeriveKeysFromPSK_swap psk pubA pubB Hne). reflexivity.
Qed.

End KeyFacts.

(** ** The receive high-water-mark at the top of the counter range *)
Section ReplayMark.
Import Wire Primitives VL1.
Context `{!AEAD}.

(** C7, where the code departs from it: a datagram whose counter is
    [2 ^ 64 - 1] and whose tag verifies is accepted, but [counter + 1]
    wraps, so the high-water-mark drops from 5 to 0 instead of becoming
    the maximum of the old mark and [counter + 1]. *)
Theorem Decrypt_mark_wraps (sk rk : array 32) (m : list byte) :
  let c := {| sendKey := sk; recvKey := rk; sendNonce := 0; recvNonce := 5 |} in
  let top := 2 ^ 64 - 1 in
  let data := PutUint64LE top ++ Seal (vec_to_list rk) (nonce_of top) m [] in
  Decrypt c data =
    ({| sendKey := sk; recvKey := rk; sendNonce := 0; recvNonce := 0 |}, Ok m) /\
  Z.max (recvNonce c) (top + 1) = 2 ^ 64 /\
  Z.max (recvNonce c) (wrap64 (top + 1)) = 5.
Proof.
  cbv zeta. split; [|split; reflexivity].
  unfold Decrypt.
  assert (length (Seal (vec_to_list rk) (nonce_of (2 ^ 64 - 1)) m [])
          = (length m + 16)%nat) as Hseal.
  { apply Seal_length; [apply length_vec_to_list|apply nonce_of_length]. }
  destruct (Nat.ltb_spec
    (length (PutUint64LE (2 ^ 64 - 1) ++
             Seal (vec_to_list rk) (nonce_of (2 ^ 64 - 1)) m []))
    (8 + NoiseTagSize)) as [Hlt|_].
  { rewrite length_app, Hseal in Hlt. unfold PutUint64LE in Hlt.
    rewrite length_le_split in Hlt. unfold NoiseTagSize, Overhead in Hlt. lia. }
  cbn [recvKey sendKey sendNonce recvNonce].
  rewrite New_array32, Uint64LE_Put.
  replace (wrap64 (2 ^ 64 - 1)) with (2 ^ 64 - 1) by reflexivity.
  replace (drop 8 (PutUint64LE (2 ^ 64 - 1) ++
             Seal (vec_to_list rk) (nonce_of (2 ^ 64 - 1)) m []))
    with (Seal (vec_to_list rk) (nonce_of (2 ^ 64 - 1)) m []).
  2:{ symmetry. apply drop_app_length'. symmetry. apply length_le_split. }
  rewrite Open_Seal by (apply length_vec_to_list || apply nonce_of_length).
  reflexivity.
Qed.

End ReplayMark.

(** ** Concrete runs of the cipher *)

Lemma pubA0_neq_pubB0 : pubA0 <> pubB0.
Proof. intros H. apply (f_equal vec_to_list) in H. vm_compute in H. discriminate H. Qed.

Lemma DeriveKeysFromPSK_mirrored_run :
  pubA0 <> pubB0 /\
  (VL1.DeriveKeysFromPSK psk0 pubA0 pubB0).1 = (VL1.DeriveKeysFromPSK psk0 pubB0 pubA0).2 /\
  (VL1.DeriveKeysFromPSK psk0 pubA0 pubB0).2 = (VL1.DeriveKeysFromPSK psk0 pubB0 pubA0).1.
Proof.
  split; [exact pubA0_neq_pubB0|].
  apply (DeriveKeysFromPSK_mirrored psk0 pubA0 pubB0). exact pubA0_neq_pubB0.
Defined.

Lemma Decrypt_Encrypt_derived_run :
  pubA0 <> pubB0 /\
  exists out,
    (VL1.Encrypt (VL1.derive_cipher psk0 pubA0 pubB0) [Byte.x68; Byte.x69]).2 = Ok out /\
    (VL1.Decrypt (VL1.derive_cipher psk0 pubB0 pubA0) out).2 = Ok [Byte.x68; Byte.x69].
Proof.
  split; [exact pubA0_neq_pubB0|].
  apply (Decrypt_Encrypt_derived psk0 pubA0 pubB0 [Byte.x68; Byte.x69]).
  exact pubA0_neq_pubB0.
Defined.

Lemma Encrypt_counters_count_up_run :
  Z.of_nat (length [[Byte.x61]; []; [Byte.x62; Byte.x63]]) <= 2 ^ 64 /\
  map VL1.embedded_counter
      (VL1.encrypt_all (VL1.NewNoiseCipher psk0 psk0)
                       [[Byte.x61]; []; [Byte.x62; Byte.x63]]).2 =
  map (fun i => Some (Z.of_nat i)) (seq 0 3).
Proof.
  split; [vm_compute; discriminate|].
  apply (Encrypt_counters_count_up psk0 psk0 [[Byte.x61]; []; [Byte.x62; Byte.x63]]).
  vm_compute. discriminate.
Defined.

(** C6 as stated fails on the longest runs: on a fresh cipher the call
    after [2 ^ 64] others embeds the counter 0 again, the counter of the
    very first call. *)
Lemma Encrypt_counter_reused :
  map VL1.embedded_counter
      (VL1.encrypt_all (VL1.NewNoiseCipher psk0 psk0)
                       (replicate (S (Z.to_nat (2 ^ 64))) [])).2 !! 0%nat
    = Some (Some 0) /\
  map VL1.embedded_counter
      (VL1.encrypt_all (VL1.NewNoiseCipher psk0 psk0)
                       (replicate (S (Z.to_nat (2 ^ 64))) [])).2 !! Z.to_nat (2 ^ 64)
    = Some (Some 0).
Proof.
  split.
  - apply encrypt_all_first_counter.
  - rewrite encrypt_all_last_counter. rewrite Z2Nat.id by lia. reflexivity.
Qed.

(** ** The peer table *)
Section PeerFacts.
Import Wire Primitives VL1.

(** What [AddPeer] does to an address that is already in the table. *)
Lemma AddPeer_present (pm : PeerManager) (addr : Identity.Address)
  (pubKey : array 32) (endpoint : option UDPAddr) (p : Peer) :
  peers pm !! addr = Some p ->
  AddPeer pm addr pubKey endpoint =
  match endpoint with
  | Some e => ({| peers := <[addr := set_Endpoint p (Some e)]> (peers pm) |},
               set_Endpoint p (Some e))
  | None => (pm, p)
  end.
Proof. intros Hp. unfold AddPeer. rewrite Hp. reflexivity. Qed.

(** [AddPeer] never changes the key stored under an address in use,
    whichever address it is called on. *)
Lemma AddPeer_key_stable (pm : PeerManager) (addr other : Identity.Address)
  (pubKey : array 32) (endpoint : option UDPAddr) (p : Peer) :
  peers pm !! other = Some p ->
  exists p', peers (AddPeer pm addr pubKey endpoint).1 !! other = Some p' /\
             PublicKey p' = PublicKey p.
Proof.
  intros Hp. destruct (decide (addr = other)) as [->|Hne].
  - rewrite (AddPeer_present _ _ _ _ _ Hp). destruct endpoint as [e|]; cbn.
    + rewrite lookup_insert_eq. eexists. split; reflexivity.
    + eauto.
  - unfold AddPeer. destruct (peers pm !! addr) as [q|] eqn:Hq.
    + destruct endpoint as [e|]; cbn; [rewrite lookup_insert_ne by exact Hne|]; eauto.
    + cbn. rewrite lookup_insert_ne by exact Hne. eauto.
Qed.

Lemma AddPeer_all_key_stable calls : forall (pm : PeerManager)
  (addr : Identity.Address) (p : Peer),
  peers pm !! addr = Some p ->
  exists p', peers (AddPeer_all pm calls) !! addr = Some p' /\
             PublicKey p' = PublicKey p.
Proof.
  induction calls as [|[[a k] e] rest IH]; intros pm addr p Hp; cbn [AddPeer_all].
  - eauto.
  - destruct (AddPeer_key_stable pm a addr k e p Hp) as (p1 & Hp1 & Hk1).
    destruct (IH _ addr p1 Hp1) as (p2 & Hp2 & Hk2).
    exists p2. split; [exact Hp2|congruence].
Qed.

(** C9: for an address already in the table [AddPeer] keeps the stored
    public key whatever key it is called with; it hands out the stored
    peer, changes its endpoint only, and only to a non-nil endpoint, and
    leaves every other entry alone.  Hence no run of [AddPeer] calls
    changes the key of an entry. *)
Theorem AddPeer_keeps_public_key (pm : PeerManager) (addr : Identity.Address)
  (pubKey : array 32) (endpoint : option UDPAddr) (p : Peer) :
  peers pm !! addr = Some p ->
  let pm' := (AddPeer pm addr pubKey endpoint).1 in
  let p' := (AddPeer pm addr pubKey endpoint).2 in
  peers pm' !! addr = Some p' /\
  PublicKey p' = PublicKey p /\
  Endpoint p' = match endpoint with Some e => Some e | None => Endpoint p end /\
  p' = set_Endpoint p (Endpoint p') /\
  (forall other, other <> addr -> peers pm' !! other = peers pm !! other) /\
  (forall calls, exists q,
      peers (AddPeer_all pm calls) !! addr = Some q /\ PublicKey q = PublicKey p).
Proof.
  intros Hp. cbv zeta. rewrite (AddPeer_present _ _ _ _ _ Hp).
  destruct endpoint as [e|]; cbn [fst snd peers].
  - rewrite lookup_insert_eq. repeat split.
    + intros other Hne. apply lookup_insert_ne. congruence.
    + intros calls. apply AddPeer_all_key_stable. exact Hp.
  - repeat split.
    + exact Hp.
    + destruct p; reflexivity.
    + intros calls. apply AddPeer_all_key_stable. exact Hp.
Qed.

End PeerFacts.

(** ** The hello handler *)
Section HandshakeFacts.
Import Wire Primitives VL1 Node.
Context `{!Blake2s}.

Lemma IsConnected_Touch_set_Endpoint (p : Peer) (e : option UDPAddr) (t : Z) :
  IsConnected (Touch (set_Endpoint p e) t) = IsConnected p.
Proof. reflexivity. Qed.

(** A hello whose key hashes to the address of a peer already in the
    table: the peer written back under that address. *)
Lemma handleHandshake_known (a : Agent) (payload : list byte) (from : UDPAddr)
  (t1 t2 : Z) (sent : bool) (p : Peer) :
  (32 <= length payload)%nat ->
  let remotePubKey := copy_into 32 (slice 0 32 payload) in
  let remoteAddr := Identity.AddressFromPublicKey (vec_to_list remotePubKey) in
  GetPeer (agent_peers a) remoteAddr = Some p ->
  handleHandshake a payload from t1 t2 sent =
  (store_peer a remoteAddr
     (if IsConnected p
      then Touch (set_Endpoint p (Some from)) t1
      else SetCipher (Touch (set_Endpoint p (Some from)) t1)
             (derive_cipher (config_PSK a) (identity_PublicKey a) remotePubKey) t2),
   []).
Proof.
  intros Hlen remotePubKey remoteAddr Hp. unfold handleHandshake.
  destruct (Nat.ltb_spec (length payload) 32) as [Hlt|_]; [lia|].
  fold remotePubKey. fold remoteAddr. rewrite Hp.
  rewrite IsConnected_Touch_set_Endpoint.
  destruct (IsConnected p); reflexivity.
Qed.

(** C2, as the code has it: a hello whose key hashes to the address of a
    peer already in the table, be the key the recorded one or not, leaves
    the recorded public key alone and sends nothing, but rebinds the
    endpoint to the source of the datagram; the cipher is kept when the
    peer is connected and built from the key of the hello when it is
    not. *)
Theorem handleHandshake_rebinds_endpoint (a : Agent) (payload : list byte)
  (from : UDPAddr) (t1 t2 : Z) (sent : bool) (p : Peer) :
  (32 <= length payload)%nat ->
  let remotePubKey := copy_into 32 (slice 0 32 payload) in
  let remoteAddr := Identity.AddressFromPublicKey (vec_to_list remotePubKey) in
  GetPeer (agent_peers a) remoteAddr = Some p ->
  exists p',
    GetPeer (agent_peers (handleHandshake a payload from t1 t2 sent).1) remoteAddr
      = Some p' /\
    (handleHandshake a payload from t1 t2 sent).2 = [] /\
    PublicKey p' = PublicKey p /\
    Endpoint p' = Some from /\
    (IsConnected p = true -> cipher p' = cipher p) /\
    (IsConnected p = false ->
       cipher p' = Some (derive_cipher (config_PSK a) (identity_PublicKey a)
                                       remotePubKey)).
Proof.
  intros Hlen remotePubKey remoteAddr Hp.
  rewrite (handleHandshake_known a payload from t1 t2 sent p Hlen Hp).
  fold remotePubKey. fold remoteAddr.
  eexists. split.
  - unfold GetPeer, store_peer. cbn [fst agent_peers peers].
    apply lookup_insert_eq.
  - destruct (IsConnected p); repeat split; try reflexivity; discriminate.
Qed.

End HandshakeFacts.

(** ** Concrete runs of the hello handler and of the peer table *)

Lemma pubK1_neq_pubK2 : pubK1 <> pubK2.
Proof. intros H. apply (f_equal vec_to_list) in H. vm_compute in H. discriminate H. Qed.

Lemma address_collision :
  Identity.AddressFromPublicKey (vec_to_list pubK1) = addrK /\
  Identity.AddressFromPublicKey (vec_to_list pubK2) = addrK.
Proof. split; vm_compute; reflexivity. Qed.

(** C2 as stated fails: the peer recorded with [pubK1] at [endpoint1] is
    connected; the hello with the other key [pubK2], whose address
    collides, moves its endpoint to [endpoint2]. *)
Lemma handleHandshake_collision_moves_endpoint :
  pubK1 <> pubK2 /\
  Identity.AddressFromPublicKey (vec_to_list pubK2) = addrK /\
  VL1.PublicKey <$> VL1.GetPeer (Node.agent_peers agent1) addrK = Some pubK1 /\
  VL1.IsConnected <$> VL1.GetPeer (Node.agent_peers agent1) addrK = Some true /\
  VL1.Endpoint <$> VL1.GetPeer (Node.agent_peers agent1) addrK = Some (Some endpoint1) /\
  VL1.Endpoint <$> VL1.GetPeer (Node.agent_peers agent2) addrK = Some (Some endpoint2) /\
  endpoint1 <> endpoint2.
Proof.
  split; [exact pubK1_neq_pubK2|].
  split; [apply address_collision|].
  split; [vm_compute; reflexivity|].
  split; [vm_compute; reflexivity|].
  split; [vm_compute; reflexivity|].
  split; [vm_compute; reflexivity|].
  intros H. vm_compute in H. discriminate H.
Qed.

Lemma agent1_peer : VL1.GetPeer (Node.agent_peers agent1) addrK = Some peer1.
Proof. vm_compute. reflexivity. Qed.

Lemma handleHandshake_rebinds_endpoint_run :
  (32 <= length (vec_to_list pubK2))%nat /\
  VL1.GetPeer (Node.agent_peers agent1)
    (Identity.AddressFromPublicKey
       (vec_to_list (Wire.copy_into 32 (Wire.slice 0 32 (vec_to_list pubK2)))))
    = Some peer1 /\
  exists p',
    VL1.GetPeer
      (Node.agent_peers
         (Node.handleHandshake agent1 (vec_to_list pubK2) endpoint2 200 201 true).1)
      (Identity.AddressFromPublicKey
         (vec_to_list (Wire.copy_into 32 (Wire.slice 0 32 (vec_to_list pubK2)))))
      = Some p' /\
    (Node.handleHandshake agent1 (vec_to_list pubK2) endpoint2 200 201 true).2 = [] /\
    VL1.PublicKey p' = VL1.PublicKey peer1 /\
    VL1.Endpoint p' = Some endpoint2 /\
    (VL1.IsConnected peer1 = true -> VL1.cipher p' = VL1.cipher peer1) /\
    (VL1.IsConnected peer1 = false ->
       VL1.cipher p' =
       Some (VL1.derive_cipher (Node.config_PSK agent1) (Node.identity_PublicKey agent1)
               (Wire.copy_into 32 (Wire.slice 0 32 (vec_to_list pubK2))))).
Proof.
  assert (32 <= length (vec_to_list pubK2))%nat as Hlen
    by (rewrite length_vec_to_list; lia).
  assert (VL1.GetPeer (Node.agent_peers agent1)
            (Identity.AddressFromPublicKey
               (vec_to_list (Wire.copy_into 32 (Wire.slice 0 32 (vec_to_list pubK2)))))
          = Some peer1) as Hp by (vm_compute; reflexivity).
  split; [exact Hlen|]. split; [exact Hp|].
  exact (handleHandshake_rebinds_endpoint agent1 (vec_to_list pubK2) endpoint2
           200 201 true peer1 Hlen Hp).
Defined.

Lemma AddPeer_keeps_public_key_run :
  let pm := Node.agent_peers agent1 in
  let pm' := (VL1.AddPeer pm addrK pubK2 (Some endpoint2)).1 in
  let p' := (VL1.AddPeer pm addrK pubK2 (Some endpoint2)).2 in
  VL1.peers pm !! addrK = Some peer1 /\
  VL1.peers pm' !! addrK = Some p' /\
  VL1.PublicKey p' = VL1.PublicKey peer1 /\
  VL1.Endpoint p' = Some endpoint2 /\
  p' = VL1.set_Endpoint peer1 (VL1.Endpoint p') /\
  (forall other, other <> addrK -> VL1.peers pm' !! other = VL1.peers pm !! other) /\
  (forall calls, exists q,
      VL1.peers (VL1.AddPeer_all pm calls) !! addrK = Some q /\
      VL1.PublicKey q = VL1.PublicKey peer1).
Proof.
  intros pm pm' p'.
  assert (VL1.peers pm !! addrK = Some peer1) as Hp by (vm_compute; reflexivity).
  split; [exact Hp|].
  exact (AddPeer_keeps_public_key pm addrK pubK2 (Some endpoint2) peer1 Hp).
Defined.

(** ** The learning switch *)
Section SwitchFacts.
Import Wire VL2.

(** What the loop of [evictOldest] has found after visiting [seen]. *)
Definition scan_found (seen : list (MACKey * MACEntry)) (s : scan) : Prop :=
  if first s then seen = []
  else exists e, (oldestKey s, e) ∈ seen /\ LastSeen e = oldestTime s /\
                 forall kv, kv ∈ seen -> oldestTime s <= LastSeen kv.2.

Lemma scan_step_found seen s kv :
  scan_found seen s -> scan_found (seen ++ [kv]) (scan_step s kv).
Proof.
  unfold scan_found, scan_step. destruct (first s) eqn:Hf; cbn [orb].
  - intros ->. cbn [first oldestKey oldestTime]. exists kv.2.
    split; [destruct kv; cbn; set_solver|]. split; [reflexivity|].
    intros kv' Hin. apply list_elem_of_singleton in Hin. subst kv'. lia.
  - intros (e & He & Ht & Hmin).
    destruct (Z.ltb_spec (LastSeen kv.2) (oldestTime s)) as [Hlt|Hge].
    + cbn [first oldestKey oldestTime]. exists kv.2.
      split; [destruct kv; cbn; set_solver|]. split; [reflexivity|].
      intros kv' Hin. apply elem_of_app in Hin as [Hin|Hin].
      * specialize (Hmin kv' Hin). lia.
      * apply list_elem_of_singleton in Hin. subst kv'. lia.
    + rewrite Hf. exists e. split; [set_solver|]. split; [exact Ht|].
      intros kv' Hin. apply elem_of_app in Hin as [Hin|Hin].
      * exact (Hmin kv' Hin).
      * apply list_elem_of_singleton in Hin. subst kv'. lia.
Qed.

Lemma scan_fold_found order : forall seen s,
  scan_found seen s -> scan_found (seen ++ order) (foldl scan_step s order).
Proof.
  induction order as [|kv order IH]; intros seen s Hs; cbn [foldl].
  - rewrite app_nil_r. exact Hs.
  - replace (seen ++ kv :: order) with ((seen ++ [kv]) ++ order)
      by (rewrite <- app_assoc; reflexivity).
    apply IH. apply scan_step_found. exact Hs.
Qed.

(** On a table that is not empty [evictOldest] deletes one entry, and no
    entry of the table was seen earlier than the deleted one; whether the
    entry is local plays no part. *)
Lemma evictOldest_spec order (tbl : gmap MACKey MACEntry) :
  visits order tbl -> tbl <> ∅ ->
  exists k e, tbl !! k = Some e /\
    (forall k' e', tbl !! k' = Some e' -> LastSeen e <= LastSeen e') /\
    evictOldest order tbl = delete k tbl.
Proof.
  intros Hvis Hne. unfold evictOldest.
  pose proof (scan_fold_found order [] scan_init eq_refl) as Hfound.
  rewrite app_nil_l in Hfound. unfold scan_found in Hfound.
  destruct (first (foldl scan_step scan_init order)) eqn:Hf; cbn [negb].
  - exfalso. apply Hne. apply map_to_list_empty_iff.
    unfold visits in Hvis. rewrite Hfound in Hvis.
    symmetry in Hvis. apply Permutation_nil_r in Hvis. exact Hvis.
  - destruct Hfound as (e & He & Ht & Hmin).
    exists (oldestKey (foldl scan_step scan_init order)), e.
    unfold visits in Hvis. split; [|split; [|reflexivity]].
    + apply elem_of_map_to_list. rewrite <- Hvis. exact He.
    + intros k' e' Hk'. rewrite Ht.
      apply (Hmin (k', e')). rewrite Hvis. apply elem_of_map_to_list. exact Hk'.
Qed.

Lemma evictOldest_lookup order (tbl : gmap MACKey MACEntry) k e :
  evictOldest order tbl !! k = Some e -> tbl !! k = Some e.
Proof.
  unfold evictOldest. destruct (negb _); [|tauto].
  intros H. apply lookup_delete_Some in H. tauto.
Qed.

(** [learn] always files the source under its key. *)
Lemma learn_lookup order sw mac peerAddr isLocal now :
  macTable (learn order sw mac peerAddr isLocal now) !! MACToKey mac =
  Some {| PeerAddr := peerAddr; LastSeen := now; IsLocal := isLocal |}.
Proof. unfold learn. cbn [macTable]. apply lookup_insert_eq. Qed.

Lemma learn_other order sw mac peerAddr isLocal now k e :
  k <> MACToKey mac ->
  macTable (learn order sw mac peerAddr isLocal now) !! k = Some e ->
  macTable sw !! k = Some e.
Proof.
  intros Hne. unfold learn. cbn [macTable].
  rewrite lookup_insert_ne by congruence.
  destruct (_ <=? _)%nat; [apply evictOldest_lookup|tauto].
Qed.

Lemma HandleRemoteFrame_switch order sw peerAddr frame now parsed :
  ParseEthernetFrame frame = Ok parsed ->
  (HandleRemoteFrame order sw peerAddr frame now).1.1 =
  learn order sw (SrcMAC parsed) peerAddr false now.
Proof.
  intros Hparse. unfold HandleRemoteFrame. rewrite Hparse.
  destruct (_ || _); [reflexivity|].
  destruct (_ !! _) as [entry|]; [|reflexivity].
  destruct (IsLocal entry); reflexivity.
Qed.

Lemma ParseEthernetFrame_ok frame :
  (14 <= length frame)%nat ->
  ParseEthernetFrame frame =
  Ok {| DstMAC := slice 0 6 frame; SrcMAC := slice 6 12 frame;
        EtherType := Uint16BE (slice 12 14 frame);
        Payload := drop EthernetHeaderSize frame; Raw := frame |}.
Proof.
  intros Hlen. unfold ParseEthernetFrame.
  destruct (Nat.ltb_spec (length frame) MinFrameSize) as [Hlt|_]; [|reflexivity].
  unfold MinFrameSize, EthernetHeaderSize in Hlt. lia.
Qed.

(** C1, as the code has it: [learn] has no guard for local entries.  After
    a frame of a remote peer the table maps the source MAC of the frame to
    that peer, as a remote entry, whatever it held before; the frame adds
    no local entry, so local entries come from the tap side only. *)
Theorem HandleRemoteFrame_learns_remote order (sw : Switch)
  (peerAddr : Identity.Address) (frame : list byte) (now : Z) :
  (14 <= length frame)%nat ->
  let sw' := (HandleRemoteFrame order sw peerAddr frame now).1.1 in
  macTable sw' !! MACToKey (slice 6 12 frame) =
    Some {| PeerAddr := peerAddr; LastSeen := now; IsLocal := false |} /\
  (forall k e, macTable sw' !! k = Some e -> IsLocal e = true ->
               macTable sw !! k = Some e).
Proof.
  intros Hlen. cbv zeta.
  rewrite (HandleRemoteFrame_switch _ _ _ _ _ _ (ParseEthernetFrame_ok frame Hlen)).
  cbn [SrcMAC]. split; [apply learn_lookup|].
  intros k e Hk Hloc.
  destruct (decide (k = MACToKey (slice 6 12 frame))) as [->|Hne].
  - rewrite learn_lookup in Hk. injection Hk as <-. discriminate Hloc.
  - exact (learn_other _ _ _ _ _ _ _ _ Hne Hk).
Qed.

(** C3, as the code has it: on a table at capacity [learn] first deletes
    exactly one entry, one with the oldest last-seen time among all
    entries, local ones included, and then files the new entry. *)
Theorem learn_at_capacity order (sw : Switch) (mac : list byte)
  (peerAddr : Identity.Address) (isLocal : bool) (now : Z) :
  visits order (macTable sw) ->
  (MACTableMaxSize <= size (macTable sw))%nat ->
  exists k e,
    macTable sw !! k = Some e /\
    (forall k' e', macTable sw !! k' = Some e' -> LastSeen e <= LastSeen e') /\
    macTable (learn order sw mac peerAddr isLocal now) =
      <[MACToKey mac := {| PeerAddr := peerAddr; LastSeen := now;
                           IsLocal := isLocal |}]> (delete k (macTable sw)).
Proof.
  intros Hvis Hfull.
  assert (macTable sw <> ∅) as Hne.
  { intros Hempty. rewrite Hempty, map_size_empty in Hfull.
    unfold MACTableMaxSize in Hfull. lia. }
  destruct (evictOldest_spec order (macTable sw) Hvis Hne) as (k & e & Hk & Hmin & Hev).
  exists k, e. split; [exact Hk|]. split; [exact Hmin|].
  unfold learn. cbn [macTable].
  destruct (Nat.leb_spec MACTableMaxSize (size (macTable sw))) as [_|Hlt]; [|lia].
  rewrite Hev. reflexivity.
Qed.

End SwitchFacts.

(** ** Concrete runs of the switch *)

(** C1 as stated fails: the MAC learned as local from the tap is mapped to
    the remote peer after a frame with this source MAC from that peer. *)
Lemma local_entry_replaced_by_remote :
  VL2.macTable switch1 !! VL2.MACToKey mac_local =
    Some {| VL2.PeerAddr := Identity.zeroAddress; VL2.LastSeen := 1000;
            VL2.IsLocal := true |} /\
  VL2.macTable switch2 !! VL2.MACToKey mac_local =
    Some {| VL2.PeerAddr := addrK; VL2.LastSeen := 2000; VL2.IsLocal := false |}.
Proof. split; vm_compute; reflexivity. Qed.

Lemma HandleRemoteFrame_learns_remote_run :
  (14 <= length (frame_from mac_local))%nat /\
  VL2.macTable
    (VL2.HandleRemoteFrame (map_to_list (VL2.macTable switch1)) switch1 addrK
       (frame_from mac_local) 2000).1.1
    !! VL2.MACToKey (Wire.slice 6 12 (frame_from mac_local)) =
    Some {| VL2.PeerAddr := addrK; VL2.LastSeen := 2000; VL2.IsLocal := false |} /\
  (forall k e,
     VL2.macTable
       (VL2.HandleRemoteFrame (map_to_list (VL2.macTable switch1)) switch1 addrK
          (frame_from mac_local) 2000).1.1 !! k = Some e ->
     VL2.IsLocal e = true -> VL2.macTable switch1 !! k = Some e).
Proof.
  assert (14 <= length (frame_from mac_local))%nat as Hlen by (vm_compute; lia).
  split; [exact Hlen|].
  exact (HandleRemoteFrame_learns_remote (map_to_list (VL2.macTable switch1))
           switch1 addrK (frame_from mac_local) 2000 Hlen).
Defined.

Lemma switch_full_size : size (VL2.macTable switch_full) = 4096%nat.
Proof. vm_compute. reflexivity. Qed.

(** C3 as stated fails: the table holds 4096 entries, the oldest being
    the local one; the next [learn] evicts this local entry. *)
Lemma learn_evicts_local_entry :
  size (VL2.macTable switch_full) = 4096%nat /\
  VL2.macTable switch_full !! VL2.MACToKey mac_local =
    Some {| VL2.PeerAddr := Identity.zeroAddress; VL2.LastSeen := 1000;
            VL2.IsLocal := true |} /\
  VL2.macTable
    (VL2.learn (map_to_list (VL2.macTable switch_full)) switch_full
       (mac_host 5000) addrK false 9000) !! VL2.MACToKey mac_local = None.
Proof.
  split; [exact switch_full_size|].
  split; vm_compute; reflexivity.
Qed.

Lemma learn_at_capacity_run :
  VL2.visits (map_to_list (VL2.macTable switch_full)) (VL2.macTable switch_full) /\
  (VL2.MACTableMaxSize <= size (VL2.macTable switch_full))%nat /\
  exists k e,
    VL2.macTable switch_full !! k = Some e /\
    (forall k' e', VL2.macTable switch_full !! k' = Some e' ->
                   VL2.LastSeen e <= VL2.LastSeen e') /\
    VL2.macTable
      (VL2.learn (map_to_list (VL2.macTable switch_full)) switch_full
         (mac_host 5000) addrK false 9000) =
    <[VL2.MACToKey (mac_host 5000) :=
        {| VL2.PeerAddr := addrK; VL2.LastSeen := 9000; VL2.IsLocal := false |}]>
      (delete k (VL2.macTable switch_full)).
Proof.
  assert (VL2.visits (map_to_list (VL2.macTable switch_full))
                     (VL2.macTable switch_full)) as Hvis
    by (unfold VL2.visits; apply Permutation_refl).
  assert (VL2.MACTableMaxSize <= size (VL2.macTable switch_full))%nat as Hfull
    by (rewrite switch_full_size; vm_compute; lia).
  split; [exact Hvis|]. split; [exact Hfull|].
  exact (learn_at_capacity (map_to_list (VL2.macTable switch_full)) switch_full
           (mac_host 5000) addrK false 9000 Hvis Hfull).
Defined.

(** ** The ARP proxy *)
Section ARPFacts.
Import Wire VL2 ARP.

Lemma copied_length n src : length (copied n src) = n.
Proof. unfold copied. apply length_vec_to_list. Qed.

Lemma copied_id (src : list byte) : copied (length src) src = src.
Proof.
  unfold copied. induction src as [|b src IH]; [reflexivity|].
  cbn [length copy_into vec_to_list]. f_equal. exact IH.
Qed.

Lemma copied_exact (n : nat) (src : list byte) :
  length src = n -> copied n src = src.
Proof. intros <-. apply copied_id. Qed.

Lemma take_chunk (n : nat) (a rest : list byte) :
  length a = n -> take n (a ++ rest) = a.
Proof. intros <-. apply take_app_length. Qed.

Lemma drop_chunk (n m : nat) (a rest : list byte) :
  length a = n -> drop (n + m) (a ++ rest) = drop m rest.
Proof. intros <-. rewrite <- drop_drop. rewrite drop_app_length. reflexivity. Qed.

(** The fields of the frame built by [buildARPReply], by position. *)
Lemma buildARPReply_fields (originalFrame : EthernetFrame)
  (targetMAC senderMAC : list byte) (senderIP targetIP : IPv4) :
  let reply := buildARPReply originalFrame targetMAC senderMAC senderIP targetIP in
  let arp := drop EthernetHeaderSize reply in
  length reply = 42%nat /\
  slice 0 6 reply = copied 6 senderMAC /\
  slice 6 12 reply = copied 6 targetMAC /\
  Uint16BE (slice 12 14 reply) = EtherTypeARP /\
  Uint16BE (slice 0 2 arp) = 1 /\
  Uint16BE (slice 2 4 arp) = 0x0800 /\
  byte.unsigned (at_index arp 4) = 6 /\
  byte.unsigned (at_index arp 5) = 4 /\
  Uint16BE (slice 6 8 arp) = ARPReply /\
  slice 8 14 arp = copied 6 targetMAC /\
  slice 14 18 arp = vec_to_list targetIP /\
  slice 18 24 arp = copied 6 senderMAC /\
  slice 24 28 arp = vec_to_list senderIP.
Proof.
  cbv zeta. unfold buildARPReply, EthernetHeaderSize.
  pose proof (copied_length 6 senderMAC) as Hs.
  pose proof (copied_length 6 targetMAC) as Ht.
  pose proof (copied_length 4 (vec_to_list targetIP)) as Hti.
  pose proof (copied_length 4 (vec_to_list senderIP)) as Hsi.
  assert (copied 4 (vec_to_list targetIP) = vec_to_list targetIP) as Eti
    by (apply copied_exact, length_vec_to_list).
  assert (copied 4 (vec_to_list senderIP) = vec_to_list senderIP) as Esi
    by (apply copied_exact, length_vec_to_list).
  rewrite Eti, Esi in *.
  set (S6 := copied 6 senderMAC) in *. set (T6 := copied 6 targetMAC) in *.
  set (tip := vec_to_list targetIP) in *. set (sip := vec_to_list senderIP) in *.
  assert (drop 14 (S6 ++ T6 ++ PutUint16BE EtherTypeARP ++ PutUint16BE 1 ++
                   PutUint16BE 2048 ++ [byte.of_Z 6] ++ [byte.of_Z 4] ++
                   PutUint16BE ARPReply ++ T6 ++ tip ++ S6 ++ sip)
          = PutUint16BE 1 ++ PutUint16BE 2048 ++ [byte.of_Z 6] ++ [byte.of_Z 4] ++
            PutUint16BE ARPReply ++ T6 ++ tip ++ S6 ++ sip) as Harp.
  { rewrite (drop_chunk 6 8 S6) by exact Hs.
    rewrite (drop_chunk 6 2 T6) by exact Ht.
    reflexivity. }
  rewrite Harp. unfold slice.
  split.
  { rewrite !length_app, Hs, Ht, Hti, Hsi. reflexivity. }
  split; [apply take_chunk; exact Hs|].
  split.
  { rewrite (drop_chunk 6 0 S6) by exact Hs. apply take_chunk. exact Ht. }
  split.
  { rewrite (drop_chunk 6 6 S6) by exact Hs.
    rewrite (drop_chunk 6 0 T6) by exact Ht. reflexivity. }
  split; [reflexivity|]. split; [reflexivity|].
  split; [reflexivity|]. split; [reflexivity|]. split; [reflexivity|].
  split.
  { change (drop 8 ?l) with (drop 0 (T6 ++ tip ++ S6 ++ sip)).
    apply take_chunk. exact Ht. }
  split.
  { change (drop 14 ?l) with (drop (6 + 0) (T6 ++ tip ++ S6 ++ sip)).
    rewrite (drop_chunk 6 0 T6) by exact Ht. apply take_chunk. exact Hti. }
  split.
  { change (drop 18 ?l) with (drop (6 + 4) (T6 ++ tip ++ S6 ++ sip)).
    rewrite (drop_chunk 6 4 T6) by exact Ht.
    rewrite (drop_chunk 4 0 tip) by exact Hti. apply take_chunk. exact Hs. }
  change (drop 24 ?l) with (drop (6 + 10) (T6 ++ tip ++ S6 ++ sip)).
  rewrite (drop_chunk 6 10 T6) by exact Ht.
  rewrite (drop_chunk 4 6 tip) by exact Hti.
  rewrite (drop_chunk 6 0 S6) by exact Hs.
  rewrite drop_0. apply take_ge. rewrite Hsi. cbn. lia.
Qed.

(** The checks [HandleARP] makes before it reads the addresses: an ARP
    header for Ethernet and IPv4. *)
Definition ipv4_arp (payload : list byte) : Prop :=
  (ARPHeaderSize <= length payload)%nat /\
  Uint16BE (slice 0 2 payload) = 1 /\
  Uint16BE (slice 2 4 payload) = 0x0800 /\
  byte.unsigned (at_index payload 4) = 6 /\
  byte.unsigned (at_index payload 5) = 4.

Lemma slice_length (lo hi : nat) (l : list byte) :
  (lo <= hi)%nat -> (hi <= length l)%nat -> length (slice lo hi l) = (hi - lo)%nat.
Proof. intros H1 H2. unfold slice. rewrite length_take, length_drop. lia. Qed.

Lemma copy_into_slice (n lo hi : nat) (l : list byte) :
  (lo <= hi)%nat -> (hi <= length l)%nat -> n = (hi - lo)%nat ->
  vec_to_list (copy_into n (slice lo hi l)) = slice lo hi l.
Proof.
  intros H1 H2 ->. apply copied_exact. apply slice_length; assumption.
Qed.

(** Learning a sender keeps the entry of another address as long as the
    cache is below its capacity. *)
Lemma learn_keeps_other order (a : ARPProxy) (ip target : IPv4)
  (mac : list byte) (now : Z) (entry : ARPEntry) :
  (size (cache a) < ARPCacheMaxSize)%nat -> ip <> target ->
  cache a !! target = Some entry ->
  cache (learn order a ip mac now) !! target = Some entry.
Proof.
  intros Hsize Hne Hentry. unfold learn. cbn [cache].
  destruct (Nat.leb_spec ARPCacheMaxSize (size (cache a))) as [Hfull|_]; [lia|].
  rewrite lookup_insert_ne by exact Hne. exact Hentry.
Qed.

(** C8, as the code has it: [HandleARP] first learns the binding of the
    sender and then looks the target up.  For an IPv4-over-Ethernet
    request whose target address is in the cache and fresh at this
    lookup, the reply goes to the requester's MAC from the cached MAC,
    has EtherType 0x0806 and operation 2, names the cached MAC and the
    target address as sender and the requester's MAC and address as
    target. *)
Theorem HandleARP_reply (e : env) (a : ARPProxy) (frame : EthernetFrame)
  (entry : ARPEntry) :
  let payload := Payload frame in
  let senderMAC := slice 8 14 payload in
  let senderIP : IPv4 := copy_into 4 (slice 14 18 payload) in
  let targetIP : IPv4 := copy_into 4 (slice 24 28 payload) in
  let learned := learn (order1 e) a senderIP senderMAC (now1 e) in
  ipv4_arp payload ->
  Uint16BE (slice 6 8 payload) = ARPRequest ->
  cache learned !! targetIP = Some entry ->
  now_since e - LastSeen entry < ARPCacheExpiry ->
  exists reply,
    HandleARP e a frame = (learned, Some reply) /\
    slice 0 6 reply = senderMAC /\
    slice 6 12 reply = copied 6 (MAC entry) /\
    Uint16BE (slice 12 14 reply) = 0x0806 /\
    Uint16BE (slice 6 8 (drop 14 reply)) = 2 /\
    slice 8 14 (drop 14 reply) = copied 6 (MAC entry) /\
    slice 14 18 (drop 14 reply) = slice 24 28 payload /\
    slice 18 24 (drop 14 reply) = senderMAC /\
    slice 24 28 (drop 14 reply) = slice 14 18 payload /\
    (length (MAC entry) = 6%nat -> copied 6 (MAC entry) = MAC entry).
Proof.
  intros payload senderMAC senderIP targetIP learned
         (Hlen & Hh & Hp & Hhl & Hpl) Hop Hentry Hfresh.
  unfold ARPHeaderSize in Hlen.
  exists (buildARPReply frame (MAC entry) senderMAC senderIP targetIP).
  split.
  - unfold HandleARP. fold payload.
    destruct (Nat.ltb_spec (length payload) ARPHeaderSize) as [Hlt|_];
      [unfold ARPHeaderSize in Hlt; lia|].
    rewrite Hh, Hp, Hhl, Hpl, Hop. cbn [Z.eqb Pos.eqb negb orb].
    fold senderMAC. fold senderIP. fold targetIP. fold learned.
    rewrite Hentry.
    destruct (Z.ltb_spec (now_since e - LastSeen entry) ARPCacheExpiry) as [_|Hge];
      [reflexivity|lia].
  - pose proof (buildARPReply_fields frame (MAC entry) senderMAC senderIP targetIP)
      as F. cbv zeta in F. unfold EthernetHeaderSize, EtherTypeARP, ARPReply in F.
    destruct F as (_ & F1 & F2 & F3 & _ & _ & _ & _ & F4 & F5 & F6 & F7 & F8).
    assert (copied 6 senderMAC = senderMAC) as Es.
    { apply copied_exact. unfold senderMAC. rewrite slice_length; lia. }
    rewrite Es in F1, F7.
    unfold targetIP in F6. rewrite copy_into_slice in F6 by lia.
    unfold senderIP in F8. rewrite copy_into_slice in F8 by lia.
    repeat (split; [assumption|]).
    apply copied_exact.
Qed.

End ARPFacts.

(** ** Concrete runs of the ARP proxy *)

(** C8 as stated fails: 10.147.17.2 is in the cache, at [mac_B], and
    fresh; a request for 10.147.17.2 whose sender claims this very
    address is answered with the sender's own MAC as source, the binding
    learned from the request having replaced the cached one. *)
Lemma HandleARP_answers_with_learned_sender :
  ARP.cache proxy0 !! Wire.copy_into 4 ip_2 =
    Some {| ARP.MAC := mac_B; ARP.LastSeen := 5000 |} /\
  ARP.now_since env0 - 5000 < ARP.ARPCacheExpiry /\
  Wire.slice 6 12 <$> (ARP.HandleARP env0 proxy0 (arp_request mac_local ip_2 ip_2)).2
    = Some mac_local /\
  mac_local <> mac_B.
Proof.
  split; [vm_compute; reflexivity|].
  split; [vm_compute; reflexivity|].
  split; [vm_compute; reflexivity|].
  intros H. vm_compute in H. discriminate H.
Qed.

Lemma HandleARP_reply_run :
  let frame := arp_request mac_local ip_1 ip_2 in
  let payload := VL2.Payload frame in
  let senderMAC := Wire.slice 8 14 payload in
  let senderIP : ARP.IPv4 := Wire.copy_into 4 (Wire.slice 14 18 payload) in
  let targetIP : ARP.IPv4 := Wire.copy_into 4 (Wire.slice 24 28 payload) in
  let learned := ARP.learn (ARP.order1 env0) proxy0 senderIP senderMAC (ARP.now1 env0) in
  let entry := {| ARP.MAC := mac_B; ARP.LastSeen := 5000 |} in
  ipv4_arp payload /\
  Wire.Uint16BE (Wire.slice 6 8 payload) = ARP.ARPRequest /\
  ARP.cache learned !! targetIP = Some entry /\
  ARP.now_since env0 - ARP.LastSeen entry < ARP.ARPCacheExpiry /\
  exists reply,
    ARP.HandleARP env0 proxy0 frame = (learned, Some reply) /\
    Wire.slice 0 6 reply = senderMAC /\
    Wire.slice 6 12 reply = ARP.copied 6 (ARP.MAC entry) /\
    Wire.Uint16BE (Wire.slice 12 14 reply) = 0x0806 /\
    Wire.Uint16BE (Wire.slice 6 8 (drop 14 reply)) = 2 /\
    Wire.slice 8 14 (drop 14 reply) = ARP.copied 6 (ARP.MAC entry) /\
    Wire.slice 14 18 (drop 14 reply) = Wire.slice 24 28 payload /\
    Wire.slice 18 24 (drop 14 reply) = senderMAC /\
    Wire.slice 24 28 (drop 14 reply) = Wire.slice 14 18 payload /\
    (length (ARP.MAC entry) = 6%nat -> ARP.copied 6 (ARP.MAC entry) = ARP.MAC entry).
Proof.
  intros frame payload senderMAC senderIP targetIP learned entry.
  assert (ipv4_arp payload) as H1.
  { unfold ipv4_arp. split; [vm_compute; lia|].
    split; [vm_compute; reflexivity|]. split; [vm_compute; reflexivity|].
    split; vm_compute; reflexivity. }
  assert (Wire.Uint16BE (Wire.slice 6 8 payload) = ARP.ARPRequest) as H2
    by (vm_compute; reflexivity).
  assert (ARP.cache learned !! targetIP = Some entry) as H3
    by (vm_compute; reflexivity).
  assert (ARP.now_since env0 - ARP.LastSeen entry < ARP.ARPCacheExpiry) as H4
    by (vm_compute; reflexivity).
  split; [exact H1|]. split; [exact H2|]. split; [exact H3|]. split; [exact H4|].
  exact (HandleARP_reply env0 proxy0 frame entry H1 H2 H3 H4).
Defined.

(** * Further properties of the code *)

(** ** Big-endian fields *)
Section WireFacts.
Import Wire.

Lemma byte_testbit_high (b : byte) (i : Z) :
  8 <= i -> Z.testbit (byte.unsigned b) i = false.
Proof.
  intros Hi. pose proof (byte.unsigned_range b) as Hb.
  destruct (Z.eq_dec (byte.unsigned b) 0) as [->|Hne]; [apply Z.testbit_0_l|].
  apply Z.bits_above_log2; [lia|].
  assert (Z.log2 (byte.unsigned b) < 8) by (apply Z.log2_lt_pow2; lia). lia.
Qed.

Lemma of_Z_eq (z : Z) (b : byte) : z mod 2 ^ 8 = byte.unsigned b -> byte.of_Z z = b.
Proof.
  intros H. apply byte.unsigned_inj. rewrite byte.unsigned_of_Z. exact H.
Qed.

Lemma Uint32BE_Put v : Uint32BE (PutUint32BE v) = v mod 2 ^ 32.
Proof.
  unfold Uint32BE, PutUint32BE. rewrite !byte.unsigned_of_Z. unfold byte.wrap.
  rewrite <- !Z.land_ones by lia. Z.bitblast.
Qed.

Lemma Uint16BE_Put v : Uint16BE (PutUint16BE v) = v mod 2 ^ 16.
Proof.
  unfold Uint16BE, PutUint16BE. rewrite !byte.unsigned_of_Z. unfold byte.wrap.
  rewrite <- !Z.land_ones by lia. Z.bitblast.
Qed.

Lemma Put_Uint16BE b0 b1 rest : PutUint16BE (Uint16BE (b0 :: b1 :: rest)) = [b0; b1].
Proof.
  unfold Uint16BE, PutUint16BE.
  pose proof (byte_testbit_high b0) as H0. pose proof (byte_testbit_high b1) as H1.
  f_equal; [|f_equal]; apply of_Z_eq; rewrite <- Z.land_ones by lia;
    Z.bitblast; rewrite ?H0, ?H1, ?Z.testbit_neg_r by lia; btauto.
Qed.

Lemma Put_Uint32BE b0 b1 b2 b3 rest :
  PutUint32BE (Uint32BE (b0 :: b1 :: b2 :: b3 :: rest)) = [b0; b1; b2; b3].
Proof.
  unfold Uint32BE, PutUint32BE.
  pose proof (byte_testbit_high b0) as H0. pose proof (byte_testbit_high b1) as H1.
  pose proof (byte_testbit_high b2) as H2. pose proof (byte_testbit_high b3) as H3.
  f_equal; [|f_equal; [|f_equal; [|f_equal]]];
    apply of_Z_eq; rewrite <- Z.land_ones by lia;
    Z.bitblast; rewrite ?H0, ?H1, ?H2, ?H3, ?Z.testbit_neg_r by lia; btauto.
Qed.

Lemma Uint32BE_range b0 b1 b2 b3 rest :
  0 <= Uint32BE (b0 :: b1 :: b2 :: b3 :: rest) < 2 ^ 32.
Proof.
  pose proof (Uint32BE_Put (Uint32BE (b0 :: b1 :: b2 :: b3 :: rest))) as H.
  rewrite Put_Uint32BE in H.
  change (Uint32BE [b0; b1; b2; b3]) with (Uint32BE (b0 :: b1 :: b2 :: b3 :: rest)) in H.
  rewrite H. apply Z.mod_pos_bound. lia.
Qed.

Lemma Uint16BE_range b0 b1 rest : 0 <= Uint16BE (b0 :: b1 :: rest) < 2 ^ 16.
Proof.
  pose proof (Uint16BE_Put (Uint16BE (b0 :: b1 :: rest))) as H.
  rewrite Put_Uint16BE in H.
  change (Uint16BE [b0; b1]) with (Uint16BE (b0 :: b1 :: rest)) in H.
  rewrite H. apply Z.mod_pos_bound. lia.
Qed.

End WireFacts.

(** ** The packet codec *)
Section PacketFacts.
Import Wire VL1.

Lemma Header_Encode_length h : length (Header_Encode h) = HeaderSize.
Proof. reflexivity. Qed.

(** X1: decoding an encoded packet gives the packet back, for every
    packet of the current version whose header fields are in range. *)
Theorem DecodePacket_Encode (p : Packet) :
  hdr_Version (pkt_Header p) = Version ->
  header_wf (pkt_Header p) ->
  DecodePacket (Packet_Encode p) = inl p.
Proof.
  destruct p as [[v t n r] payload]. cbn [pkt_Header hdr_Version].
  intros -> [Hn Hr]. cbn [hdr_NetworkID hdr_Reserved] in Hn, Hr.
  pose proof (Uint32BE_Put n) as E32. pose proof (Uint16BE_Put r) as E16.
  rewrite (Z.mod_small n) in E32 by exact Hn.
  rewrite (Z.mod_small r) in E16 by exact Hr.
  unfold PutUint32BE in E32. unfold PutUint16BE in E16.
  unfold DecodePacket, DecodeHeader, Packet_Encode, Header_Encode.
  unfold PutUint32BE, PutUint16BE, HeaderSize, slice.
  cbn [pkt_Header pkt_Payload hdr_Version hdr_Type hdr_NetworkID hdr_Reserved
       app length Nat.ltb Nat.leb nth Nat.sub drop take].
  change (Uint16BE (byte.of_Z (Z.shiftr r 8) :: byte.of_Z r :: take 0 payload))
    with (Uint16BE [byte.of_Z (Z.shiftr r 8); byte.of_Z r]).
  rewrite E32, E16. rewrite decide_True by reflexivity. reflexivity.
Qed.

(** X2: [DecodePacket] accepts exactly the datagrams of at least eight
    bytes whose first byte is the version 1; the type byte and the
    reserved bytes are not looked at.  What it accepts, [Encode] turns
    back into the very datagram. *)
Theorem DecodePacket_accepts (data : list byte) :
  ((exists p, DecodePacket data = inl p) <->
   (8 <= length data)%nat /\ nth 0 data Byte.x00 = Byte.x01) /\
  (forall p, DecodePacket data = inl p ->
     Packet_Encode p = data /\ header_wf (pkt_Header p) /\
     pkt_Payload p = drop 8 data).
Proof.
  unfold DecodePacket, DecodeHeader, HeaderSize.
  destruct (Nat.ltb_spec (length data) 8) as [Hlt|Hge].
  - split.
    + split; [intros [p Hp]; discriminate Hp|intros [Hlen _]; lia].
    + intros p Hp. discriminate Hp.
  - cbn [hdr_Version].
    destruct data as [|b0 [|b1 [|b2 [|b3 [|b4 [|b5 [|b6 [|b7 payload]]]]]]]];
      cbn [length] in Hge; try lia.
    cbn [nth slice Nat.sub drop take].
    destruct (decide (b0 = Version)) as [->|Hne].
    + split; [split; [intros _; split; [cbn [length]; lia|reflexivity]|eauto]|].
      intros p Hp. injection Hp as <-.
      unfold Packet_Encode, Header_Encode.
      cbn [pkt_Header pkt_Payload hdr_Version hdr_Type hdr_NetworkID hdr_Reserved].
      change (Z.lor (Z.lor (Z.lor (Z.shiftl (byte.unsigned b2) 24)
                                  (Z.shiftl (byte.unsigned b3) 16))
                           (Z.shiftl (byte.unsigned b4) 8))
                    (byte.unsigned b5))
        with (Uint32BE [b2; b3; b4; b5]).
      change (Z.lor (Z.shiftl (byte.unsigned b6) 8) (byte.unsigned b7))
        with (Uint16BE [b6; b7]).
      rewrite Put_Uint32BE, Put_Uint16BE. split; [reflexivity|]. split; [|reflexivity].
      unfold header_wf. cbn [hdr_NetworkID hdr_Reserved].
      split; [apply Uint32BE_range|apply Uint16BE_range].
    + split.
      * split; [intros [p Hp]; discriminate Hp|].
        intros [_ H0]. exfalso. apply Hne. exact H0.
      * intros p Hp. discriminate Hp.
Qed.

End PacketFacts.

(** ** Ethernet frames and MAC addresses *)
Section EthernetFacts.
Import Wire VL2.

(** X3: [ParseEthernetFrame] accepts exactly the inputs of at least 14
    bytes (13 bytes are rejected, 14 bytes give an empty payload) and
    loses nothing: destination, source, EtherType and payload, laid end
    to end, are the input. *)
Theorem ParseEthernetFrame_lossless (data : list byte) :
  ((exists f, ParseEthernetFrame data = Ok f) <-> (14 <= length data)%nat) /\
  (forall f, ParseEthernetFrame data = Ok f ->
     DstMAC f ++ SrcMAC f ++ PutUint16BE (EtherType f) ++ Payload f = data /\
     length (DstMAC f) = 6%nat /\ length (SrcMAC f) = 6%nat /\
     0 <= EtherType f < 2 ^ 16 /\
     length (Payload f) = (length data - 14)%nat /\
     Raw f = data).
Proof.
  unfold ParseEthernetFrame, MinFrameSize, EthernetHeaderSize.
  destruct (Nat.ltb_spec (length data) 14) as [Hlt|Hge].
  - split; [split; [intros [f Hf]; discriminate Hf|lia]|].
    intros f Hf. discriminate Hf.
  - split; [split; [lia|eauto]|].
    intros f Hf. injection Hf as <-.
    destruct data as [|d0 [|d1 [|d2 [|d3 [|d4 [|d5 [|s0 [|s1 [|s2 [|s3 [|s4 [|s5
                     [|t0 [|t1 payload]]]]]]]]]]]]]]; cbn [length] in Hge; try lia.
    unfold slice.
    cbn [DstMAC SrcMAC EtherType Payload Raw Nat.sub drop take length app].
    change (Uint16BE (t0 :: t1 :: take 0 payload)) with (Uint16BE [t0; t1]).
    rewrite Put_Uint16BE. cbn [app].
    repeat split; try reflexivity; try apply Uint16BE_range.
    rewrite drop_0. lia.
Qed.

Lemma IsBroadcast_first (f : EthernetFrame) :
  IsBroadcast f = true -> at_index (DstMAC f) 0 = Byte.xff.
Proof.
  unfold IsBroadcast. cbn [seq forallb]. intros H.
  apply andb_prop in H as [H _]. apply bool_decide_eq_true in H. exact H.
Qed.

(** X4: the broadcast address is a multicast address: a frame for which
    [IsBroadcast] holds is multicast and not unicast, so the switch treats
    the two alike. *)
Theorem IsBroadcast_IsMulticast (f : EthernetFrame) :
  IsBroadcast f = true -> IsMulticast f = true /\ IsUnicast f = false.
Proof.
  intros H. apply IsBroadcast_first in H.
  unfold IsUnicast, IsMulticast. rewrite H. split; reflexivity.
Qed.

Lemma low16 (n : Z) :
  n mod 2 ^ 16 = n mod 2 ^ 8 + 2 ^ 8 * (Z.shiftr n 8 mod 2 ^ 8).
Proof.
  rewrite Z.shiftr_div_pow2 by lia.
  change (2 ^ 16) with (2 ^ 8 * 2 ^ 8). apply Z.rem_mul_r; lia.
Qed.

Lemma of_Z_inj_mod (x y : Z) :
  byte.of_Z x = byte.of_Z y <-> x mod 2 ^ 8 = y mod 2 ^ 8.
Proof.
  split; intros H.
  - apply (f_equal byte.unsigned) in H. rewrite !byte.unsigned_of_Z in H. exact H.
  - apply byte.unsigned_inj. rewrite !byte.unsigned_of_Z. exact H.
Qed.

(** X5: [GenerateMAC] returns six bytes: 0x02, the low 16 bits of the
    network id in big-endian order, then the first three bytes of the
    node address.  A frame sent to this address is neither multicast nor
    broadcast.  Two calls give the same address exactly when the network
    ids agree in their low 16 bits and the node addresses in their first
    three bytes: the last two bytes of the node address play no part. *)
Theorem GenerateMAC_spec (networkID : Z) (nodeAddr : Identity.Address) :
  length (GenerateMAC networkID nodeAddr) = 6%nat /\
  (forall f, DstMAC f = GenerateMAC networkID nodeAddr ->
             IsMulticast f = false /\ IsBroadcast f = false /\ IsUnicast f = true) /\
  (forall networkID' nodeAddr',
     GenerateMAC networkID nodeAddr = GenerateMAC networkID' nodeAddr' <->
     networkID mod 2 ^ 16 = networkID' mod 2 ^ 16 /\
     nodeAddr !!! 0%fin = nodeAddr' !!! 0%fin /\
     nodeAddr !!! 1%fin = nodeAddr' !!! 1%fin /\
     nodeAddr !!! 2%fin = nodeAddr' !!! 2%fin) /\
  slice 0 1 (GenerateMAC networkID nodeAddr) = [Byte.x02] /\
  Uint16BE (slice 1 3 (GenerateMAC networkID nodeAddr)) = networkID mod 2 ^ 16 /\
  slice 3 6 (GenerateMAC networkID nodeAddr) = take 3 (vec_to_list nodeAddr).
Proof.
  split; [reflexivity|]. split; [|split; [|split; [reflexivity|split]]];
    [| |exact (Uint16BE_Put networkID)
       |inv_vec nodeAddr; intros b0 b1 b2 b3 b4; reflexivity].
  - intros f Hf. unfold IsUnicast, IsMulticast, IsBroadcast. rewrite Hf.
    split; [reflexivity|]. split; reflexivity.
  - intros n' a'. unfold GenerateMAC, PutUint32BE, at_index. cbn [nth]. split.
    + intros H. injection H as H1 H2 H3 H4 H5.
      apply of_Z_inj_mod in H1. apply of_Z_inj_mod in H2.
      split; [|repeat split; assumption].
      rewrite (low16 networkID), (low16 n'). lia.
    + intros (Hn & -> & -> & ->).
      rewrite (low16 networkID), (low16 n') in Hn.
      pose proof (Z.mod_pos_bound networkID (2 ^ 8) ltac:(lia)).
      pose proof (Z.mod_pos_bound n' (2 ^ 8) ltac:(lia)).
      pose proof (Z.mod_pos_bound (Z.shiftr networkID 8) (2 ^ 8) ltac:(lia)).
      pose proof (Z.mod_pos_bound (Z.shiftr n' 8) (2 ^ 8) ltac:(lia)).
      assert (Z.shiftr networkID 8 mod 2 ^ 8 = Z.shiftr n' 8 mod 2 ^ 8) as E1 by lia.
      assert (networkID mod 2 ^ 8 = n' mod 2 ^ 8) as E2 by lia.
      apply of_Z_inj_mod in E1. apply of_Z_inj_mod in E2.
      rewrite E1, E2. reflexivity.
Qed.

End EthernetFacts.

(** ** Forwarding decisions of the switch *)
Section ForwardingFacts.
Import Wire VL2.

Lemma HandleLocalFrame_switch order sw frame now sent parsed :
  ParseEthernetFrame frame = Ok parsed ->
  (HandleLocalFrame order sw frame now sent).1.1 =
  learn order sw (SrcMAC parsed) Identity.zeroAddress true now.
Proof.
  intros Hparse. unfold HandleLocalFrame. rewrite Hparse.
  destruct (_ || _); [reflexivity|].
  destruct (_ !! _) as [entry|]; [|reflexivity].
  destruct (negb (IsLocal entry)); reflexivity.
Qed.

Lemma handlers_on_short_frame order sw peerAddr frame now sent e :
  ParseEthernetFrame frame = Err e ->
  HandleLocalFrame order sw frame now sent = (sw, [], Err e) /\
  HandleRemoteFrame order sw peerAddr frame now = (sw, [], Err e).
Proof.
  intros Hparse. unfold HandleLocalFrame, HandleRemoteFrame. rewrite Hparse.
  split; reflexivity.
Qed.

Lemma learn_networkID order sw mac peerAddr isLocal now :
  networkID (learn order sw mac peerAddr isLocal now) = networkID sw.
Proof. reflexivity. Qed.

Lemma learn_size order sw mac peerAddr isLocal now :
  visits order (macTable sw) ->
  (size (macTable sw) <= MACTableMaxSize)%nat ->
  (size (macTable (learn order sw mac peerAddr isLocal now)) <= MACTableMaxSize)%nat.
Proof.
  intros Hvis Hsize. unfold learn. cbn [macTable].
  destruct (Nat.leb_spec MACTableMaxSize (size (macTable sw))) as [Hfull|Hbelow].
  - assert (macTable sw <> ∅) as Hne.
    { intros Hempty. rewrite Hempty, map_size_empty in Hfull.
      unfold MACTableMaxSize in Hfull. lia. }
    destruct (evictOldest_spec order (macTable sw) Hvis Hne) as (k & e & Hk & _ & ->).
    rewrite map_size_insert.
    assert (size (delete k (macTable sw)) = pred (size (macTable sw))) as Hdel
      by (apply map_size_delete_Some; eauto).
    assert (0 < MACTableMaxSize)%nat by (unfold MACTableMaxSize; lia).
    destruct (delete k (macTable sw) !! MACToKey mac); unfold id; lia.
  - rewrite map_size_insert. destruct (macTable sw !! MACToKey mac); unfold id; lia.
Qed.

(** Below capacity [learn] changes the entry of the source only. *)
Lemma learn_below_capacity order sw mac peerAddr isLocal now k :
  (size (macTable sw) < MACTableMaxSize)%nat -> k <> MACToKey mac ->
  macTable (learn order sw mac peerAddr isLocal now) !! k = macTable sw !! k.
Proof.
  intros Hsize Hne. unfold learn. cbn [macTable].
  destruct (Nat.leb_spec MACTableMaxSize (size (macTable sw))) as [Hfull|_]; [lia|].
  apply lookup_insert_ne. congruence.
Qed.

(** X6: the MAC table never grows beyond 4096 entries: [learn], and with
    it the handling of a frame from the tap or from a peer, takes a table
    of at most 4096 entries to a table of at most 4096 entries. *)
Theorem macTable_bounded order (sw : Switch) (peerAddr : Identity.Address)
  (frame : list byte) (now : Z) (sent : result unit) :
  visits order (macTable sw) ->
  (size (macTable sw) <= MACTableMaxSize)%nat ->
  (size (macTable (HandleLocalFrame order sw frame now sent).1.1)
     <= MACTableMaxSize)%nat /\
  (size (macTable (HandleRemoteFrame order sw peerAddr frame now).1.1)
     <= MACTableMaxSize)%nat.
Proof.
  intros Hvis Hsize.
  destruct (ParseEthernetFrame frame) as [parsed|e] eqn:Hparse.
  - rewrite (HandleLocalFrame_switch _ _ _ _ _ _ Hparse).
    rewrite (HandleRemoteFrame_switch _ _ _ _ _ _ Hparse).
    split; apply learn_size; assumption.
  - destruct (handlers_on_short_frame order sw peerAddr frame now sent e Hparse)
      as [-> ->]. split; exact Hsize.
Qed.

Lemma IsMulticast_false_IsBroadcast (f : EthernetFrame) :
  IsMulticast f = false -> IsBroadcast f = false.
Proof.
  intros Hm. destruct (IsBroadcast f) eqn:Hb; [|reflexivity].
  apply IsBroadcast_first in Hb. unfold IsMulticast in Hm. rewrite Hb in Hm.
  discriminate Hm.
Qed.

(** X7: unicast learning.  Once a frame of peer [P] with source MAC [m]
    has been handled, a frame from the tap for the unicast address [m],
    sent from another MAC while the table is below capacity, leads to
    exactly one call on the sender, [SendToPeer P], and to no flood. *)
Theorem unicast_after_learning order1 order2 (sw : Switch)
  (peerAddr : Identity.Address) (frame1 frame2 : list byte) (t1 t2 : Z)
  (sent : result unit) (f1 f2 : EthernetFrame) :
  ParseEthernetFrame frame1 = Ok f1 ->
  ParseEthernetFrame frame2 = Ok f2 ->
  MACToKey (DstMAC f2) = MACToKey (SrcMAC f1) ->
  MACToKey (SrcMAC f2) <> MACToKey (SrcMAC f1) ->
  IsMulticast f2 = false ->
  let sw1 := (HandleRemoteFrame order1 sw peerAddr frame1 t1).1.1 in
  (size (macTable sw1) < MACTableMaxSize)%nat ->
  (HandleLocalFrame order2 sw1 frame2 t2 sent).1.2 =
    [SendToPeer peerAddr (networkID sw) frame2] /\
  (HandleLocalFrame order2 sw1 frame2 t2 sent).2 = sent.
Proof.
  intros Hp1 Hp2 Hdst Hsrc Hm sw1 Hsize. subst sw1.
  rewrite (HandleRemoteFrame_switch _ _ _ _ _ _ Hp1) in *.
  unfold HandleLocalFrame. rewrite Hp2.
  rewrite Hm, (IsMulticast_false_IsBroadcast _ Hm). cbn [orb].
  rewrite learn_below_capacity by (exact Hsize || congruence).
  rewrite Hdst, learn_lookup. cbn [IsLocal negb PeerAddr]. split; reflexivity.
Qed.

(** When [HandleRemoteFrame] forwards instead of injecting. *)
Lemma HandleRemoteFrame_forwards order (sw : Switch)
  (peerAddr : Identity.Address) (frame : list byte) (now : Z) (f : EthernetFrame) :
  ParseEthernetFrame frame = Ok f ->
  let r := HandleRemoteFrame order sw peerAddr frame now in
  let sw' := learn order sw (SrcMAC f) peerAddr false now in
  (forall q, (IsBroadcast f || IsMulticast f = false /\
              exists e, macTable sw' !! MACToKey (DstMAC f) = Some e /\
                        IsLocal e = false /\ PeerAddr e = q) <->
             r.2 = Ok None /\ r.1.2 = [SendToPeer q (networkID sw) frame]) /\
  (r.2 = Ok None \/ r.2 = Ok (Some frame)) /\
  (length r.1.2 <= 1)%nat /\
  (forall n fr ex, BroadcastToPeers n fr ex ∈ r.1.2 ->
                   ex = peerAddr /\ fr = frame /\ r.2 = Ok (Some frame)).
Proof.
  intros Hparse. cbv zeta. unfold HandleRemoteFrame. rewrite Hparse.
  set (sw' := learn order sw (SrcMAC f) peerAddr false now).
  change (networkID sw') with (networkID sw).
  destruct (IsBroadcast f || IsMulticast f) eqn:Hbm;
    [|destruct (macTable sw' !! MACToKey (DstMAC f)) as [e|] eqn:He;
      [destruct (IsLocal e) eqn:Hloc|]];
    cbn [fst snd];
    (split; [intros q; split;
              [intros (Hb & e' & He' & Hl & Hq)|intros [Hr Hev]]
            |split; [|split; [cbn [length]; lia|intros n fr ex Hin]]]).
  all: try discriminate.
  all: try (right; reflexivity).
  all: try (left; reflexivity).
  all: try (apply list_elem_of_singleton in Hin; injection Hin as -> -> ->).
  all: try (apply list_elem_of_singleton in Hin; discriminate Hin).
  all: try (apply not_elem_of_nil in Hin; contradiction).
  all: try (repeat split; reflexivity).
  all: try congruence.
  - injection He' as <-. rewrite Hq. split; reflexivity.
  - injection Hev as <-. split; [reflexivity|]. exists e. repeat split; assumption.
Qed.


(** When [HandleRemoteFrame] injects, and what it floods then. *)
Lemma HandleRemoteFrame_injects order (sw : Switch)
  (peerAddr : Identity.Address) (frame : list byte) (now : Z) (f : EthernetFrame) :
  ParseEthernetFrame frame = Ok f ->
  let r := HandleRemoteFrame order sw peerAddr frame now in
  let sw' := learn order sw (SrcMAC f) peerAddr false now in
  r.1.1 = sw' /\
  (IsBroadcast f || IsMulticast f = true ->
   r.2 = Ok (Some frame) /\
   r.1.2 = [BroadcastToPeers (networkID sw) frame peerAddr]) /\
  (IsBroadcast f || IsMulticast f = false ->
   macTable sw' !! MACToKey (DstMAC f) = None ->
   r.2 = Ok (Some frame) /\
   r.1.2 = [BroadcastToPeers (networkID sw) frame peerAddr]) /\
  (forall e, IsBroadcast f || IsMulticast f = false ->
   macTable sw' !! MACToKey (DstMAC f) = Some e -> IsLocal e = true ->
   r.2 = Ok (Some frame) /\ r.1.2 = []).
Proof.
  intros Hparse. cbv zeta. unfold HandleRemoteFrame. rewrite Hparse.
  set (sw' := learn order sw (SrcMAC f) peerAddr false now).
  change (networkID sw') with (networkID sw).
  split; [|split; [|split]].
  - destruct (IsBroadcast f || IsMulticast f); [reflexivity|].
    destruct (macTable sw' !! MACToKey (DstMAC f)) as [e|]; [|reflexivity].
    destruct (IsLocal e); reflexivity.
  - intros ->. split; reflexivity.
  - intros -> ->. split; reflexivity.
  - intros e -> -> ->. split; reflexivity.
Qed.

(** X8: a frame of a peer [P] is injected into the tap, unchanged, unless
    it is unicast for a MAC that the table, the source being learned,
    maps to a remote peer: then it is sent to that peer alone and not
    injected.  In every other case the frame itself is returned for
    injection: a broadcast or multicast frame and a frame for an unknown
    MAC are also flooded to the peers other than [P], a frame for a
    local MAC is sent to nobody.  The switch calls the sender at most
    once per frame and every flood leaves [P] out. *)
Theorem HandleRemoteFrame_decision order (sw : Switch)
  (peerAddr : Identity.Address) (frame : list byte) (now : Z) (f : EthernetFrame) :
  ParseEthernetFrame frame = Ok f ->
  let r := HandleRemoteFrame order sw peerAddr frame now in
  let sw' := learn order sw (SrcMAC f) peerAddr false now in
  (forall q, (IsBroadcast f || IsMulticast f = false /\
              exists e, macTable sw' !! MACToKey (DstMAC f) = Some e /\
                        IsLocal e = false /\ PeerAddr e = q) <->
             r.2 = Ok None /\ r.1.2 = [SendToPeer q (networkID sw) frame]) /\
  (r.2 = Ok None \/ r.2 = Ok (Some frame)) /\
  (length r.1.2 <= 1)%nat /\
  (forall n fr ex, BroadcastToPeers n fr ex ∈ r.1.2 ->
                   ex = peerAddr /\ fr = frame /\ r.2 = Ok (Some frame)) /\
  r.1.1 = sw' /\
  (IsBroadcast f || IsMulticast f = true ->
   r.2 = Ok (Some frame) /\
   r.1.2 = [BroadcastToPeers (networkID sw) frame peerAddr]) /\
  (IsBroadcast f || IsMulticast f = false ->
   macTable sw' !! MACToKey (DstMAC f) = None ->
   r.2 = Ok (Some frame) /\
   r.1.2 = [BroadcastToPeers (networkID sw) frame peerAddr]) /\
  (forall e, IsBroadcast f || IsMulticast f = false ->
   macTable sw' !! MACToKey (DstMAC f) = Some e -> IsLocal e = true ->
   r.2 = Ok (Some frame) /\ r.1.2 = []).
Proof.
  intros Hparse.
  pose proof (HandleRemoteFrame_forwards order sw peerAddr frame now f Hparse) as H1.
  pose proof (HandleRemoteFrame_injects order sw peerAddr frame now f Hparse) as H2.
  cbv zeta in H1, H2 |- *.
  destruct H1 as (Ha & Hb & Hc & Hd).
  split; [exact Ha|]. split; [exact Hb|]. split; [exact Hc|]. split; [exact Hd|].
  exact H2.
Qed.

End ForwardingFacts.

(** ** Sweeps of expired entries *)
Section SweepFacts.
Context {K : Type} `{Countable K} {V : Type}.
Variable stale : K * V -> bool.
Variable step : gmap K V * nat -> K * V -> gmap K V * nat.
Hypothesis step_eq : forall acc kv,
  step acc kv = if stale kv then (delete kv.1 acc.1, S acc.2) else acc.

(** A loop that deletes the stale entries it visits, each key being
    visited once and with the value the map holds for it. *)
Lemma sweep_fold (order : list (K * V)) : forall (m : gmap K V) (r : nat),
  NoDup order.*1 ->
  (forall kv, kv ∈ order -> m !! kv.1 = Some kv.2) ->
  (forall k v, (foldl step (m, r) order).1 !! k = Some v <->
               m !! k = Some v /\ ((k, v) ∈ order -> stale (k, v) = false)) /\
  (size (foldl step (m, r) order).1 + (foldl step (m, r) order).2
   = size m + r)%nat.
Proof.
  induction order as [|[k0 v0] order IH]; intros m r Hnd Hin; cbn [foldl].
  - split; [|reflexivity]. intros k v. cbn [fst]. split; [intros Hk|tauto].
    split; [exact Hk|]. intros Habs. apply not_elem_of_nil in Habs. contradiction.
  - rewrite fmap_cons in Hnd. apply NoDup_cons in Hnd as [Hk0 Hnd].
    cbn [fst] in Hk0.
    pose proof (Hin (k0, v0) ltac:(left)) as Hm0. cbn [fst snd] in Hm0.
    rewrite step_eq. cbn [fst snd].
    assert (forall kv, kv ∈ order -> kv.1 <> k0) as Hother.
    { intros kv Hkv Heq. apply Hk0. rewrite <- Heq.
      apply list_elem_of_fmap. exists kv. split; [reflexivity|exact Hkv]. }
    destruct (stale (k0, v0)) eqn:Hst.
    + destruct (IH (delete k0 m) (S r) Hnd) as [IHl IHs].
      { intros kv Hkv. rewrite lookup_delete_ne by (apply not_eq_sym, Hother, Hkv).
        apply Hin. right. exact Hkv. }
      split.
      * intros k v. rewrite IHl. rewrite lookup_delete_Some. split.
        -- intros [[Hne Hk] Hst']. split; [exact Hk|].
           intros Hmem. apply elem_of_cons in Hmem as [Heq|Hmem]; [congruence|].
           exact (Hst' Hmem).
        -- intros [Hk Hst']. split.
           ++ split; [|exact Hk]. intros ->.
              assert (v = v0) as -> by congruence.
              specialize (Hst' ltac:(left)). congruence.
           ++ intros Hmem. apply Hst'. right. exact Hmem.
      * rewrite IHs. rewrite map_size_delete_Some by eauto.
        assert (size m <> 0)%nat by (apply map_size_non_empty_iff; intros ->;
          rewrite lookup_empty in Hm0; discriminate Hm0). lia.
    + destruct (IH m r Hnd) as [IHl IHs].
      { intros kv Hkv. apply Hin. right. exact Hkv. }
      split; [|exact IHs].
      intros k v. rewrite IHl. split.
      * intros [Hk Hst']. split; [exact Hk|].
        intros Hmem. apply elem_of_cons in Hmem as [Heq|Hmem]; [congruence|].
        exact (Hst' Hmem).
      * intros [Hk Hst']. split; [exact Hk|]. intros Hmem. apply Hst'. right. exact Hmem.
Qed.

(** The loop run over a whole map, in any visiting order. *)
Lemma sweep_map (order : list (K * V)) (m : gmap K V) :
  order ≡ₚ map_to_list m ->
  (forall k v, (foldl step (m, 0%nat) order).1 !! k = Some v <->
               m !! k = Some v /\ stale (k, v) = false) /\
  (foldl step (m, 0%nat) order).2 = (size m - size (foldl step (m, 0%nat) order).1)%nat.
Proof.
  intros Hperm.
  destruct (sweep_fold order m 0%nat) as [Hl Hs].
  - rewrite Hperm. apply NoDup_fst_map_to_list.
  - intros [k v] Hkv. rewrite Hperm in Hkv. apply elem_of_map_to_list in Hkv. exact Hkv.
  - split; [|lia]. intros k v. rewrite Hl. split.
    + intros [Hk Hst]. split; [exact Hk|]. apply Hst. rewrite Hperm.
      apply elem_of_map_to_list. exact Hk.
    + intros [Hk Hst]. split; [exact Hk|]. intros _. exact Hst.
Qed.

End SweepFacts.

Section CleanExpiredFacts.
Import Wire.

(** X9: the sweep of the MAC table removes exactly the entries that are
    not local and were last seen before [now] minus five minutes: local
    entries and entries seen since then stay as they are, whatever the
    order of the loop, and the number returned is the number of entries
    removed. *)
Theorem Switch_CleanExpired_spec order (sw : VL2.Switch) (now : Z) :
  VL2.visits order (VL2.macTable sw) ->
  let r := VL2.CleanExpired order sw now in
  (forall k e, VL2.macTable r.1 !! k = Some e <->
     VL2.macTable sw !! k = Some e /\
     (VL2.IsLocal e = true \/ now - VL2.MACTableExpiry <= VL2.LastSeen e)) /\
  r.2 = (size (VL2.macTable sw) - size (VL2.macTable r.1))%nat /\
  VL2.networkID r.1 = VL2.networkID sw.
Proof.
  intros Hvis. cbv zeta. unfold VL2.CleanExpired. cbn [fst snd VL2.macTable VL2.networkID].
  match goal with
  | |- context [foldl ?f _ _] =>
      destruct (sweep_map
        (fun kv : VL2.MACKey * VL2.MACEntry =>
           (VL2.LastSeen kv.2 <? now - VL2.MACTableExpiry) && negb (VL2.IsLocal kv.2))
        f (fun _ _ => eq_refl) order (VL2.macTable sw) Hvis) as [Hl Hs]
  end.
  split; [|split; [exact Hs|reflexivity]].
  intros k e. rewrite Hl. cbn [snd].
  destruct (Z.ltb_spec (VL2.LastSeen e) (now - VL2.MACTableExpiry));
    destruct (VL2.IsLocal e); cbn [andb negb]; intuition (try lia; try discriminate).
Qed.

(** X10: the sweep of the ARP cache removes exactly the entries last seen
    before [now] minus five minutes and returns their number.  An entry
    that [HandleARP] would still answer from at this time, being less
    than five minutes old, is never removed. *)
Theorem ARP_CleanExpired_spec order (a : ARP.ARPProxy) (now : Z) :
  ARP.visits order (ARP.cache a) ->
  let r := ARP.CleanExpired order a now in
  (forall k e, ARP.cache r.1 !! k = Some e <->
     ARP.cache a !! k = Some e /\ now - ARP.ARPCacheExpiry <= ARP.LastSeen e) /\
  r.2 = (size (ARP.cache a) - size (ARP.cache r.1))%nat /\
  (forall k e, ARP.cache a !! k = Some e ->
     now - ARP.LastSeen e < ARP.ARPCacheExpiry -> ARP.cache r.1 !! k = Some e).
Proof.
  intros Hvis. cbv zeta. unfold ARP.CleanExpired. cbn [fst snd ARP.cache].
  match goal with
  | |- context [foldl ?f _ _] =>
      destruct (sweep_map
        (fun kv : ARP.IPv4 * ARP.ARPEntry =>
           ARP.LastSeen kv.2 <? now - ARP.ARPCacheExpiry)
        f (fun _ _ => eq_refl) order (ARP.cache a) Hvis) as [Hl Hs]
  end.
  assert (forall k e, ARP.cache
            {| ARP.cache := (foldl
                 (fun (acc : gmap ARP.IPv4 ARP.ARPEntry * nat) kv =>
                    if ARP.LastSeen kv.2 <? now - ARP.ARPCacheExpiry
                    then (delete kv.1 acc.1, S acc.2) else acc)
                 (ARP.cache a, 0%nat) order).1 |} !! k = Some e <->
          ARP.cache a !! k = Some e /\ now - ARP.ARPCacheExpiry <= ARP.LastSeen e) as Hchar.
  { intros k e. cbn [ARP.cache]. rewrite Hl. cbn [snd].
    destruct (Z.ltb_spec (ARP.LastSeen e) (now - ARP.ARPCacheExpiry));
      intuition (try lia; try discriminate). }
  split; [exact Hchar|]. split; [exact Hs|].
  intros k e Hk Hfresh. apply Hchar. split; [exact Hk|lia].
Qed.

End CleanExpiredFacts.

(** ** More on the ARP proxy *)
Section ARPCacheFacts.
Import Wire VL2 ARP.

(** What the loop of [ARPProxy.evictOldest] has found after visiting [seen]. *)
Definition arp_scan_found (seen : list (IPv4 * ARPEntry)) (s : ARP.scan) : Prop :=
  if ARP.first s then seen = []
  else exists e, (ARP.oldestKey s, e) ∈ seen /\ LastSeen e = ARP.oldestTime s /\
                 forall kv, kv ∈ seen -> ARP.oldestTime s <= LastSeen kv.2.

Lemma arp_scan_step_found seen s kv :
  arp_scan_found seen s -> arp_scan_found (seen ++ [kv]) (ARP.scan_step s kv).
Proof.
  unfold arp_scan_found, ARP.scan_step. destruct (ARP.first s) eqn:Hf; cbn [orb].
  - intros ->. cbn [ARP.first ARP.oldestKey ARP.oldestTime]. exists kv.2.
    split; [destruct kv; cbn; set_solver|]. split; [reflexivity|].
    intros kv' Hin. apply list_elem_of_singleton in Hin. subst kv'. lia.
  - intros (e & He & Ht & Hmin).
    destruct (Z.ltb_spec (LastSeen kv.2) (ARP.oldestTime s)) as [Hlt|Hge].
    + cbn [ARP.first ARP.oldestKey ARP.oldestTime]. exists kv.2.
      split; [destruct kv; cbn; set_solver|]. split; [reflexivity|].
      intros kv' Hin. apply elem_of_app in Hin as [Hin|Hin].
      * specialize (Hmin kv' Hin). lia.
      * apply list_elem_of_singleton in Hin. subst kv'. lia.
    + rewrite Hf. exists e. split; [set_solver|]. split; [exact Ht|].
      intros kv' Hin. apply elem_of_app in Hin as [Hin|Hin].
      * exact (Hmin kv' Hin).
      * apply list_elem_of_singleton in Hin. subst kv'. lia.
Qed.

Lemma arp_scan_fold_found order : forall seen s,
  arp_scan_found seen s ->
  arp_scan_found (seen ++ order) (foldl ARP.scan_step s order).
Proof.
  induction order as [|kv order IH]; intros seen s Hs; cbn [foldl].
  - rewrite app_nil_r. exact Hs.
  - replace (seen ++ kv :: order) with ((seen ++ [kv]) ++ order)
      by (rewrite <- app_assoc; reflexivity).
    apply IH. apply arp_scan_step_found. exact Hs.
Qed.

Lemma arp_evictOldest_spec order (tbl : gmap IPv4 ARPEntry) :
  ARP.visits order tbl -> tbl <> ∅ ->
  exists k e, tbl !! k = Some e /\
    (forall k' e', tbl !! k' = Some e' -> LastSeen e <= LastSeen e') /\
    ARP.evictOldest order tbl = delete k tbl.
Proof.
  intros Hvis Hne. unfold ARP.evictOldest.
  pose proof (arp_scan_fold_found order [] ARP.scan_init eq_refl) as Hfound.
  rewrite app_nil_l in Hfound. unfold arp_scan_found in Hfound.
  destruct (ARP.first (foldl ARP.scan_step ARP.scan_init order)) eqn:Hf; cbn [negb].
  - exfalso. apply Hne. apply map_to_list_empty_iff.
    unfold ARP.visits in Hvis. rewrite Hfound in Hvis.
    symmetry in Hvis. apply Permutation_nil_r in Hvis. exact Hvis.
  - destruct Hfound as (e & He & Ht & Hmin).
    exists (ARP.oldestKey (foldl ARP.scan_step ARP.scan_init order)), e.
    unfold ARP.visits in Hvis. split; [|split; [|reflexivity]].
    + apply elem_of_map_to_list. rewrite <- Hvis. exact He.
    + intros k' e' Hk'. rewrite Ht.
      apply (Hmin (k', e')). rewrite Hvis. apply elem_of_map_to_list. exact Hk'.
Qed.

(** X11: at capacity [ARPProxy.learn] evicts exactly one entry, one with
    the oldest last-seen time, and then stores the binding, the MAC cut
    or padded to six bytes; a cache of at most 1024 entries stays at most
    1024 entries large. *)
Theorem ARP_learn_evicts_oldest order (a : ARPProxy) (ip : IPv4)
  (mac : list byte) (now : Z) :
  ARP.visits order (cache a) ->
  ((ARPCacheMaxSize <= size (cache a))%nat ->
   exists k e, cache a !! k = Some e /\
     (forall k' e', cache a !! k' = Some e' -> LastSeen e <= LastSeen e') /\
     cache (ARP.learn order a ip mac now) =
       <[ip := {| MAC := copied 6 mac; LastSeen := now |}]> (delete k (cache a))) /\
  ((size (cache a) < ARPCacheMaxSize)%nat ->
   cache (ARP.learn order a ip mac now) =
     <[ip := {| MAC := copied 6 mac; LastSeen := now |}]> (cache a)) /\
  ((size (cache a) <= ARPCacheMaxSize)%nat ->
   (size (cache (ARP.learn order a ip mac now)) <= ARPCacheMaxSize)%nat).
Proof.
  intros Hvis.
  assert ((ARPCacheMaxSize <= size (cache a))%nat ->
          exists k e, cache a !! k = Some e /\
            (forall k' e', cache a !! k' = Some e' -> LastSeen e <= LastSeen e') /\
            cache (ARP.learn order a ip mac now) =
              <[ip := {| MAC := copied 6 mac; LastSeen := now |}]> (delete k (cache a)))
    as Hfull.
  { intros Hfull.
    assert (cache a <> ∅) as Hne.
    { intros Hempty. rewrite Hempty, map_size_empty in Hfull.
      unfold ARPCacheMaxSize in Hfull. lia. }
    destruct (arp_evictOldest_spec order (cache a) Hvis Hne) as (k & e & Hk & Hmin & Hev).
    exists k, e. split; [exact Hk|]. split; [exact Hmin|].
    unfold ARP.learn. cbn [cache].
    destruct (Nat.leb_spec ARPCacheMaxSize (size (cache a))) as [_|Hlt]; [|lia].
    rewrite Hev. reflexivity. }
  assert ((size (cache a) < ARPCacheMaxSize)%nat ->
          cache (ARP.learn order a ip mac now) =
            <[ip := {| MAC := copied 6 mac; LastSeen := now |}]> (cache a)) as Hbelow.
  { intros Hlt. unfold ARP.learn. cbn [cache].
    destruct (Nat.leb_spec ARPCacheMaxSize (size (cache a))) as [Hge|_]; [lia|].
    reflexivity. }
  split; [exact Hfull|]. split; [exact Hbelow|].
  intros Hsize.
  assert (0 < ARPCacheMaxSize)%nat as Hpos by (unfold ARPCacheMaxSize; lia).
  destruct (Nat.le_gt_cases ARPCacheMaxSize (size (cache a))) as [Hge|Hlt].
  - destruct (Hfull Hge) as (k & e & Hk & _ & ->).
    rewrite map_size_insert.
    assert (size (delete k (cache a)) = pred (size (cache a))) as Hdel
      by (apply map_size_delete_Some; eauto).
    destruct (delete k (cache a) !! ip); unfold id; lia.
  - rewrite (Hbelow Hlt). rewrite map_size_insert.
    destruct (cache a !! ip); unfold id; lia.
Qed.

(** X12: [HandleARP] returns a frame only for an IPv4-over-Ethernet
    request whose target is in the cache, the sender being learned, and
    was seen less than five minutes ago; replies, other operations,
    payloads under 28 bytes, other hardware or protocol types, misses and
    stale entries all give nil.  The frame returned is the 42-byte reply
    built from the cached MAC. *)
Theorem HandleARP_reply_only_if (e : env) (a : ARPProxy) (frame : EthernetFrame)
  (reply : list byte) :
  (HandleARP e a frame).2 = Some reply ->
  let payload := Payload frame in
  let senderMAC := slice 8 14 payload in
  let senderIP : IPv4 := copy_into 4 (slice 14 18 payload) in
  let targetIP : IPv4 := copy_into 4 (slice 24 28 payload) in
  let learned := ARP.learn (order1 e) a senderIP senderMAC (now1 e) in
  ipv4_arp payload /\
  Uint16BE (slice 6 8 payload) = ARPRequest /\
  (HandleARP e a frame).1 = learned /\
  exists entry,
    cache learned !! targetIP = Some entry /\
    now_since e - LastSeen entry < ARPCacheExpiry /\
    reply = buildARPReply frame (MAC entry) senderMAC senderIP targetIP /\
    length reply = 42%nat.
Proof.
  cbv zeta. unfold HandleARP, ipv4_arp.
  destruct (Nat.ltb_spec (length (Payload frame)) ARPHeaderSize) as [Hlt|Hge];
    [discriminate|].
  destruct (Z.eqb_spec (Uint16BE (slice 0 2 (Payload frame))) 1) as [Hh|_];
    [|discriminate].
  destruct (Z.eqb_spec (Uint16BE (slice 2 4 (Payload frame))) 2048) as [Hp|_];
    [|discriminate].
  destruct (Z.eqb_spec (byte.unsigned (at_index (Payload frame) 4)) 6) as [Hhl|_];
    [|discriminate].
  destruct (Z.eqb_spec (byte.unsigned (at_index (Payload frame) 5)) 4) as [Hpl|_];
    [|discriminate].
  cbn [negb orb].
  destruct (Z.eqb_spec (Uint16BE (slice 6 8 (Payload frame))) ARPRequest) as [Hop|_].
  - destruct (cache _ !! _) as [entry|] eqn:Hentry; [|discriminate].
    destruct (Z.ltb_spec (now_since e - LastSeen entry) ARPCacheExpiry) as [Hfresh|_];
      [|discriminate].
    cbn [fst snd]. intros Hr. injection Hr as <-.
    split; [repeat split; assumption|].
    split; [exact Hop|]. split; [reflexivity|].
    exists entry. split; [reflexivity|]. split; [exact Hfresh|].
    split; [reflexivity|]. apply buildARPReply_fields.
  - destruct (_ =? ARPReply); discriminate.
Qed.

(** X13: every ARP frame for IPv4 over Ethernet teaches the proxy the
    sender: afterwards the cache maps the sender's address to the
    sender's MAC, stamped with the time of the last [learn] (the second
    one for an ARP reply).  A payload that fails the header checks leaves
    the proxy as it was. *)
Theorem HandleARP_learns_sender (e : env) (a : ARPProxy) (frame : EthernetFrame) :
  let payload := Payload frame in
  let senderMAC := slice 8 14 payload in
  let senderIP : IPv4 := copy_into 4 (slice 14 18 payload) in
  (ipv4_arp payload ->
   cache (HandleARP e a frame).1 !! senderIP =
     Some {| MAC := senderMAC;
             LastSeen := if Uint16BE (slice 6 8 payload) =? ARPReply
                         then now2 e else now1 e |}) /\
  (~ ipv4_arp payload -> HandleARP e a frame = (a, None)).
Proof.
  cbv zeta. split.
  - intros (Hlen & Hh & Hp & Hhl & Hpl). unfold HandleARP.
    destruct (Nat.ltb_spec (length (Payload frame)) ARPHeaderSize) as [Hlt|_]; [lia|].
    rewrite Hh, Hp, Hhl, Hpl. cbn [Z.eqb Pos.eqb negb orb].
    assert (copied 6 (slice 8 14 (Payload frame)) = slice 8 14 (Payload frame)) as Ec.
    { apply copied_exact. unfold ARPHeaderSize in Hlen. rewrite slice_length; lia. }
    assert (forall order b now,
              cache (ARP.learn order b (copy_into 4 (slice 14 18 (Payload frame)))
                       (slice 8 14 (Payload frame)) now)
                !! copy_into 4 (slice 14 18 (Payload frame))
              = Some {| MAC := slice 8 14 (Payload frame); LastSeen := now |}) as Hlearn.
    { intros order b now. unfold ARP.learn. cbn [cache].
      rewrite lookup_insert_eq. unfold copied in Ec. rewrite Ec. reflexivity. }
    destruct (Z.eqb_spec (Uint16BE (slice 6 8 (Payload frame))) ARPRequest) as [Hop|Hnop].
    + rewrite Hop. cbn [Z.eqb Pos.eqb ARPRequest ARPReply].
      destruct (cache _ !! copy_into 4 (slice 24 28 (Payload frame))) as [entry|];
        [destruct (_ <? _)|]; cbn [fst]; apply Hlearn.
    + destruct (Z.eqb_spec (Uint16BE (slice 6 8 (Payload frame))) ARPReply) as [Hrep|_];
        cbn [fst]; apply Hlearn.
  - intros Hnot. unfold HandleARP.
    destruct (Nat.ltb_spec (length (Payload frame)) ARPHeaderSize) as [Hlt|Hge];
      [reflexivity|].
    destruct (Z.eqb_spec (Uint16BE (slice 0 2 (Payload frame))) 1) as [Hh|_];
      [|reflexivity].
    destruct (Z.eqb_spec (Uint16BE (slice 2 4 (Payload frame))) 2048) as [Hp|_];
      [|reflexivity].
    destruct (Z.eqb_spec (byte.unsigned (at_index (Payload frame) 4)) 6) as [Hhl|_];
      [|reflexivity].
    destruct (Z.eqb_spec (byte.unsigned (at_index (Payload frame) 5)) 4) as [Hpl|_];
      [|reflexivity].
    exfalso. apply Hnot. unfold ipv4_arp. repeat split; assumption.
Qed.

End ARPCacheFacts.

(** ** Comparing byte strings *)
Section CompareFacts.
Import Wire VL1.

Lemma or_byte_zero (v x : byte) :
  or_byte v x = Byte.x00 <-> v = Byte.x00 /\ x = Byte.x00.
Proof.
  unfold or_byte. split.
  - intros H. apply (f_equal byte.unsigned) in H.
    rewrite byte.unsigned_of_Z in H. unfold byte.wrap in H.
    change (byte.unsigned Byte.x00) with 0 in H.
    rewrite <- Z.land_ones in H by lia.
    rewrite Z.land_lor_distr_l in H.
    rewrite !Z.land_ones in H by lia.
    pose proof (byte.wrap_unsigned v) as Hv. pose proof (byte.wrap_unsigned x) as Hx.
    unfold byte.wrap in Hv, Hx. rewrite Hv, Hx in H.
    apply Z.lor_eq_0_iff in H as [H1 H2].
    split; apply byte.unsigned_inj; assumption.
  - intros [-> ->]. reflexivity.
Qed.

Lemma xor_zero (a b : byte) : byte.xor a b = Byte.x00 <-> a = b.
Proof.
  unfold byte.xor. split.
  - intros H. apply (f_equal byte.unsigned) in H.
    rewrite byte.unsigned_of_Z in H. unfold byte.wrap in H.
    rewrite (Z.mod_small _ _ (lxor_byte_range a b)) in H.
    change (byte.unsigned Byte.x00) with 0 in H.
    apply Z.lxor_eq in H. apply byte.unsigned_inj. exact H.
  - intros ->. rewrite Z.lxor_nilpotent. reflexivity.
Qed.

Lemma differences_fold (l : list (byte * byte)) : forall v : byte,
  foldl (fun v (xy : byte * byte) => or_byte v (byte.xor xy.1 xy.2)) v l = Byte.x00
  <-> v = Byte.x00 /\ Forall (fun xy : byte * byte => xy.1 = xy.2) l.
Proof.
  induction l as [|xy l IH]; intros v; cbn [foldl].
  - split; [intros ->; split; [reflexivity|constructor]|intros [-> _]; reflexivity].
  - rewrite IH, or_byte_zero, xor_zero, Forall_cons. tauto.
Qed.

Lemma zip_same (a : list byte) : forall b : list byte,
  length a = length b ->
  (Forall (fun xy : byte * byte => xy.1 = xy.2) (zip a b) <-> a = b).
Proof.
  induction a as [|x a IH]; intros [|y b] Hlen; cbn in Hlen; try discriminate.
  - split; [reflexivity|constructor].
  - cbn [zip zip_with]. rewrite Forall_cons. cbn [fst snd].
    rewrite (IH b) by lia. split; [intros [-> ->]; reflexivity|].
    intros Heq. injection Heq as -> ->. split; reflexivity.
Qed.

(** X14: [constantTimeEqual] decides equality of byte strings: it
    returns true exactly when the two slices have the same length and
    the same bytes. *)
Theorem constantTimeEqual_spec (a b : list byte) :
  constantTimeEqual a b = true <-> a = b.
Proof.
  unfold constantTimeEqual.
  destruct (Nat.eqb_spec (length a) (length b)) as [Hlen|Hlen]; cbn [negb].
  - rewrite bool_decide_eq_true, differences_fold, (zip_same a b Hlen). tauto.
  - split; [discriminate|]. intros ->. contradiction.
Qed.

End CompareFacts.

(** ** Replayed and reordered messages *)
Section ReplayFacts.
Import Wire Primitives VL1.
Context `{!AEAD}.

Lemma Decrypt_keeps_keys (c : NoiseCipher) (data : list byte) :
  recvKey (Decrypt c data).1 = recvKey c /\
  sendKey (Decrypt c data).1 = sendKey c /\
  sendNonce (Decrypt c data).1 = sendNonce c.
Proof.
  unfold Decrypt. destruct (_ <? _)%nat; [auto|].
  destruct (chacha20poly1305_New _); [|auto].
  destruct (Open _ _ _ _); auto.
Qed.

Lemma Decrypt_verdict (c c' : NoiseCipher) (data : list byte) :
  recvKey c = recvKey c' -> (Decrypt c data).2 = (Decrypt c' data).2.
Proof.
  intros Hk. unfold Decrypt. rewrite Hk. destruct (_ <? _)%nat; [reflexivity|].
  destruct (chacha20poly1305_New _); [|reflexivity].
  destruct (Open _ _ _ _); reflexivity.
Qed.

Lemma decrypt_all_keeps_keys (seen : list (list byte)) : forall c : NoiseCipher,
  recvKey (decrypt_all c seen) = recvKey c /\
  sendKey (decrypt_all c seen) = sendKey c /\
  sendNonce (decrypt_all c seen) = sendNonce c.
Proof.
  unfold decrypt_all.
  induction seen as [|d seen IH]; intros c; cbn [foldl]; [auto|].
  destruct (IH (Decrypt c d).1) as (-> & -> & ->). apply Decrypt_keeps_keys.
Qed.

(** X15: [Decrypt] has no replay protection.  Whatever the cipher has
    received before, be it the same message or messages with higher
    counters, [Decrypt] returns the same plaintext or the same error as
    on a fresh cipher with the same receive key: the high-water-mark
    [recvNonce] is written and never consulted.  Receiving never changes
    the keys nor the send counter. *)
Theorem Decrypt_accepts_replays (c : NoiseCipher) (seen : list (list byte))
  (data : list byte) :
  (Decrypt (decrypt_all c seen) data).2 =
    (Decrypt (NewNoiseCipher (sendKey c) (recvKey c)) data).2 /\
  recvKey (decrypt_all c seen) = recvKey c /\
  sendKey (decrypt_all c seen) = sendKey c /\
  sendNonce (decrypt_all c seen) = sendNonce c.
Proof.
  split; [|apply decrypt_all_keeps_keys].
  apply Decrypt_verdict.
  destruct (decrypt_all_keeps_keys seen c) as (-> & _). reflexivity.
Qed.

End ReplayFacts.

(** ** Node addresses *)
Section IdentityFacts.
Import Wire Primitives Identity.

Lemma Uint64_eq (a : Address) : Uint64 a = le_combine (rev (vec_to_list a)).
Proof.
  unfold Uint64, Uint64BE.
  rewrite take_ge by (rewrite length_app, length_vec_to_list; cbn; lia).
  rewrite rev_app_distr. apply (le_combine_app_0 _ 3).
Qed.

Lemma Uint64_inj (a b : Address) : Uint64 a = Uint64 b -> a = b.
Proof.
  rewrite !Uint64_eq. intros H. apply le_combine_inj in H.
  - apply vec_to_list_inj2. rewrite <- (rev_involutive (vec_to_list a)), H.
    apply rev_involutive.
  - rewrite !length_rev, !length_vec_to_list. reflexivity.
Qed.

Lemma Uint64_first_byte (a : Address) :
  Z.shiftr (Uint64 a) 32 = byte.unsigned (a !!! 0%fin).
Proof.
  rewrite Uint64_eq. inv_vec a; intros b0 b1 b2 b3 b4.
  change (rev (vec_to_list [#b0; b1; b2; b3; b4])) with ([b4; b3; b2; b1] ++ [b0]).
  rewrite le_combine_app, le_combine_1.
  change (Z.of_nat (length [b4; b3; b2; b1]) * 8) with 32.
  rewrite Z.shiftr_lor, Z.shiftr_shiftl_l, Z.sub_diag, Z.shiftl_0_r by lia.
  pose proof (le_combine_bound [b4; b3; b2; b1]) as Hb.
  change (2 ^ (8 * Z.of_nat (length [b4; b3; b2; b1]))) with (2 ^ 32) in Hb.
  rewrite (Z.shiftr_div_pow2 (le_combine _)) by lia.
  rewrite Z.div_small by exact Hb. reflexivity.
Qed.

(** X16: [Address.Uint64] is a faithful key: it is below [2 ^ 40],
    distinct addresses have distinct values, and it is zero exactly for
    the zero address. *)
Theorem Address_Uint64_spec (a b : Address) :
  0 <= Uint64 a < 2 ^ 40 /\
  (Uint64 a = Uint64 b -> a = b) /\
  (Uint64 a = 0 <-> IsZero a = true).
Proof.
  split; [|split; [apply Uint64_inj|]].
  - rewrite Uint64_eq.
    pose proof (le_combine_bound (rev (vec_to_list a))) as Hb.
    rewrite length_rev, length_vec_to_list in Hb. exact Hb.
  - unfold IsZero. rewrite bool_decide_eq_true. split.
    + intros H0. apply Uint64_inj. rewrite H0. reflexivity.
    + intros ->. reflexivity.
Qed.

Context `{!Blake2s}.

(** X17: [AddressFromPublicKey] never returns a reserved address: the
    first byte of its result is not zero, whatever the key, so the
    result is not the zero address (the one the switch stores for local
    entries) and, as a number, is at least [2 ^ 32]. *)
Theorem AddressFromPublicKey_not_zero (pubKey : list byte) :
  let addr := AddressFromPublicKey pubKey in
  addr !!! 0%fin <> Byte.x00 /\
  IsZero addr = false /\
  addr <> zeroAddress /\
  2 ^ 32 <= Uint64 addr.
Proof.
  cbv zeta.
  assert (AddressFromPublicKey pubKey !!! 0%fin <> Byte.x00) as Hfirst.
  { unfold AddressFromPublicKey. cbv zeta.
    destruct (decide (_ = Byte.x00)) as [Hz|Hnz]; [|exact Hnz].
    rewrite vlookup_insert. discriminate. }
  assert (AddressFromPublicKey pubKey <> zeroAddress) as Hne.
  { intros Heq. apply Hfirst. rewrite Heq. reflexivity. }
  split; [exact Hfirst|]. split; [|split; [exact Hne|]].
  - unfold IsZero. apply bool_decide_eq_false. exact Hne.
  - pose proof (Uint64_first_byte (AddressFromPublicKey pubKey)) as Hs.
    pose proof (byte.unsigned_range (AddressFromPublicKey pubKey !!! 0%fin)) as Hr.
    assert (byte.unsigned (AddressFromPublicKey pubKey !!! 0%fin) <> 0) as Hu.
    { intros H0. apply Hfirst. apply byte.unsigned_inj. exact H0. }
    rewrite Z.shiftr_div_pow2 in Hs by lia.
    destruct (Z.lt_ge_cases (Uint64 (AddressFromPublicKey pubKey)) (2 ^ 32)) as [Hlt|Hge];
      [|exact Hge].
    exfalso. apply Hu. rewrite <- Hs. apply Z.div_small.
    split; [|exact Hlt]. rewrite Uint64_eq. apply le_combine_bound.
Qed.

End IdentityFacts.

(** ** Looking peers up by endpoint, collecting dead peers *)
Section PeerTableFacts.
Import Wire VL1.
Context `{!NetIP}.

Lemma GetPeerByEndpoint_Some order addr kp :
  GetPeerByEndpoint order addr = Some kp -> kp ∈ order /\ at_endpoint kp.2 addr = true.
Proof.
  induction order as [|kp0 order IH]; cbn [GetPeerByEndpoint]; [discriminate|].
  destruct (at_endpoint kp0.2 addr) eqn:Hm.
  - intros Heq. injection Heq as <-. split; [left|exact Hm].
  - intros Heq. destruct (IH Heq) as [Hin Hat]. split; [right; exact Hin|exact Hat].
Qed.

Lemma GetPeerByEndpoint_None order addr :
  GetPeerByEndpoint order addr = None <->
  forall kp, kp ∈ order -> at_endpoint kp.2 addr = false.
Proof.
  induction order as [|kp0 order IH]; cbn [GetPeerByEndpoint].
  - split; [|reflexivity]. intros _ kp Hin. apply not_elem_of_nil in Hin. contradiction.
  - destruct (at_endpoint kp0.2 addr) eqn:Hm.
    + split; [discriminate|]. intros Hall.
      rewrite (Hall kp0 ltac:(left)) in Hm. discriminate.
    + rewrite IH. split.
      * intros Hall kp Hin. apply elem_of_cons in Hin as [->|Hin]; [exact Hm|].
        exact (Hall kp Hin).
      * intros Hall kp Hin. apply Hall. right. exact Hin.
Qed.

(** X18: [GetPeerByEndpoint] returns an entry of the table whose
    endpoint is set, has the port of the address and an IP equal to its
    IP; it returns nil exactly when no entry matches.  When exactly one
    entry matches, that entry is returned whatever the order in which
    the table is visited. *)
Theorem GetPeerByEndpoint_spec order (pm : PeerManager) (addr : UDPAddr) :
  peers_visits order pm ->
  (forall k p, GetPeerByEndpoint order addr = Some (k, p) ->
     peers pm !! k = Some p /\ at_endpoint p addr = true) /\
  (GetPeerByEndpoint order addr = None <->
     forall k p, peers pm !! k = Some p -> at_endpoint p addr = false) /\
  (forall k p, peers pm !! k = Some p -> at_endpoint p addr = true ->
     (forall k' p', peers pm !! k' = Some p' -> at_endpoint p' addr = true -> k' = k) ->
     GetPeerByEndpoint order addr = Some (k, p)).
Proof.
  unfold peers_visits. intros Hvis.
  assert (forall k p, (k, p) ∈ order <-> peers pm !! k = Some p) as Hin.
  { intros k p. rewrite Hvis. apply elem_of_map_to_list. }
  split; [|split].
  - intros k p Hget. apply GetPeerByEndpoint_Some in Hget as [Hmem Hat].
    split; [apply Hin; exact Hmem|exact Hat].
  - rewrite GetPeerByEndpoint_None. split.
    + intros Hall k p Hk. apply (Hall (k, p)). apply Hin. exact Hk.
    + intros Hall [k p] Hmem. apply (Hall k p). apply Hin. exact Hmem.
  - intros k p Hk Hat Huniq.
    destruct (GetPeerByEndpoint order addr) as [[k' p']|] eqn:Hget.
    + apply GetPeerByEndpoint_Some in Hget as [Hmem Hat'].
      apply Hin in Hmem. cbn [snd] in Hat'.
      assert (k' = k) as -> by (apply (Huniq k' p'); assumption).
      congruence.
    + exfalso. rewrite GetPeerByEndpoint_None in Hget.
      assert ((k, p) ∈ order) as Hmem by (apply Hin; exact Hk).
      specialize (Hget (k, p) Hmem). cbn [snd] in Hget. congruence.
Qed.

(** X19: [CleanDead] removes exactly the peers that are in state
    [PeerStateDead] and were last seen at least 60 seconds before the
    clock reading of their test, and returns their number.  A table
    without a peer in state [PeerStateDead] is returned unchanged with
    count 0, however long its peers have been silent. *)
Theorem CleanDead_spec order (pm : PeerManager) (now : Identity.Address -> Z) :
  peers_visits order pm ->
  (forall k p, peers (CleanDead order pm now).1 !! k = Some p <->
     peers pm !! k = Some p /\
     (State p <> PeerStateDead \/ now k - LastSeen p < PeerTimeout)) /\
  (CleanDead order pm now).2 =
    (size (peers pm) - size (peers (CleanDead order pm now).1))%nat /\
  ((forall k p, peers pm !! k = Some p -> State p <> PeerStateDead) ->
   CleanDead order pm now = (pm, 0%nat)).
Proof.
  intros Hvis. unfold CleanDead. cbv zeta. cbn [fst snd peers].
  pose proof (sweep_map
    (fun kp : Identity.Address * Peer =>
       negb (IsAlive kp.2 (now kp.1)) && bool_decide (State kp.2 = PeerStateDead))
    _ (fun acc kv => eq_refl) order (peers pm) Hvis) as [Hl Hs].
  assert (forall k p,
    negb (IsAlive p (now k)) && bool_decide (State p = PeerStateDead) = false <->
    (State p <> PeerStateDead \/ now k - LastSeen p < PeerTimeout)) as Hstale.
  { intros k p. unfold IsAlive.
    destruct (Z.ltb_spec (now k - LastSeen p) PeerTimeout) as [Hlt|Hge]; cbn [negb andb].
    - split; [intros _; right; exact Hlt|reflexivity].
    - rewrite bool_decide_eq_false. split; [intros Hn; left; exact Hn|].
      intros [Hn|Hlt]; [exact Hn|lia]. }
  split; [|split].
  - intros k p. rewrite Hl. cbn [fst snd]. rewrite Hstale. reflexivity.
  - exact Hs.
  - intros Hnodead.
    assert ((foldl (fun acc kp =>
               if negb (IsAlive kp.2 (now kp.1)) && bool_decide (State kp.2 = PeerStateDead)
               then (delete kp.1 acc.1, S acc.2) else acc)
              (peers pm, 0%nat) order).1 = peers pm) as Hsame.
    { apply map_eq. intros k. apply option_eq. intros p. rewrite Hl. cbn [fst snd].
      rewrite Hstale. split; [intros [Hk _]; exact Hk|].
      intros Hk. split; [exact Hk|]. left. exact (Hnodead k p Hk). }
    rewrite Hs, Hsame. rewrite Nat.sub_diag. destruct pm. reflexivity.
Qed.

End PeerTableFacts.

(** ** The agent as the sender of its switch *)
Section SenderFacts.
Import Wire Primitives VL1 Node Dataplane.
Context `{!AEAD} `{!Blake2s} `{!NetIP}.

Lemma set_cipher_same (p : Peer) (c : NoiseCipher) :
  cipher p = Some c -> set_cipher p c = p.
Proof. destruct p. cbn. intros ->. reflexivity. Qed.

(** The cipher after one more [Encrypt]. *)
Definition advanced (c : NoiseCipher) : NoiseCipher :=
  {| sendKey := sendKey c; recvKey := recvKey c;
     sendNonce := wrap64 (sendNonce c + 1); recvNonce := recvNonce c |}.

(** The payload of a data packet: counter, ciphertext and tag. *)
Definition sealed (c : NoiseCipher) (frame : list byte) : list byte :=
  let counter := wrap64 (wrap64 (sendNonce c + 1) - 1) in
  PutUint64LE counter ++ Seal (vec_to_list (sendKey c)) (nonce_of counter) frame [].

Lemma Peer_Encrypt_eq (p : Peer) (frame : list byte) (c : NoiseCipher) :
  cipher p = Some c ->
  Peer_Encrypt p frame = (set_cipher p (advanced c), inl (sealed c frame)).
Proof.
  intros Hc. unfold Peer_Encrypt. rewrite Hc, Encrypt_eq. reflexivity.
Qed.

Lemma sealed_length (c : NoiseCipher) (frame : list byte) :
  length (sealed c frame) = (length frame + 24)%nat.
Proof.
  unfold sealed. cbv zeta. unfold PutUint64LE.
  rewrite length_app, length_le_split.
  rewrite Seal_length by (apply length_vec_to_list || apply nonce_of_length).
  unfold Overhead. lia.
Qed.

Lemma sealed_wf (c : NoiseCipher) (frame : list byte) :
  cipher_wf c ->
  sealed c frame =
  PutUint64LE (sendNonce c) ++
  Seal (vec_to_list (sendKey c)) (nonce_of (sendNonce c)) frame [].
Proof. intros [Hs _]. unfold sealed. cbv zeta. rewrite (fetch_counter _ Hs). reflexivity. Qed.

Lemma data_packet_length (networkID : Z) (payload : list byte) :
  length (Packet_Encode (NewDataPacket networkID payload)) = (8 + length payload)%nat.
Proof. unfold Packet_Encode. rewrite length_app, Header_Encode_length. reflexivity. Qed.

Lemma IsConnected_cipher (p : Peer) :
  IsConnected p = true -> exists c, cipher p = Some c.
Proof.
  unfold IsConnected. destruct (cipher p) as [c|]; [eauto|].
  rewrite andb_false_r. discriminate.
Qed.

Lemma store_peer_other (a : Agent) (k k' : Identity.Address) (p : Peer) :
  k' <> k -> GetPeer (agent_peers (store_peer a k p)) k' = GetPeer (agent_peers a) k'.
Proof. intros Hne. unfold GetPeer, store_peer. cbn. apply lookup_insert_ne. congruence. Qed.

Lemma store_peer_same (a : Agent) (k : Identity.Address) (p : Peer) :
  GetPeer (agent_peers (store_peer a k p)) k = Some p.
Proof. unfold GetPeer, store_peer. cbn. apply lookup_insert_eq. Qed.

(** X20: [Agent.SendToPeer] fails without sending when the peer is
    unknown or not connected.  For a connected peer it sends exactly one
    datagram, to the peer's endpoint: the 8-byte header (version 1, type
    data, the network id), the 8-byte counter and the sealed frame, 32
    bytes more than the frame.  Only the send counter of that peer
    changes, and the error returned is the transport's. *)
Theorem SendToPeer_spec (a : Agent) (peerAddr : Identity.Address) (networkID : Z)
  (frame : list byte) (sent : bool) :
  (GetPeer (agent_peers a) peerAddr = None ->
   SendToPeer a peerAddr networkID frame sent = (a, [], Some (ErrUnknownPeer peerAddr))) /\
  (forall peer, GetPeer (agent_peers a) peerAddr = Some peer ->
     IsConnected peer = false ->
     SendToPeer a peerAddr networkID frame sent =
       (a, [], Some (ErrPeerNotConnected peerAddr))) /\
  (forall peer, GetPeer (agent_peers a) peerAddr = Some peer ->
     IsConnected peer = true ->
     exists c d,
       cipher peer = Some c /\
       SendToPeer a peerAddr networkID frame sent =
         (store_peer a peerAddr (set_cipher peer (advanced c)), [d],
          if sent then None else Some ErrTransport) /\
       dst d = Endpoint peer /\
       length (bytes d) = (length frame + 32)%nat /\
       (cipher_wf c ->
        bytes d =
          [Version; PacketTypeData] ++ PutUint32BE networkID ++ [Byte.x00; Byte.x00] ++
          PutUint64LE (sendNonce c) ++
          Seal (vec_to_list (sendKey c)) (nonce_of (sendNonce c)) frame [])).
Proof.
  split; [|split].
  - intros Hg. unfold SendToPeer. rewrite Hg. reflexivity.
  - intros peer Hg Hc. unfold SendToPeer. rewrite Hg, Hc. reflexivity.
  - intros peer Hg Hc. destruct (IsConnected_cipher peer Hc) as [c Hcipher].
    exists c. eexists. split; [exact Hcipher|].
    unfold SendToPeer. rewrite Hg, Hc. cbn [negb].
    rewrite (Peer_Encrypt_eq peer frame c Hcipher).
    split; [reflexivity|]. cbn [dst bytes SendPacket Endpoint set_cipher].
    split; [reflexivity|]. split.
    + rewrite data_packet_length, sealed_length. lia.
    + intros Hwf. rewrite (sealed_wf c frame Hwf). reflexivity.
Qed.

(** The peers [BroadcastToPeers] sends to. *)
Definition targets (order : list (Identity.Address * Peer))
  (excludePeer : Identity.Address) : list (Identity.Address * Peer) :=
  filter (fun kp => Address kp.2 <> excludePeer) (ConnectedPeers order).

Lemma broadcast_step_skip networkID frame (ex : Identity.Address)
  (acc : Agent * list sendto) (kp : Identity.Address * Peer) :
  Address kp.2 = ex -> broadcast_step networkID frame ex acc kp = acc.
Proof. intros Hex. unfold broadcast_step. rewrite decide_True by exact Hex. reflexivity. Qed.

Lemma broadcast_step_send networkID frame (ex : Identity.Address)
  (acc : Agent * list sendto) (kp : Identity.Address * Peer) (c : NoiseCipher) :
  Address kp.2 <> ex -> cipher kp.2 = Some c ->
  broadcast_step networkID frame ex acc kp =
    (store_peer acc.1 kp.1 (set_cipher kp.2 (advanced c)),
     acc.2 ++ [SendPacket (NewDataPacket networkID (sealed c frame)) (Endpoint kp.2)]).
Proof.
  intros Hex Hc. unfold broadcast_step. rewrite decide_False by exact Hex.
  rewrite (Peer_Encrypt_eq kp.2 frame c Hc). reflexivity.
Qed.

Lemma broadcast_fold (networkID : Z) (frame : list byte) (ex : Identity.Address)
  (l : list (Identity.Address * Peer)) : forall acc : Agent * list sendto,
  Forall (fun kp => IsConnected kp.2 = true) l ->
  let r := foldl (broadcast_step networkID frame ex) acc l in
  let sentto := filter (fun kp => Address kp.2 <> ex) l in
  dst <$> r.2 = (dst <$> acc.2) ++ ((fun kp => Endpoint kp.2) <$> sentto) /\
  (Forall (fun d => length (bytes d) = (length frame + 32)%nat) acc.2 ->
   Forall (fun d => length (bytes d) = (length frame + 32)%nat) r.2) /\
  (forall k, k ∉ sentto.*1 ->
     GetPeer (agent_peers r.1) k = GetPeer (agent_peers acc.1) k).
Proof.
  induction l as [|kp l IH]; intros acc Hconn; cbv zeta; cbn [foldl].
  - rewrite filter_nil, fmap_nil, app_nil_r. auto.
  - apply Forall_cons in Hconn as [Hc Hconn].
    destruct (IsConnected_cipher kp.2 Hc) as [c Hcipher].
    destruct (decide (Address kp.2 = ex)) as [Hex|Hex].
    + rewrite (broadcast_step_skip _ _ _ _ _ Hex).
      rewrite filter_cons_False by (intros Hn; exact (Hn Hex)).
      exact (IH acc Hconn).
    + rewrite (broadcast_step_send _ _ _ _ _ c Hex Hcipher).
      rewrite filter_cons_True by exact Hex.
      specialize (IH (store_peer acc.1 kp.1 (set_cipher kp.2 (advanced c)),
                      acc.2 ++ [SendPacket (NewDataPacket networkID (sealed c frame))
                                           (Endpoint kp.2)]) Hconn).
      cbv zeta in IH. cbn [fst snd] in IH. destruct IH as (IHd & IHl & IHp).
      split; [|split].
      * rewrite IHd. rewrite fmap_app, fmap_cons. cbn [dst SendPacket].
        rewrite <- app_assoc. reflexivity.
      * intros Hacc. apply IHl. apply Forall_app. split; [exact Hacc|].
        apply Forall_singleton. cbn [bytes SendPacket].
        rewrite data_packet_length, sealed_length. lia.
      * intros k Hk. rewrite fmap_cons in Hk. apply not_elem_of_cons in Hk as [Hne Hk].
        rewrite (IHp k Hk). apply store_peer_other. exact Hne.
Qed.

(** X21: [Agent.BroadcastToPeers] sends one datagram to every peer
    that is connected and whose address differs from [excludePeer], in
    the order of the visit, each to that peer's endpoint and each 32
    bytes longer than the frame; the excluded peer and the peers that
    are not connected get nothing, and their entries are left as they
    were. *)
Theorem BroadcastToPeers_spec (order : list (Identity.Address * Peer)) (a : Agent)
  (networkID : Z) (frame : list byte) (excludePeer : Identity.Address) :
  let r := BroadcastToPeers order a networkID frame excludePeer in
  dst <$> r.2 = (fun kp => Endpoint kp.2) <$> targets order excludePeer /\
  Forall (fun d => length (bytes d) = (length frame + 32)%nat) r.2 /\
  (forall kp, kp ∈ targets order excludePeer <->
     kp ∈ order /\ IsConnected kp.2 = true /\ Address kp.2 <> excludePeer) /\
  (forall k, k ∉ (targets order excludePeer).*1 ->
     GetPeer (agent_peers r.1) k = GetPeer (agent_peers a) k).
Proof.
  cbv zeta. unfold BroadcastToPeers, targets.
  assert (Forall (fun kp : Identity.Address * Peer => IsConnected kp.2 = true)
            (ConnectedPeers order)) as Hconn.
  { apply Forall_forall. intros kp Hin. unfold ConnectedPeers in Hin.
    apply list_elem_of_filter in Hin as [Hc _]. exact Hc. }
  destruct (broadcast_fold networkID frame excludePeer (ConnectedPeers order)
              (a, []) Hconn) as (Hd & Hl & Hp).
  split; [exact Hd|]. split; [apply Hl; constructor|]. split; [|exact Hp].
  intros kp. unfold ConnectedPeers. rewrite !list_elem_of_filter. tauto.
Qed.

End SenderFacts.

(** ** Hellos and data packets between two agents *)
Section PathFacts.
Import Wire Primitives VL1 Node Dataplane.
Context `{!AEAD} `{!Blake2s} `{!NetIP}.

Lemma DecodePacket_Encode_fields (p : Packet) :
  hdr_Version (pkt_Header p) = Version ->
  exists h, DecodePacket (Packet_Encode p) =
              inl {| pkt_Header := h; pkt_Payload := pkt_Payload p |} /\
            hdr_Type h = hdr_Type (pkt_Header p).
Proof.
  destruct p as [[v t n r] payload]. cbn [pkt_Header hdr_Version]. intros ->.
  unfold DecodePacket, DecodeHeader, Packet_Encode, Header_Encode.
  unfold PutUint32BE, PutUint16BE, HeaderSize.
  cbn [pkt_Header pkt_Payload hdr_Version hdr_Type hdr_NetworkID hdr_Reserved
       app length Nat.ltb Nat.leb nth drop].
  rewrite decide_True by reflexivity. eexists. split; reflexivity.
Qed.

Lemma Decrypt_sealed (a b : NoiseCipher) (m : list byte) :
  cipher_wf a -> sendKey a = recvKey b ->
  Decrypt b (sealed a m) =
    ({| sendKey := sendKey b; recvKey := recvKey b; sendNonce := sendNonce b;
        recvNonce := if recvNonce b <=? sendNonce a
                     then wrap64 (sendNonce a + 1) else recvNonce b |}, Ok m).
Proof.
  intros Hwf Hkey. rewrite (sealed_wf a m Hwf). destruct Hwf as [Hs _].
  unfold Decrypt.
  assert (length (Seal (vec_to_list (sendKey a)) (nonce_of (sendNonce a)) m [])
          = (length m + 16)%nat) as Hseal.
  { apply Seal_length; [apply length_vec_to_list|apply nonce_of_length]. }
  destruct (Nat.ltb_spec
    (length (PutUint64LE (sendNonce a) ++
             Seal (vec_to_list (sendKey a)) (nonce_of (sendNonce a)) m []))
    (8 + NoiseTagSize)) as [Hlt|_].
  { rewrite length_app, Hseal in Hlt. unfold PutUint64LE in Hlt.
    rewrite length_le_split in Hlt. unfold NoiseTagSize, Overhead in Hlt. lia. }
  rewrite New_array32, Uint64LE_Put, (wrap64_small _ Hs).
  replace (drop 8 (PutUint64LE (sendNonce a) ++
             Seal (vec_to_list (sendKey a)) (nonce_of (sendNonce a)) m []))
    with (Seal (vec_to_list (sendKey a)) (nonce_of (sendNonce a)) m []).
  2:{ symmetry. apply drop_app_length'. symmetry. apply length_le_split. }
  rewrite <- Hkey.
  rewrite Open_Seal by (apply length_vec_to_list || apply nonce_of_length).
  reflexivity.
Qed.

(** The receiving cipher after it has accepted counter [n]. *)
Definition accepted (c : NoiseCipher) (n : Z) : NoiseCipher :=
  {| sendKey := sendKey c; recvKey := recvKey c; sendNonce := sendNonce c;
     recvNonce := if recvNonce c <=? n then wrap64 (n + 1) else recvNonce c |}.

(** X22: a data packet sent by [SendToPeer] reaches the switch of the
    receiver intact.  When the sender's cipher for the peer and the
    cipher of the peer the receiver finds at the source endpoint hold
    mirrored keys, [handleUDPPacket] on the datagram touches that peer,
    advances its receive mark and hands the very frame to
    [HandleRemoteFrame] under the address of that peer. *)
Theorem data_packet_delivery (e : env) (a b : Agent) (network : option VL2.Switch)
  (addrB kA : Identity.Address) (peerB peerA : Peer) (cA cB : NoiseCipher)
  (networkID : Z) (frame : list byte) (from : UDPAddr) (sentA : bool) :
  GetPeer (agent_peers a) addrB = Some peerB ->
  IsConnected peerB = true ->
  cipher peerB = Some cA ->
  cipher_wf cA ->
  GetPeerByEndpoint (peers_order e) from = Some (kA, peerA) ->
  cipher peerA = Some cB ->
  sendKey cA = recvKey cB ->
  exists d,
    (SendToPeer a addrB networkID frame sentA).1.2 = [d] /\
    dst d = Endpoint peerB /\
    handleUDPPacket e b network (bytes d) from =
      injectRemote e
        (store_peer b kA
           (set_cipher (Touch peerA (now1 e)) (accepted cB (sendNonce cA))))
        network (Address peerA) frame.
Proof.
  intros Hg Hconn HcA Hwf Hfind HcB Hkey.
  unfold SendToPeer. rewrite Hg, Hconn. cbn [negb].
  rewrite (Peer_Encrypt_eq peerB frame cA HcA).
  eexists. split; [reflexivity|]. split; [reflexivity|].
  cbn [bytes SendPacket].
  destruct (DecodePacket_Encode_fields (NewDataPacket networkID (sealed cA frame))
              eq_refl) as (h & Hdec & Htype).
  unfold handleUDPPacket. rewrite Hdec. cbn [pkt_Header pkt_Payload].
  rewrite Htype. cbn [NewDataPacket pkt_Header hdr_Type].
  rewrite decide_False by discriminate. rewrite decide_True by reflexivity.
  unfold handleDataPacket. rewrite Hfind. cbn [pkt_Payload].
  unfold Peer_Decrypt. cbn [Touch cipher]. rewrite HcB.
  change (pkt_Payload (NewDataPacket networkID (sealed cA frame)))
    with (sealed cA frame).
  rewrite (Decrypt_sealed cA cB frame Hwf Hkey). reflexivity.
Qed.

Lemma handleHandshake_unknown (a : Agent) (payload : list byte) (from : UDPAddr)
  (t1 t2 : Z) (sent : bool) :
  (32 <= length payload)%nat ->
  let remotePubKey := copy_into 32 (slice 0 32 payload) in
  let remoteAddr := Identity.AddressFromPublicKey (vec_to_list remotePubKey) in
  GetPeer (agent_peers a) remoteAddr = None ->
  handleHandshake a payload from t1 t2 sent =
    (store_peer
       (with_peers a
          {| peers := <[remoteAddr := NewPeer remoteAddr remotePubKey (Some from)]>
                        (peers (agent_peers a)) |})
       remoteAddr
       {| Address := remoteAddr; PublicKey := remotePubKey;
          State := PeerStateConnected; Endpoint := Some from;
          cipher := Some (derive_cipher (config_PSK a) (identity_PublicKey a)
                            remotePubKey);
          LastSeen := t1; LastSend := if sent then t2 else 0;
          LatencyMs := 0; HandshakeAt := 0 |},
     [Hello (Some from) (vec_to_list (identity_PublicKey a))]).
Proof.
  intros Hlen. cbv zeta. intros Hnew. unfold handleHandshake.
  destruct (Nat.ltb_spec (length payload) 32) as [Hlt|_]; [lia|].
  rewrite Hnew. unfold AddPeer. unfold GetPeer in Hnew. rewrite Hnew.
  unfold sendHello. destruct sent; reflexivity.
Qed.

(** X23: a hello from a key the agent does not know yet creates a
    connected peer without any further check: the peer is stored under
    the address derived from the first 32 bytes of the payload, with
    those bytes as public key, the source of the datagram as endpoint
    and the cipher derived from the PSK; exactly one hello carrying the
    agent's own public key goes back to the source, and no other peer is
    touched. *)
Theorem handleHandshake_new_peer (a : Agent) (payload : list byte) (from : UDPAddr)
  (t1 t2 : Z) (sent : bool) :
  (32 <= length payload)%nat ->
  let remotePubKey := copy_into 32 (slice 0 32 payload) in
  let remoteAddr := Identity.AddressFromPublicKey (vec_to_list remotePubKey) in
  GetPeer (agent_peers a) remoteAddr = None ->
  let r := handleHandshake a payload from t1 t2 sent in
  r.2 = [Hello (Some from) (vec_to_list (identity_PublicKey a))] /\
  GetPeer (agent_peers r.1) remoteAddr =
    Some {| Address := remoteAddr; PublicKey := remotePubKey;
            State := PeerStateConnected; Endpoint := Some from;
            cipher := Some (derive_cipher (config_PSK a) (identity_PublicKey a)
                              remotePubKey);
            LastSeen := t1; LastSend := if sent then t2 else 0;
            LatencyMs := 0; HandshakeAt := 0 |} /\
  (forall k, k <> remoteAddr ->
     GetPeer (agent_peers r.1) k = GetPeer (agent_peers a) k) /\
  identity_PublicKey r.1 = identity_PublicKey a /\
  config_PSK r.1 = config_PSK a.
Proof.
  intros Hlen. cbv zeta. intros Hnew.
  rewrite (handleHandshake_unknown a payload from t1 t2 sent Hlen Hnew).
  cbn [fst snd]. split; [reflexivity|]. split; [apply store_peer_same|].
  split; [|split; reflexivity].
  intros k Hk. rewrite store_peer_other by exact Hk.
  unfold GetPeer, with_peers. cbn [agent_peers peers].
  apply lookup_insert_ne. congruence.
Qed.

End PathFacts.

(** ** Bringing a link up *)
Section ExchangeFacts.
Import Wire Primitives VL1 Node Dataplane.
Context `{!AEAD} `{!Blake2s} `{!NetIP}.

Lemma hello_key (v : array 32) : copy_into 32 (slice 0 32 (vec_to_list v)) = v.
Proof.
  unfold slice. rewrite drop_0.
  rewrite take_ge by (rewrite length_vec_to_list; lia).
  apply copy_into_vec_to_list.
Qed.

Lemma addStaticPeer_new (a : Agent) (pubKey : array 32) (endpoint : UDPAddr)
  (t1 t2 : Z) (sent : bool) :
  let peerAddr := Identity.AddressFromPublicKey (vec_to_list pubKey) in
  GetPeer (agent_peers a) peerAddr = None ->
  addStaticPeer a pubKey endpoint t1 t2 sent =
    (store_peer
       (with_peers a
          {| peers := <[peerAddr := NewPeer peerAddr pubKey (Some endpoint)]>
                        (peers (agent_peers a)) |})
       peerAddr
       {| Address := peerAddr; PublicKey := pubKey;
          State := PeerStateConnected; Endpoint := Some endpoint;
          cipher := Some (derive_cipher (config_PSK a) (identity_PublicKey a) pubKey);
          LastSeen := t1; LastSend := if sent then t2 else 0;
          LatencyMs := 0; HandshakeAt := 0 |},
     [Hello (Some endpoint) (vec_to_list (identity_PublicKey a))]).
Proof.
  cbv zeta. intros Hnew. unfold addStaticPeer, AddPeer.
  unfold GetPeer in Hnew. rewrite Hnew.
  unfold initiateHandshake, sendHello. destruct sent; reflexivity.
Qed.

Lemma handleUDPPacket_hello (e : env) (a : Agent) (network : option VL2.Switch)
  (payload : list byte) (to : option UDPAddr) (from : UDPAddr) :
  handleUDPPacket e a network (bytes (SendPacket (NewHandshakePacket payload) to)) from =
    ((handleHandshake a payload from (now1 e) (now2 e) (sent e)).1, network,
     on_wire <$> (handleHandshake a payload from (now1 e) (now2 e) (sent e)).2, None).
Proof.
  cbn [bytes SendPacket].
  destruct (DecodePacket_Encode_fields (NewHandshakePacket payload) eq_refl)
    as (h & Hdec & Htype).
  unfold handleUDPPacket. rewrite Hdec. cbn [pkt_Header pkt_Payload].
  rewrite Htype. cbn [NewHandshakePacket pkt_Header pkt_Payload hdr_Type].
  rewrite decide_True by reflexivity.
  destruct (handleHandshake a payload from (now1 e) (now2 e) (sent e)). reflexivity.
Qed.

(** X24: two agents with the same PSK and different public keys bring
    up a link with two hellos.  The agent that is configured with the
    other as static peer sends one hello; the other, which did not know
    it, answers with one hello to the source of the datagram; that
    answer is absorbed without a further datagram.  Afterwards each
    holds a connected peer for the other, bound to the source of the
    hello it received, and the two ciphers have mirrored keys and fresh
    counters. *)
Theorem hello_exchange (eA eB : env) (a b : Agent) (netA netB : option VL2.Switch)
  (epB fromA fromB : UDPAddr) (t1 t2 : Z) (s1 : bool) :
  config_PSK a = config_PSK b ->
  identity_PublicKey a <> identity_PublicKey b ->
  let pubA := identity_PublicKey a in
  let pubB := identity_PublicKey b in
  let addrA := Identity.AddressFromPublicKey (vec_to_list pubA) in
  let addrB := Identity.AddressFromPublicKey (vec_to_list pubB) in
  GetPeer (agent_peers a) addrB = None ->
  GetPeer (agent_peers b) addrA = None ->
  let r1 := addStaticPeer a pubB epB t1 t2 s1 in
  let hello := SendPacket (NewHandshakePacket (vec_to_list pubA)) (Some epB) in
  let r2 := handleUDPPacket eB b netB (bytes hello) fromA in
  let reply := SendPacket (NewHandshakePacket (vec_to_list pubB)) (Some fromA) in
  let r3 := handleUDPPacket eA r1.1 netA (bytes reply) fromB in
  on_wire <$> r1.2 = [hello] /\
  r2.1.2 = [reply] /\
  r3.1.2 = [] /\
  r2.1.1.2 = netB /\ r3.1.1.2 = netA /\ r2.2 = None /\ r3.2 = None /\
  exists pB pA cA cB,
    GetPeer (agent_peers r3.1.1.1) addrB = Some pB /\
    IsConnected pB = true /\ Endpoint pB = Some fromB /\ cipher pB = Some cA /\
    GetPeer (agent_peers r2.1.1.1) addrA = Some pA /\
    IsConnected pA = true /\ Endpoint pA = Some fromA /\ cipher pA = Some cB /\
    sendKey cA = recvKey cB /\ recvKey cA = sendKey cB /\
    sendNonce cA = 0 /\ recvNonce cA = 0 /\ sendNonce cB = 0 /\ recvNonce cB = 0.
Proof.
  intros Hpsk Hne. cbv zeta. intros HnewB HnewA.
  rewrite (addStaticPeer_new a (identity_PublicKey b) epB t1 t2 s1 HnewB).
  cbn [fst snd].
  rewrite !handleUDPPacket_hello. cbn [fst snd].
  assert (32 <= length (vec_to_list (identity_PublicKey a)))%nat as HlenA
    by (rewrite length_vec_to_list; lia).
  assert (32 <= length (vec_to_list (identity_PublicKey b)))%nat as HlenB
    by (rewrite length_vec_to_list; lia).
  (* the hello at [b] *)
  pose proof (handleHandshake_unknown b (vec_to_list (identity_PublicKey a)) fromA
                (now1 eB) (now2 eB) (sent eB) HlenA) as HB.
  cbv zeta in HB. rewrite hello_key in HB. specialize (HB HnewA). rewrite HB.
  cbn [fst snd].
  (* the answer at [a] *)
  match goal with
  | |- context [handleHandshake ?a1 _ fromB _ _ _] =>
      pose proof (handleHandshake_known a1 (vec_to_list (identity_PublicKey b)) fromB
                    (now1 eA) (now2 eA) (sent eA)) as HA
  end.
  cbv zeta in HA. rewrite hello_key in HA.
  specialize (HA _ HlenB (store_peer_same _ _ _)).
  unfold IsConnected in HA. cbn [State cipher] in HA.
  rewrite bool_decide_eq_true_2 in HA by reflexivity. cbn [andb] in HA.
  rewrite HA. cbn [fst snd].
  split; [reflexivity|]. split; [reflexivity|]. split; [reflexivity|].
  split; [reflexivity|]. split; [reflexivity|]. split; [reflexivity|].
  split; [reflexivity|].
  eexists _, _, _, _.
  split; [apply store_peer_same|]. split; [reflexivity|].
  split; [reflexivity|]. split; [reflexivity|].
  split; [apply store_peer_same|]. split; [reflexivity|].
  split; [reflexivity|]. split; [reflexivity|].
  destruct (derive_cipher_keys (config_PSK a) (identity_PublicKey a)
              (identity_PublicKey b)) as (-> & -> & -> & ->).
  destruct (derive_cipher_keys (config_PSK b) (identity_PublicKey b)
              (identity_PublicKey a)) as (-> & -> & -> & ->).
  rewrite <- Hpsk.
  rewrite (DeriveKeysFromPSK_swap (config_PSK a) (identity_PublicKey a)
             (identity_PublicKey b) Hne).
  repeat split.
Qed.

(** X25: what [handleUDPPacket] drops.  A datagram that does not decode
    (under 8 bytes, or a first byte other than 1), or whose type is none
    of data, keepalive and handshake, changes nothing and sends nothing.
    The same holds for a data or keepalive packet from an endpoint no
    peer is bound to.  A data packet that the cipher of the peer at the
    source endpoint rejects changes only that peer's last-seen time:
    the touch comes before the authentication. *)
Theorem handleUDPPacket_drops (e : env) (a : Agent) (network : option VL2.Switch)
  (data : list byte) (from : UDPAddr) :
  ((length data < 8)%nat \/ nth 0 data Byte.x00 <> Version ->
   handleUDPPacket e a network data from = (a, network, [], None)) /\
  (nth 1 data Byte.x00 <> PacketTypeData ->
   nth 1 data Byte.x00 <> PacketTypeKeepalive ->
   nth 1 data Byte.x00 <> PacketTypeHandshake ->
   handleUDPPacket e a network data from = (a, network, [], None)) /\
  (nth 1 data Byte.x00 <> PacketTypeHandshake ->
   GetPeerByEndpoint (peers_order e) from = None ->
   handleUDPPacket e a network data from = (a, network, [], None)) /\
  (forall k peer c err,
     (8 <= length data)%nat -> nth 0 data Byte.x00 = Version ->
     nth 1 data Byte.x00 = PacketTypeData ->
     GetPeerByEndpoint (peers_order e) from = Some (k, peer) ->
     cipher peer = Some c ->
     (Decrypt c (drop 8 data)).2 = Err err ->
     handleUDPPacket e a network data from =
       (store_peer a k (Touch peer (now1 e)), network, [], None)).
Proof.
  assert (forall pkt, DecodePacket data = inl pkt ->
            hdr_Type (pkt_Header pkt) = nth 1 data Byte.x00 /\
            pkt_Payload pkt = drop 8 data /\
            (8 <= length data)%nat /\ nth 0 data Byte.x00 = Version) as Hdec.
  { intros pkt. unfold DecodePacket, DecodeHeader.
    destruct (Nat.ltb_spec (length data) HeaderSize) as [Hlt|Hge]; [discriminate|].
    cbn [hdr_Version].
    destruct (decide (nth 0 data Byte.x00 = Version)) as [Hv|Hv]; [|discriminate].
    intros Heq. injection Heq as <-. cbn [pkt_Header pkt_Payload hdr_Type].
    unfold HeaderSize in Hge. auto. }
  split; [|split; [|split]].
  - intros Hbad. unfold handleUDPPacket.
    destruct (DecodePacket data) as [pkt|err] eqn:Hd; [|reflexivity].
    destruct (Hdec pkt eq_refl) as (_ & _ & Hlen & Hv). destruct Hbad; [lia|contradiction].
  - intros Hnd Hnk Hnh. unfold handleUDPPacket.
    destruct (DecodePacket data) as [pkt|err] eqn:Hd; [|reflexivity].
    destruct (Hdec pkt eq_refl) as (Ht & _). rewrite Ht.
    rewrite !decide_False by assumption. reflexivity.
  - intros Hnh Hnone. unfold handleUDPPacket.
    destruct (DecodePacket data) as [pkt|err] eqn:Hd; [|reflexivity].
    destruct (Hdec pkt eq_refl) as (Ht & _). rewrite Ht.
    rewrite (decide_False (P := nth 1 data Byte.x00 = PacketTypeHandshake)) by assumption.
    unfold handleDataPacket. rewrite Hnone.
    destruct (decide (nth 1 data Byte.x00 = PacketTypeData)); [reflexivity|].
    destruct (decide (nth 1 data Byte.x00 = PacketTypeKeepalive)); reflexivity.
  - intros k peer c err Hlen Hv Ht Hfind Hc Hrej. unfold handleUDPPacket.
    destruct (DecodePacket data) as [pkt|perr] eqn:Hd.
    + destruct (Hdec pkt eq_refl) as (Htype & Hpay & _). rewrite Htype, Ht.
      rewrite decide_False by discriminate. rewrite decide_True by reflexivity.
      unfold handleDataPacket. rewrite Hfind, Hpay.
      unfold Peer_Decrypt. cbn [Touch cipher]. rewrite Hc.
      assert ((Decrypt c (drop 8 data)).1 = c) as Hsame.
      { revert Hrej. unfold Decrypt. destruct (_ <? _)%nat; [reflexivity|].
        destruct (chacha20poly1305_New _); [|reflexivity].
        destruct (Open _ _ _ _); [discriminate|reflexivity]. }
      destruct (Decrypt c (drop 8 data)) as [c' r]. cbn [fst snd] in Hsame, Hrej.
      subst c' r. rewrite set_cipher_same by exact Hc. reflexivity.
    + exfalso. revert Hd. unfold DecodePacket, DecodeHeader.
      destruct (Nat.ltb_spec (length data) HeaderSize) as [Hlt|_];
        [unfold HeaderSize in Hlt; lia|].
      cbn [hdr_Version]. rewrite decide_True by exact Hv. discriminate.
Qed.

End ExchangeFacts.

(** ** From one tap to the other *)
Section EndToEnd.
Import Wire Primitives VL1 Node Dataplane.
Context `{!AEAD} `{!Blake2s} `{!NetIP}.

(** X26: a unicast frame read from the tap of one agent is written to
    the tap of the other, byte for byte.  The sender's switch maps the
    destination MAC to a connected peer, so [tapReadLoop] sends one
    datagram to that peer's endpoint and writes nothing back; the
    receiver finds a peer with the mirrored cipher at the source of the
    datagram, its switch holds the destination MAC as local, and
    [handleUDPPacket] writes the frame to the tap and sends nothing. *)
Theorem tap_to_tap (eA eB : env) (ae : ARP.env) (a b : Agent)
  (swA swB : VL2.Switch) (arp : ARP.ARPProxy) (buf : list byte)
  (f : VL2.EthernetFrame) (entryA entryB : VL2.MACEntry)
  (peerB peerA : Peer) (kA : Identity.Address) (cA cB : NoiseCipher)
  (from : UDPAddr) :
  VL2.ParseEthernetFrame buf = Ok f ->
  VL2.IsARP f = false ->
  VL2.IsMulticast f = false ->
  VL2.macTable (VL2.learn (mac_order eA) swA (VL2.SrcMAC f) Identity.zeroAddress
                  true (now_learn eA))
    !! VL2.MACToKey (VL2.DstMAC f) = Some entryA ->
  VL2.IsLocal entryA = false ->
  GetPeer (agent_peers a) (VL2.PeerAddr entryA) = Some peerB ->
  IsConnected peerB = true ->
  cipher peerB = Some cA ->
  cipher_wf cA ->
  GetPeerByEndpoint (peers_order eB) from = Some (kA, peerA) ->
  cipher peerA = Some cB ->
  sendKey cA = recvKey cB ->
  VL2.macTable (VL2.learn (mac_order eB) swB (VL2.SrcMAC f) (Address peerA)
                  false (now_learn eB))
    !! VL2.MACToKey (VL2.DstMAC f) = Some entryB ->
  VL2.IsLocal entryB = true ->
  tap eB = true ->
  exists d,
    (tapFrame eA ae a swA arp buf).1.2 = [d] /\
    (tapFrame eA ae a swA arp buf).2 = None /\
    dst d = Endpoint peerB /\
    length (bytes d) = (length buf + 32)%nat /\
    (handleUDPPacket eB b (Some swB) (bytes d) from).2 = Some buf /\
    (handleUDPPacket eB b (Some swB) (bytes d) from).1.2 = [].
Proof.
  intros Hparse Harp Hm HentryA HlocalA Hg Hconn HcA Hwf Hfind HcB Hkey
    HentryB HlocalB Htap.
  assert (VL2.IsBroadcast f = false) as Hb by (apply IsMulticast_false_IsBroadcast, Hm).
  (* the sending side *)
  assert (tapFrame eA ae a swA arp buf =
          (store_peer a (VL2.PeerAddr entryA) (set_cipher peerB (advanced cA)),
           VL2.learn (mac_order eA) swA (VL2.SrcMAC f) Identity.zeroAddress true
             (now_learn eA),
           arp,
           [SendPacket
              (NewDataPacket
                 (VL2.networkID (VL2.learn (mac_order eA) swA (VL2.SrcMAC f)
                                   Identity.zeroAddress true (now_learn eA)))
                 (sealed cA buf))
              (Endpoint peerB)],
           None)) as Hsend.
  { unfold tapFrame.
    destruct (Nat.ltb_spec (length buf) VL2.MinFrameSize) as [Hlt|_].
    { revert Hparse. unfold VL2.ParseEthernetFrame.
      destruct (Nat.ltb_spec (length buf) VL2.MinFrameSize); [discriminate|lia]. }
    rewrite Hparse, Harp.
    unfold VL2.HandleLocalFrame. rewrite Hparse, Hb, Hm. cbn [orb].
    rewrite HentryA, HlocalA. cbn [negb foldl run_send fst snd].
    unfold SendToPeer. rewrite Hg, Hconn. cbn [negb].
    rewrite (Peer_Encrypt_eq peerB buf cA HcA). reflexivity. }
  rewrite Hsend. cbn [fst snd].
  eexists. split; [reflexivity|]. split; [reflexivity|].
  split; [reflexivity|]. cbn [bytes SendPacket].
  split; [rewrite data_packet_length, sealed_length; lia|].
  (* the receiving side *)
  match goal with
  | |- context [NewDataPacket ?n (sealed cA buf)] => set (nid := n)
  end.
  destruct (DecodePacket_Encode_fields (NewDataPacket nid (sealed cA buf)) eq_refl)
    as (h & Hdec & Htype).
  unfold handleUDPPacket. rewrite Hdec. cbn [pkt_Header pkt_Payload].
  rewrite Htype. cbn [NewDataPacket pkt_Header hdr_Type].
  rewrite decide_False by discriminate. rewrite decide_True by reflexivity.
  unfold handleDataPacket. rewrite Hfind. cbn [pkt_Payload].
  unfold Peer_Decrypt. cbn [Touch cipher]. rewrite HcB.
  change (pkt_Payload (NewDataPacket nid (sealed cA buf))) with (sealed cA buf).
  rewrite (Decrypt_sealed cA cB buf Hwf Hkey).
  cbn [set_cipher Address]. unfold injectRemote, VL2.HandleRemoteFrame.
  rewrite Hparse, Hb, Hm. cbn [orb].
  change (Address (Touch peerA (now1 eB))) with (Address peerA).
  rewrite HentryB, HlocalB.
  cbn [foldl fst snd]. rewrite Htap. split; reflexivity.
Qed.

End EndToEnd.

(** ** Concrete runs of the further properties *)

Lemma go_IP_Equal_refl (ip : list byte) : go_IP_Equal ip ip = true.
Proof.
  unfold go_IP_Equal. rewrite Nat.eqb_refl. apply bool_decide_eq_true_2. reflexivity.
Qed.

#[global] Instance go_NetIP : VL1.NetIP := {|
  VL1.IP_Equal := go_IP_Equal;
  VL1.IP_Equal_refl := go_IP_Equal_refl
|}.

Lemma DecodePacket_Encode_run :
  let p := VL1.NewDataPacket 7 (map byte.of_Z [1; 2; 3]) in
  VL1.hdr_Version (VL1.pkt_Header p) = VL1.Version /\
  VL1.header_wf (VL1.pkt_Header p) /\
  VL1.DecodePacket (VL1.Packet_Encode p) = inl p.
Proof.
  intros p.
  assert (VL1.hdr_Version (VL1.pkt_Header p) = VL1.Version) as H1 by reflexivity.
  assert (VL1.header_wf (VL1.pkt_Header p)) as H2
    by (unfold VL1.header_wf; cbn; lia).
  split; [exact H1|]. split; [exact H2|].
  exact (DecodePacket_Encode p H1 H2).
Defined.

Lemma IsBroadcast_IsMulticast_run :
  VL2.IsBroadcast (broadcast_parsed mac_B) = true /\
  VL2.IsMulticast (broadcast_parsed mac_B) = true /\
  VL2.IsUnicast (broadcast_parsed mac_B) = false.
Proof.
  assert (VL2.IsBroadcast (broadcast_parsed mac_B) = true) as H1
    by (vm_compute; reflexivity).
  split; [exact H1|].
  exact (IsBroadcast_IsMulticast (broadcast_parsed mac_B) H1).
Defined.

Lemma macTable_bounded_run :
  let order := map_to_list (VL2.macTable switch1) in
  VL2.visits order (VL2.macTable switch1) /\
  (size (VL2.macTable switch1) <= VL2.MACTableMaxSize)%nat /\
  (size (VL2.macTable
           (VL2.HandleLocalFrame order switch1 (frame_from mac_B) 3000 (Ok tt)).1.1)
     <= VL2.MACTableMaxSize)%nat /\
  (size (VL2.macTable
           (VL2.HandleRemoteFrame order switch1 addrK (frame_from mac_B) 3000).1.1)
     <= VL2.MACTableMaxSize)%nat.
Proof.
  intros order.
  assert (VL2.visits order (VL2.macTable switch1)) as H1
    by (unfold VL2.visits; apply Permutation_refl).
  assert (size (VL2.macTable switch1) <= VL2.MACTableMaxSize)%nat as H2
    by (vm_compute; lia).
  split; [exact H1|]. split; [exact H2|].
  exact (macTable_bounded order switch1 addrK (frame_from mac_B) 3000 (Ok tt) H1 H2).
Defined.

Lemma unicast_after_learning_run :
  let sw1 := (VL2.HandleRemoteFrame [] switch0 addrK (frame_from mac_B) 1000).1.1 in
  VL2.ParseEthernetFrame (frame_from mac_B) = Ok (broadcast_parsed mac_B) /\
  VL2.ParseEthernetFrame unicast_frame = Ok unicast_parsed /\
  VL2.MACToKey (VL2.DstMAC unicast_parsed) =
    VL2.MACToKey (VL2.SrcMAC (broadcast_parsed mac_B)) /\
  VL2.MACToKey (VL2.SrcMAC unicast_parsed) <>
    VL2.MACToKey (VL2.SrcMAC (broadcast_parsed mac_B)) /\
  VL2.IsMulticast unicast_parsed = false /\
  (size (VL2.macTable sw1) < VL2.MACTableMaxSize)%nat /\
  (VL2.HandleLocalFrame (map_to_list (VL2.macTable sw1)) sw1 unicast_frame 2000
     (Ok tt)).1.2 = [VL2.SendToPeer addrK (VL2.networkID switch0) unicast_frame] /\
  (VL2.HandleLocalFrame (map_to_list (VL2.macTable sw1)) sw1 unicast_frame 2000
     (Ok tt)).2 = Ok tt.
Proof.
  intros sw1.
  assert (VL2.ParseEthernetFrame (frame_from mac_B) = Ok (broadcast_parsed mac_B))
    as H1 by (vm_compute; reflexivity).
  assert (VL2.ParseEthernetFrame unicast_frame = Ok unicast_parsed) as H2
    by (vm_compute; reflexivity).
  assert (VL2.MACToKey (VL2.DstMAC unicast_parsed) =
          VL2.MACToKey (VL2.SrcMAC (broadcast_parsed mac_B))) as H3
    by (vm_compute; reflexivity).
  assert (VL2.MACToKey (VL2.SrcMAC unicast_parsed) <>
          VL2.MACToKey (VL2.SrcMAC (broadcast_parsed mac_B))) as H4
    by (vm_compute; discriminate).
  assert (VL2.IsMulticast unicast_parsed = false) as H5 by (vm_compute; reflexivity).
  assert (size (VL2.macTable sw1) < VL2.MACTableMaxSize)%nat as H6
    by (vm_compute; lia).
  split; [exact H1|]. split; [exact H2|]. split; [exact H3|]. split; [exact H4|].
  split; [exact H5|]. split; [exact H6|].
  exact (unicast_after_learning [] (map_to_list (VL2.macTable sw1)) switch0 addrK
           (frame_from mac_B) unicast_frame 1000 2000 (Ok tt)
           (broadcast_parsed mac_B) unicast_parsed H1 H2 H3 H4 H5 H6).
Defined.

Lemma HandleRemoteFrame_decision_run :
  let order := map_to_list (VL2.macTable switch1) in
  let f := broadcast_parsed mac_B in
  let r := VL2.HandleRemoteFrame order switch1 addrK (frame_from mac_B) 3000 in
  let sw' := VL2.learn order switch1 (VL2.SrcMAC f) addrK false 3000 in
  VL2.ParseEthernetFrame (frame_from mac_B) = Ok f /\
  (forall q, (VL2.IsBroadcast f || VL2.IsMulticast f = false /\
              exists e, VL2.macTable sw' !! VL2.MACToKey (VL2.DstMAC f) = Some e /\
                        VL2.IsLocal e = false /\ VL2.PeerAddr e = q) <->
             r.2 = Ok None /\
             r.1.2 = [VL2.SendToPeer q (VL2.networkID switch1) (frame_from mac_B)]) /\
  (r.2 = Ok None \/ r.2 = Ok (Some (frame_from mac_B))) /\
  (length r.1.2 <= 1)%nat /\
  (forall n fr ex, VL2.BroadcastToPeers n fr ex ∈ r.1.2 ->
                   ex = addrK /\ fr = frame_from mac_B /\
                   r.2 = Ok (Some (frame_from mac_B))) /\
  r.1.1 = sw' /\
  (VL2.IsBroadcast f || VL2.IsMulticast f = true ->
   r.2 = Ok (Some (frame_from mac_B)) /\
   r.1.2 = [VL2.BroadcastToPeers (VL2.networkID switch1) (frame_from mac_B) addrK]) /\
  (VL2.IsBroadcast f || VL2.IsMulticast f = false ->
   VL2.macTable sw' !! VL2.MACToKey (VL2.DstMAC f) = None ->
   r.2 = Ok (Some (frame_from mac_B)) /\
   r.1.2 = [VL2.BroadcastToPeers (VL2.networkID switch1) (frame_from mac_B) addrK]) /\
  (forall e, VL2.IsBroadcast f || VL2.IsMulticast f = false ->
   VL2.macTable sw' !! VL2.MACToKey (VL2.DstMAC f) = Some e ->
   VL2.IsLocal e = true ->
   r.2 = Ok (Some (frame_from mac_B)) /\ r.1.2 = []).
Proof.
  intros order f r sw'.
  assert (VL2.ParseEthernetFrame (frame_from mac_B) = Ok f) as H1
    by (vm_compute; reflexivity).
  split; [exact H1|].
  exact (HandleRemoteFrame_decision order switch1 addrK (frame_from mac_B) 3000 f H1).
Defined.

Lemma Switch_CleanExpired_spec_run :
  let order := map_to_list (VL2.macTable switch2) in
  let now := 2000 + VL2.MACTableExpiry + 1 in
  let r := VL2.CleanExpired order switch2 now in
  VL2.visits order (VL2.macTable switch2) /\
  (forall k e, VL2.macTable r.1 !! k = Some e <->
     VL2.macTable switch2 !! k = Some e /\
     (VL2.IsLocal e = true \/ now - VL2.MACTableExpiry <= VL2.LastSeen e)) /\
  r.2 = (size (VL2.macTable switch2) - size (VL2.macTable r.1))%nat /\
  VL2.networkID r.1 = VL2.networkID switch2.
Proof.
  intros order now r.
  assert (VL2.visits order (VL2.macTable switch2)) as H1
    by (unfold VL2.visits; apply Permutation_refl).
  split; [exact H1|].
  exact (Switch_CleanExpired_spec order switch2 now H1).
Defined.

Lemma ARP_CleanExpired_spec_run :
  let order := map_to_list (ARP.cache proxy0) in
  let now := 5000 + ARP.ARPCacheExpiry + 1 in
  let r := ARP.CleanExpired order proxy0 now in
  ARP.visits order (ARP.cache proxy0) /\
  (forall k e, ARP.cache r.1 !! k = Some e <->
     ARP.cache proxy0 !! k = Some e /\ now - ARP.ARPCacheExpiry <= ARP.LastSeen e) /\
  r.2 = (size (ARP.cache proxy0) - size (ARP.cache r.1))%nat /\
  (forall k e, ARP.cache proxy0 !! k = Some e ->
     now - ARP.LastSeen e < ARP.ARPCacheExpiry -> ARP.cache r.1 !! k = Some e).
Proof.
  intros order now r.
  assert (ARP.visits order (ARP.cache proxy0)) as H1
    by (unfold ARP.visits; apply Permutation_refl).
  split; [exact H1|].
  exact (ARP_CleanExpired_spec order proxy0 now H1).
Defined.

Lemma ARP_learn_evicts_oldest_run :
  let order := map_to_list (ARP.cache proxy0) in
  let ip : ARP.IPv4 := Wire.copy_into 4 ip_1 in
  let learned := ARP.learn order proxy0 ip mac_local 6000 in
  let stored := {| ARP.MAC := ARP.copied 6 mac_local; ARP.LastSeen := 6000 |} in
  ARP.visits order (ARP.cache proxy0) /\
  ((ARP.ARPCacheMaxSize <= size (ARP.cache proxy0))%nat ->
   exists k e, ARP.cache proxy0 !! k = Some e /\
     (forall k' e', ARP.cache proxy0 !! k' = Some e' ->
        ARP.LastSeen e <= ARP.LastSeen e') /\
     ARP.cache learned = <[ip := stored]> (delete k (ARP.cache proxy0))) /\
  ((size (ARP.cache proxy0) < ARP.ARPCacheMaxSize)%nat ->
   ARP.cache learned = <[ip := stored]> (ARP.cache proxy0)) /\
  ((size (ARP.cache proxy0) <= ARP.ARPCacheMaxSize)%nat ->
   (size (ARP.cache learned) <= ARP.ARPCacheMaxSize)%nat).
Proof.
  intros order ip learned stored.
  assert (ARP.visits order (ARP.cache proxy0)) as H1
    by (unfold ARP.visits; apply Permutation_refl).
  split; [exact H1|].
  exact (ARP_learn_evicts_oldest order proxy0 ip mac_local 6000 H1).
Defined.

Lemma HandleARP_reply_only_if_run :
  let frame := arp_request mac_local ip_1 ip_2 in
  let payload := VL2.Payload frame in
  let senderMAC := Wire.slice 8 14 payload in
  let senderIP : ARP.IPv4 := Wire.copy_into 4 (Wire.slice 14 18 payload) in
  let targetIP : ARP.IPv4 := Wire.copy_into 4 (Wire.slice 24 28 payload) in
  let learned := ARP.learn (ARP.order1 env0) proxy0 senderIP senderMAC (ARP.now1 env0) in
  let reply := ARP.buildARPReply frame mac_B senderMAC senderIP targetIP in
  (ARP.HandleARP env0 proxy0 frame).2 = Some reply /\
  ipv4_arp payload /\
  Wire.Uint16BE (Wire.slice 6 8 payload) = ARP.ARPRequest /\
  (ARP.HandleARP env0 proxy0 frame).1 = learned /\
  exists entry,
    ARP.cache learned !! targetIP = Some entry /\
    ARP.now_since env0 - ARP.LastSeen entry < ARP.ARPCacheExpiry /\
    reply = ARP.buildARPReply frame (ARP.MAC entry) senderMAC senderIP targetIP /\
    length reply = 42%nat.
Proof.
  intros frame payload senderMAC senderIP targetIP learned reply.
  assert ((ARP.HandleARP env0 proxy0 frame).2 = Some reply) as H1
    by (vm_compute; reflexivity).
  split; [exact H1|].
  exact (HandleARP_reply_only_if env0 proxy0 frame reply H1).
Defined.

Lemma GetPeerByEndpoint_spec_run :
  let pm := Node.agent_peers agentB1 in
  let order := map_to_list (VL1.peers pm) in
  VL1.peers_visits order pm /\
  (forall k p, VL1.GetPeerByEndpoint order endpoint2 = Some (k, p) ->
     VL1.peers pm !! k = Some p /\ VL1.at_endpoint p endpoint2 = true) /\
  (VL1.GetPeerByEndpoint order endpoint2 = None <->
     forall k p, VL1.peers pm !! k = Some p -> VL1.at_endpoint p endpoint2 = false) /\
  (forall k p, VL1.peers pm !! k = Some p -> VL1.at_endpoint p endpoint2 = true ->
     (forall k' p', VL1.peers pm !! k' = Some p' ->
        VL1.at_endpoint p' endpoint2 = true -> k' = k) ->
     VL1.GetPeerByEndpoint order endpoint2 = Some (k, p)).
Proof.
  intros pm order.
  assert (VL1.peers_visits order pm) as H1
    by (unfold VL1.peers_visits; apply Permutation_refl).
  split; [exact H1|].
  exact (GetPeerByEndpoint_spec order pm endpoint2 H1).
Defined.

Lemma CleanDead_spec_run :
  let pm := Node.agent_peers agentB1 in
  let order := map_to_list (VL1.peers pm) in
  let now := fun _ : Identity.Address => 110 + 2 * VL1.PeerTimeout in
  VL1.peers_visits order pm /\
  (forall k p, VL1.peers (VL1.CleanDead order pm now).1 !! k = Some p <->
     VL1.peers pm !! k = Some p /\
     (VL1.State p <> VL1.PeerStateDead \/ now k - VL1.LastSeen p < VL1.PeerTimeout)) /\
  (VL1.CleanDead order pm now).2 =
    (size (VL1.peers pm) - size (VL1.peers (VL1.CleanDead order pm now).1))%nat /\
  ((forall k p, VL1.peers pm !! k = Some p -> VL1.State p <> VL1.PeerStateDead) ->
   VL1.CleanDead order pm now = (pm, 0%nat)).
Proof.
  intros pm order now.
  assert (VL1.peers_visits order pm) as H1
    by (unfold VL1.peers_visits; apply Permutation_refl).
  split; [exact H1|].
  exact (CleanDead_spec order pm now H1).
Defined.

Lemma handleHandshake_new_peer_run :
  let payload := vec_to_list pubB0 in
  let remotePubKey := Wire.copy_into 32 (Wire.slice 0 32 payload) in
  let remoteAddr := Identity.AddressFromPublicKey (vec_to_list remotePubKey) in
  let r := Node.handleHandshake agent0 payload endpoint1 100 101 true in
  (32 <= length payload)%nat /\
  VL1.GetPeer (Node.agent_peers agent0) remoteAddr = None /\
  r.2 = [Node.Hello (Some endpoint1) (vec_to_list (Node.identity_PublicKey agent0))] /\
  VL1.GetPeer (Node.agent_peers r.1) remoteAddr =
    Some {| VL1.Address := remoteAddr; VL1.PublicKey := remotePubKey;
            VL1.State := VL1.PeerStateConnected; VL1.Endpoint := Some endpoint1;
            VL1.cipher :=
              Some (VL1.derive_cipher (Node.config_PSK agent0)
                      (Node.identity_PublicKey agent0) remotePubKey);
            VL1.LastSeen := 100; VL1.LastSend := 101;
            VL1.LatencyMs := 0; VL1.HandshakeAt := 0 |} /\
  (forall k, k <> remoteAddr ->
     VL1.GetPeer (Node.agent_peers r.1) k = VL1.GetPeer (Node.agent_peers agent0) k) /\
  Node.identity_PublicKey r.1 = Node.identity_PublicKey agent0 /\
  Node.config_PSK r.1 = Node.config_PSK agent0.
Proof.
  intros payload remotePubKey remoteAddr r.
  assert (32 <= length payload)%nat as H1
    by (unfold payload; rewrite length_vec_to_list; lia).
  assert (VL1.GetPeer (Node.agent_peers agent0) remoteAddr = None) as H2
    by reflexivity.
  split; [exact H1|]. split; [exact H2|].
  exact (handleHandshake_new_peer agent0 payload endpoint1 100 101 true H1 H2).
Defined.

Lemma data_packet_delivery_run :
  let cA := VL1.derive_cipher psk0 pubA0 pubB0 in
  let cB := VL1.derive_cipher psk0 pubB0 pubA0 in
  VL1.GetPeer (Node.agent_peers agentA1) addrB0 = Some peerB_at_A /\
  VL1.IsConnected peerB_at_A = true /\
  VL1.cipher peerB_at_A = Some cA /\
  VL1.cipher_wf cA /\
  VL1.GetPeerByEndpoint (Dataplane.peers_order denvB) endpoint2
    = Some (addrA0, peerA_at_B) /\
  VL1.cipher peerA_at_B = Some cB /\
  VL1.sendKey cA = VL1.recvKey cB /\
  exists d,
    (Dataplane.SendToPeer agentA1 addrB0 1 unicast_frame true).1.2 = [d] /\
    Dataplane.dst d = VL1.Endpoint peerB_at_A /\
    Dataplane.handleUDPPacket denvB agentB1 (Some switchB) (Dataplane.bytes d) endpoint2 =
      Dataplane.injectRemote denvB
        (Node.store_peer agentB1 addrA0
           (VL1.set_cipher (VL1.Touch peerA_at_B (Dataplane.now1 denvB))
              (accepted cB (VL1.sendNonce cA))))
        (Some switchB) (VL1.Address peerA_at_B) unicast_frame.
Proof.
  intros cA cB.
  assert (VL1.GetPeer (Node.agent_peers agentA1) addrB0 = Some peerB_at_A) as H1
    by (vm_compute; reflexivity).
  assert (VL1.IsConnected peerB_at_A = true) as H2 by reflexivity.
  assert (VL1.cipher peerB_at_A = Some cA) as H3 by reflexivity.
  assert (VL1.cipher_wf cA) as H4
    by (unfold VL1.cipher_wf; split; split; vm_compute; congruence).
  assert (VL1.GetPeerByEndpoint (Dataplane.peers_order denvB) endpoint2
          = Some (addrA0, peerA_at_B)) as H5 by (vm_compute; reflexivity).
  assert (VL1.cipher peerA_at_B = Some cB) as H6 by reflexivity.
  assert (VL1.sendKey cA = VL1.recvKey cB) as H7 by (vm_compute; reflexivity).
  split; [exact H1|]. split; [exact H2|]. split; [exact H3|]. split; [exact H4|].
  split; [exact H5|]. split; [exact H6|]. split; [exact H7|].
  exact (data_packet_delivery denvB agentA1 agentB1 (Some switchB) addrB0 addrA0
           peerB_at_A peerA_at_B cA cB 1 unicast_frame endpoint2 true
           H1 H2 H3 H4 H5 H6 H7).
Defined.

Lemma hello_exchange_run :
  let pubA := Node.identity_PublicKey agent0 in
  let pubB := Node.identity_PublicKey agentB0 in
  let addrA := Identity.AddressFromPublicKey (vec_to_list pubA) in
  let addrB := Identity.AddressFromPublicKey (vec_to_list pubB) in
  let r1 := Dataplane.addStaticPeer agent0 pubB endpoint1 100 101 true in
  let hello :=
    Dataplane.SendPacket (VL1.NewHandshakePacket (vec_to_list pubA)) (Some endpoint1) in
  let r2 := Dataplane.handleUDPPacket denvB agentB0 None (Dataplane.bytes hello)
              endpoint2 in
  let reply :=
    Dataplane.SendPacket (VL1.NewHandshakePacket (vec_to_list pubB)) (Some endpoint2) in
  let r3 := Dataplane.handleUDPPacket denvA r1.1 None (Dataplane.bytes reply)
              endpoint1 in
  Node.config_PSK agent0 = Node.config_PSK agentB0 /\
  Node.identity_PublicKey agent0 <> Node.identity_PublicKey agentB0 /\
  VL1.GetPeer (Node.agent_peers agent0) addrB = None /\
  VL1.GetPeer (Node.agent_peers agentB0) addrA = None /\
  Dataplane.on_wire <$> r1.2 = [hello] /\
  r2.1.2 = [reply] /\
  r3.1.2 = [] /\
  r2.1.1.2 = None /\ r3.1.1.2 = None /\ r2.2 = None /\ r3.2 = None /\
  exists pB pA cA cB,
    VL1.GetPeer (Node.agent_peers r3.1.1.1) addrB = Some pB /\
    VL1.IsConnected pB = true /\ VL1.Endpoint pB = Some endpoint1 /\
    VL1.cipher pB = Some cA /\
    VL1.GetPeer (Node.agent_peers r2.1.1.1) addrA = Some pA /\
    VL1.IsConnected pA = true /\ VL1.Endpoint pA = Some endpoint2 /\
    VL1.cipher pA = Some cB /\
    VL1.sendKey cA = VL1.recvKey cB /\ VL1.recvKey cA = VL1.sendKey cB /\
    VL1.sendNonce cA = 0 /\ VL1.recvNonce cA = 0 /\
    VL1.sendNonce cB = 0 /\ VL1.recvNonce cB = 0.
Proof.
  intros pubA pubB addrA addrB r1 hello r2 reply r3.
  assert (Node.config_PSK agent0 = Node.config_PSK agentB0) as H1 by reflexivity.
  assert (Node.identity_PublicKey agent0 <> Node.identity_PublicKey agentB0) as H2
    by exact pubA0_neq_pubB0.
  assert (VL1.GetPeer (Node.agent_peers agent0) addrB = None) as H3 by reflexivity.
  assert (VL1.GetPeer (Node.agent_peers agentB0) addrA = None) as H4 by reflexivity.
  split; [exact H1|]. split; [exact H2|]. split; [exact H3|]. split; [exact H4|].
  exact (hello_exchange denvA denvB agent0 agentB0 None None endpoint1 endpoint2
           endpoint1 100 101 true H1 H2 H3 H4).
Defined.

Lemma tap_to_tap_run :
  let cA := VL1.derive_cipher psk0 pubA0 pubB0 in
  let cB := VL1.derive_cipher psk0 pubB0 pubA0 in
  let entryA := {| VL2.PeerAddr := addrB0; VL2.LastSeen := 1000; VL2.IsLocal := false |} in
  let entryB :=
    {| VL2.PeerAddr := Identity.zeroAddress; VL2.LastSeen := 1000; VL2.IsLocal := true |} in
  VL2.ParseEthernetFrame unicast_frame = Ok unicast_parsed /\
  VL2.IsARP unicast_parsed = false /\
  VL2.IsMulticast unicast_parsed = false /\
  VL2.macTable (VL2.learn (Dataplane.mac_order denvA) switchA
                  (VL2.SrcMAC unicast_parsed) Identity.zeroAddress true
                  (Dataplane.now_learn denvA))
    !! VL2.MACToKey (VL2.DstMAC unicast_parsed) = Some entryA /\
  VL2.IsLocal entryA = false /\
  VL1.GetPeer (Node.agent_peers agentA1) (VL2.PeerAddr entryA) = Some peerB_at_A /\
  VL1.IsConnected peerB_at_A = true /\
  VL1.cipher peerB_at_A = Some cA /\
  VL1.cipher_wf cA /\
  VL1.GetPeerByEndpoint (Dataplane.peers_order denvB) endpoint2
    = Some (addrA0, peerA_at_B) /\
  VL1.cipher peerA_at_B = Some cB /\
  VL1.sendKey cA = VL1.recvKey cB /\
  VL2.macTable (VL2.learn (Dataplane.mac_order denvB) switchB
                  (VL2.SrcMAC unicast_parsed) (VL1.Address peerA_at_B) false
                  (Dataplane.now_learn denvB))
    !! VL2.MACToKey (VL2.DstMAC unicast_parsed) = Some entryB /\
  VL2.IsLocal entryB = true /\
  Dataplane.tap denvB = true /\
  exists d,
    (Dataplane.tapFrame denvA env0 agentA1 switchA proxy0 unicast_frame).1.2 = [d] /\
    (Dataplane.tapFrame denvA env0 agentA1 switchA proxy0 unicast_frame).2 = None /\
    Dataplane.dst d = VL1.Endpoint peerB_at_A /\
    length (Dataplane.bytes d) = (length unicast_frame + 32)%nat /\
    (Dataplane.handleUDPPacket denvB agentB1 (Some switchB) (Dataplane.bytes d)
       endpoint2).2 = Some unicast_frame /\
    (Dataplane.handleUDPPacket denvB agentB1 (Some switchB) (Dataplane.bytes d)
       endpoint2).1.2 = [].
Proof.
  intros cA cB entryA entryB.
  assert (VL2.ParseEthernetFrame unicast_frame = Ok unicast_parsed) as H1
    by (vm_compute; reflexivity).
  assert (VL2.IsARP unicast_parsed = false) as H2 by (vm_compute; reflexivity).
  assert (VL2.IsMulticast unicast_parsed = false) as H3 by (vm_compute; reflexivity).
  assert (VL2.macTable (VL2.learn (Dataplane.mac_order denvA) switchA
                          (VL2.SrcMAC unicast_parsed) Identity.zeroAddress true
                          (Dataplane.now_learn denvA))
            !! VL2.MACToKey (VL2.DstMAC unicast_parsed) = Some entryA) as H4
    by (vm_compute; reflexivity).
  assert (VL2.IsLocal entryA = false) as H5 by reflexivity.
  assert (VL1.GetPeer (Node.agent_peers agentA1) (VL2.PeerAddr entryA)
          = Some peerB_at_A) as H6 by (vm_compute; reflexivity).
  assert (VL1.IsConnected peerB_at_A = true) as H7 by reflexivity.
  assert (VL1.cipher peerB_at_A = Some cA) as H8 by reflexivity.
  assert (VL1.cipher_wf cA) as H9
    by (unfold VL1.cipher_wf; split; split; vm_compute; congruence).
  assert (VL1.GetPeerByEndpoint (Dataplane.peers_order denvB) endpoint2
          = Some (addrA0, peerA_at_B)) as H10 by (vm_compute; reflexivity).
  assert (VL1.cipher peerA_at_B = Some cB) as H11 by reflexivity.
  assert (VL1.sendKey cA = VL1.recvKey cB) as H12 by (vm_compute; reflexivity).
  assert (VL2.macTable (VL2.learn (Dataplane.mac_order denvB) switchB
                          (VL2.SrcMAC unicast_parsed) (VL1.Address peerA_at_B) false
                          (Dataplane.now_learn denvB))
            !! VL2.MACToKey (VL2.DstMAC unicast_parsed) = Some entryB) as H13
    by (vm_compute; reflexivity).
  assert (VL2.IsLocal entryB = true) as H14 by reflexivity.
  assert (Dataplane.tap denvB = true) as H15 by reflexivity.
  split; [exact H1|]. split; [exact H2|]. split; [exact H3|]. split; [exact H4|].
  split; [exact H5|]. split; [exact H6|]. split; [exact H7|]. split; [exact H8|].
  split; [exact H9|]. split; [exact H10|]. split; [exact H11|]. split; [exact H12|].
  split; [exact H13|]. split; [exact H14|]. split; [exact H15|].
  exact (tap_to_tap denvA denvB env0 agentA1 agentB1 switchA switchB proxy0
           unicast_frame unicast_parsed entryA entryB peerB_at_A peerA_at_B addrA0
           cA cB endpoint2 H1 H2 H3 H4 H5 H6 H7 H8 H9 H10 H11 H12 H13 H14 H15).
Defined.
